(** * onlyaml: extended YAML loading with variable interpolation

    A shallow embedding of [tools/onlyaml.py]: the interpolation scope of a
    [Loader] ([getContext], [interpolate], [subLoader]), the lazy string
    scalar ([LazyString]), the deferred template expansion ([LazyTemplate],
    its [start] and [defer] generators), the drain loop of
    [Loader.construct_document] together with the generators of PyYAML's
    own sequence and mapping constructors that it resumes, and the
    [!script] and [!include] directives.

    Python objects that are shared and mutated (loaders, lazy strings,
    dicts, lists) live in a store and are referred to by their index.  Exceptions are values of
    [exn]; a computation returns an [outcome] together with the store it
    leaves behind. *)

From stdpp Require Import gmap strings list fin_maps.
From Stdlib Require Import ZArith Ascii String Lia DecimalString.

Open Scope Z_scope.
Open Scope string_scope.
Open Scope list_scope.

(** ** Exceptions *)

(** The exception classes the module raises or lets through.  [KeyError] is
    internal to [string.Template]; [ConstructorError] is PyYAML's.
    [ModelFault] is not a Python exception: it marks a reference that is
    not in the store, which a Python object graph cannot contain.
    [Unsupported] is none either: it marks the point where a run leaves
    what is modelled (a [variables] entry that is not a mapping of
    scalars). *)
Inductive exn :=
| OnlYamlError (value : string)
| OnlTemplateError (value : string)
| KeyError (key : string)
| ValueError (msg : string)
| NotImplementedError (msg : string)
| TypeError (msg : string)
| AttributeError (msg : string)
| IndexError (msg : string)
| UnboundLocalError (msg : string)
| IOError (msg : string)
| OSError (msg : string)
| ConstructorError (msg : string)
| ModelFault
| Unsupported (what : string).

(** [class OnlTemplateError(OnlYamlError)]: what [except OnlYamlError]
    catches. *)
Definition is_OnlYamlError (e : exn) : bool :=
  match e with
  | OnlYamlError _ | OnlTemplateError _ => true
  | _ => false
  end.

Definition is_OnlTemplateError (e : exn) : bool :=
  match e with
  | OnlTemplateError _ => true
  | _ => false
  end.

Inductive outcome (A : Type) :=
| Ret (a : A)
| Raise (e : exn).
Arguments Ret {A} a.
Arguments Raise {A} e.

(** ** Values and lazy strings *)

(** A string-like Python value: a plain [str], or a reference to a
    [LazyString] object. *)
Inductive value :=
| VStr (s : string)
| VLazy (ref : nat).

(** A Python object as a document holds it: a [str], a [LazyString], [None],
    another scalar (an [int], a [bool], a [float], ...) given by the name
    of its type and the text [str] makes of it, a [dict] or a [list]. *)
Inductive pyval :=
| PStr (s : string)
| PLazy (ref : nat)
| PNone
| PObj (type_name : string) (text : string)
| PDict (ref : nat)
| PList (ref : nat).

Definition pyval_of (v : value) : pyval :=
  match v with
  | VStr s => PStr s
  | VLazy r => PLazy r
  end.

(** [class LazyString(str)]: [ls_raw] is the content of the [str] base
    object (fixed by [__new__]), [ls_data] the attribute [data]. *)
Record LazyString := mkLazyString {
  ls_raw : string;
  ls_data : option string
}.

Definition UNDEFINED : string := "THIS STRING INTENTIONALLY LEFT BLANK".

(** [LazyString.__new__] followed by [__init__]. *)
Definition LazyString_new (data : option string) : LazyString :=
  {| ls_raw := UNDEFINED; ls_data := data |}.

(** [LazyString.__str__]. *)
Definition LazyString_str (self : LazyString) : outcome string :=
  match ls_data self with
  | None => Raise (ValueError "lazy string is not initialized")
  | Some d =>
      if String.eqb d UNDEFINED
      then Raise (ValueError "lazy string is not initialized")
      else Ret d
  end.

(** [LazyString.__repr__]; [repr] of a plain string is left to the caller. *)
Definition LazyString_repr (py_repr : string -> string) (self : LazyString)
  : string :=
  match ls_data self with
  | None => "<LazyString (None)>"
  | Some d =>
      if String.eqb d UNDEFINED then "<LazyString (undefined)>" else py_repr d
  end.

(** ** [string.Template]

    Python 2's [Template.pattern] with the default delimiter and
    identifier pattern, matched case-insensitively on byte strings:
    [$$] is an escape, [$name] and [${name}] are placeholders with
    [name] matching [[_a-z][_a-z0-9]*], any other [$] is ill-formed; the
    error for it gives the line and the column of that [$], counted as
    [Template._invalid] does with [splitlines]. *)

Definition ascii_in (lo hi : nat) (c : ascii) : bool :=
  (lo <=? nat_of_ascii c)%nat && (nat_of_ascii c <=? hi)%nat.

Definition is_id_start (c : ascii) : bool :=
  Ascii.eqb c "_" || ascii_in 97 122 c || ascii_in 65 90 c.

Definition is_id_char (c : ascii) : bool :=
  is_id_start c || ascii_in 48 57 c.

Inductive seg :=
| SLit (c : ascii)
| SEscaped
| SNamed (name : string)
| SInvalid (lineno colno : nat).

(** Where the next character stands: its line and column, from 1, and
    whether the character before it was a carriage return (a line feed
    then belongs to the same line break). *)
Record position := mkPosition {
  pos_line : nat;
  pos_col : nat;
  pos_cr : bool
}.

Definition start_position : position :=
  {| pos_line := 1; pos_col := 1; pos_cr := false |}.

(** The position after the character [c]: [str.splitlines] breaks a
    byte string after a line feed, a carriage return, or the two
    together. *)
Definition advance (p : position) (c : ascii) : position :=
  if Ascii.eqb c (ascii_of_nat 10) then
    {| pos_line := if pos_cr p then pos_line p else S (pos_line p);
       pos_col := 1; pos_cr := false |}
  else if Ascii.eqb c (ascii_of_nat 13) then
    {| pos_line := S (pos_line p); pos_col := 1; pos_cr := true |}
  else
    {| pos_line := pos_line p; pos_col := S (pos_col p); pos_cr := false |}.

(** The ill-formed [$] stands [back] characters before [p], on the same
    line. *)
Definition invalid_at (p : position) (back : nat) : seg :=
  SInvalid (pos_line p) (pos_col p - back).

(** Where the matcher stands: in plain text, just after a [$], inside a
    [$name], just after [${], or inside a [${name]. *)
Inductive mode :=
| MText
| MDollar
| MNamed (acc : string)
| MBraceOpen
| MBraced (acc : string).

(** The successive matches of the pattern, left to right.  Scanning stops at
    an ill-formed [$], where [substitute] raises. *)
Fixpoint pattern_scan (m : mode) (p : position) (s : string) : list seg :=
  match s with
  | EmptyString =>
      match m with
      | MText => []
      | MNamed acc => [SNamed acc]
      | MDollar => [invalid_at p 1]
      | MBraceOpen => [invalid_at p 2]
      | MBraced acc => [invalid_at p (2 + String.length acc)]
      end
  | String c rest =>
      let p' := advance p c in
      match m with
      | MText =>
          if Ascii.eqb c "$" then pattern_scan MDollar p' rest
          else SLit c :: pattern_scan MText p' rest
      | MDollar =>
          if Ascii.eqb c "$" then SEscaped :: pattern_scan MText p' rest
          else if is_id_start c
          then pattern_scan (MNamed (String c "")) p' rest
          else if Ascii.eqb c "{" then pattern_scan MBraceOpen p' rest
          else [invalid_at p 1]
      | MNamed acc =>
          if is_id_char c
          then pattern_scan (MNamed (acc +:+ String c "")) p' rest
          else SNamed acc ::
               (if Ascii.eqb c "$" then pattern_scan MDollar p' rest
                else SLit c :: pattern_scan MText p' rest)
      | MBraceOpen =>
          if is_id_start c
          then pattern_scan (MBraced (String c "")) p' rest
          else [invalid_at p 2]
      | MBraced acc =>
          if is_id_char c
          then pattern_scan (MBraced (acc +:+ String c "")) p' rest
          else if Ascii.eqb c "}" then SNamed acc :: pattern_scan MText p' rest
          else [invalid_at p (2 + String.length acc)]
      end
  end.

Definition Template (val : string) : list seg :=
  pattern_scan MText start_position val.

(** ['%d' % n]. *)
Definition format_d (n : nat) : string :=
  NilZero.string_of_uint (Nat.to_uint n).

Definition invalid_message (lineno colno : nat) : string :=
  "Invalid placeholder in string: line " +:+ format_d lineno
  +:+ ", col " +:+ format_d colno.

(** ['%s' % (val,)]: a plain string is itself, a lazy string goes through
    [__str__]. *)
Definition format_s (strs : list LazyString) (v : value) : outcome string :=
  match v with
  | VStr s => Ret s
  | VLazy r =>
      match strs !! r with
      | Some ls => LazyString_str ls
      | None => Raise ModelFault
      end
  end.

(** [Template.substitute(mapping)]: [pattern.sub(convert, template)]; the
    first match whose conversion raises ends the call. *)
Fixpoint substitute (strs : list LazyString) (mapping : gmap string value)
    (tpl : list seg) : outcome string :=
  match tpl with
  | [] => Ret ""
  | sg :: rest =>
      let piece :=
        match sg with
        | SLit c => Ret (String c "")
        | SEscaped => Ret "$"
        | SNamed x =>
            match mapping !! x with
            | None => Raise (KeyError x)
            | Some v => format_s strs v
            end
        | SInvalid lineno colno =>
            Raise (ValueError (invalid_message lineno colno))
        end in
      match piece with
      | Raise e => Raise e
      | Ret p =>
          match substitute strs mapping rest with
          | Raise e => Raise e
          | Ret r => Ret (p +:+ r)
          end
      end
  end.

(** ** Loaders *)

(** The module globals [expand] and [strict] (both [True] as shipped). *)
Record Config := mkConfig {
  expand : bool;
  strict : bool
}.

Definition shipped : Config := {| expand := true; strict := true |}.

(** [LazyTemplate]: the loader and the lazy string are references. *)
Record LazyTemplate := mkLazyTemplate {
  lt_loader : nat;
  lt_val : string;
  lt_data : option nat;
  lt_tries : Z
}.

(** A YAML node as the directives inspect it: a scalar with its text, a
    mapping with the texts of its key and value nodes, or a sequence. *)
Inductive node :=
| ScalarNode (value : string)
| MappingNode (value : list (string * string))
| SequenceNode.

(** The node graph of a document, as the composer hands it to the
    constructor, with the tags resolved:
    - [DStr]: a scalar with the tag [str], of ASCII text;
    - [DNull], [DScalar]: a scalar with another standard tag ([null];
      [int], [bool], [float], ...), which PyYAML's own constructor turns
      into an object at once;
    - [DSeq], [DMap]: a sequence or a mapping with the standard tag;
    - [DScript], [DInclude]: a node with the tag [!script] or [!include].
    A node occurs once (no alias refers to it twice), and there are no
    merge keys. *)
#[warnings="-register-all"] Inductive dnode :=
| DStr (val : string)
| DNull
| DScalar (type_name : string) (text : string)
| DSeq (items : list dnode)
| DMap (entries : list (dnode * dnode))
| DScript (val : string)
| DInclude (n : node).

(** A suspended generator object, as found in [state_generators]:
    - [GenStartScalar]: [LazyTemplate.start] suspended at [yield nval];
    - [GenStartLazy]: [LazyTemplate.start] suspended at [yield self.data];
    - [GenDefer]: a [LazyTemplate.defer] generator that has not run yet;
    - [GenFn]: the dummy generator [fn()] that [_scan] seeds into the
      root loader;
    - [GenYamlMap]: PyYAML's [construct_yaml_map] of the loader [loader],
      suspended at [yield data], with the entries of the node and the
      reference of the dict [data];
    - [GenYamlSeq]: [construct_yaml_seq], likewise, with the list. *)
Inductive generator :=
| GenStartScalar (t : LazyTemplate)
| GenStartLazy (t : LazyTemplate)
| GenDefer (t : LazyTemplate)
| GenFn
| GenYamlMap (loader : nat) (entries : list (dnode * dnode)) (d : nat)
| GenYamlSeq (loader : nat) (items : list dnode) (l : nat).

Record Loader := mkLoader {
  name : string;
  defaults : option (gmap string value);
  overrides : option (gmap string value);
  variables : option (gmap string value);
  root : option nat;
  state_generators : list generator
}.

(** [Loader.__init__(self, stream, defaults, overrides, root)]; the stream
    contributes its name. *)
Definition Loader_init (stream_name : string)
    (defaults overrides : option (gmap string value)) (root : option nat)
  : Loader :=
  {| name := stream_name; defaults := defaults; overrides := overrides;
     variables := None; root := root; state_generators := [] |}.

(** One interpolation attempt, recorded for counting: by [start] or by
    [defer], on which template, and whether it returned. *)
Inductive event :=
| EvStart (t : LazyTemplate) (ok : bool)
| EvDefer (t : LazyTemplate) (ok : bool).

(** The dict and list objects.  A dict is the list of its items in the
    order of their assignment: a later item replaces an earlier one with
    an equal key.  [aliases] tells which [Loader.variables] is which
    dict: [self.variables = data['variables']] stores the dict object
    itself, so what is put into that dict afterwards is seen through
    [self.variables]. *)
Record Heap := mkHeap {
  dicts : list (list (pyval * pyval));
  lists : list (list pyval);
  aliases : list (nat * nat)
}.

Definition empty_heap : Heap := {| dicts := []; lists := []; aliases := [] |}.

(** The store: loader objects, lazy string objects, the record of the
    interpolation attempts made so far (the record is not program state),
    and the dicts and lists. *)
Record State := mkState {
  loaders : list Loader;
  strings : list LazyString;
  attempts : list event;
  heap : Heap
}.

(** [ctx.update(d)] guarded by [d is not None]. *)
Definition update (ctx : gmap string value) (d : option (gmap string value))
  : gmap string value :=
  match d with
  | Some d => d ∪ ctx
  | None => ctx
  end.

(** [Loader.getContext]; [root_obj] is the object [self.root] refers to. *)
Definition getContext (self : Loader) (root_obj : option Loader)
    (overrides' : option (gmap string value)) : gmap string value :=
  let ctx := ∅ in
  let ctx := update ctx (defaults self) in
  let ctx := update ctx (variables self) in
  let ctx := update ctx (root_obj ≫= variables) in
  let ctx := update ctx (overrides self) in
  let ctx := update ctx overrides' in
  ctx.

(** Dereference [self.root]. *)
Definition root_object (st : State) (self : Loader) : outcome (option Loader) :=
  match root self with
  | None => Ret None
  | Some r =>
      match loaders st !! r with
      | Some rl => Ret (Some rl)
      | None => Raise ModelFault
      end
  end.

Definition error_string (key val : string) : string :=
  "Yaml variable substitution error: '" +:+ key
  +:+ "' could not be resolved in '" +:+ val +:+ "'.".

(** [Loader.interpolate]. *)
Definition interpolate (st : State) (self : Loader) (val : string)
    (overrides' : option (gmap string value)) : outcome string :=
  match root_object st self with
  | Raise e => Raise e
  | Ret root_obj =>
      let ctx := getContext self root_obj overrides' in
      let tpl := Template val in
      match substitute (strings st) ctx tpl with
      | Raise (KeyError k) => Raise (OnlTemplateError (error_string k val))
      | Raise e => Raise e
      | Ret nval => Ret nval
      end
  end.

(** [Loader.subLoader(overrides)] applied to a stream: the child loader.
    [self_ref] is the reference of [self]. *)
Definition subLoader (st : State) (self_ref : nat) (self : Loader)
    (overrides' : option (gmap string value)) (stream_name : string)
  : outcome Loader :=
  match root_object st self with
  | Raise e => Raise e
  | Ret root_obj =>
      let ctx := getContext self root_obj overrides' in
      let root' := match root self with Some r => r | None => self_ref end in
      Ret (Loader_init stream_name None (Some ctx) (Some root'))
  end.

(** [Loader.withVariables(variables, root)] applied to a stream. *)
Definition withVariables (variables : gmap string value) (root : option nat)
    (stream_name : string) : Loader :=
  Loader_init stream_name (Some variables) None root.

(** ** Store updates *)

(** [loader.state_generators.append(gen)]. *)
Definition append_generator (ref : nat) (gen : generator) (st : State)
  : outcome unit * State :=
  match loaders st !! ref with
  | None => (Raise ModelFault, st)
  | Some l =>
      let l' := {| name := name l; defaults := defaults l;
                   overrides := overrides l; variables := variables l;
                   root := root l;
                   state_generators := state_generators l ++ [gen] |} in
      (Ret tt, {| loaders := <[ref := l']> (loaders st);
                  strings := strings st; attempts := attempts st;
                  heap := heap st |})
  end.

(** [loader.state_generators = gens]. *)
Definition set_generators (ref : nat) (gens : list generator) (st : State)
  : State :=
  {| loaders :=
       alter (fun l => {| name := name l; defaults := defaults l;
                          overrides := overrides l; variables := variables l;
                          root := root l; state_generators := gens |})
             ref (loaders st);
     strings := strings st; attempts := attempts st; heap := heap st |}.

(** [loader.variables = vars]. *)
Definition set_variables (ref : nat) (vars : gmap string value) (st : State)
  : State :=
  {| loaders :=
       alter (fun l => {| name := name l; defaults := defaults l;
                          overrides := overrides l; variables := Some vars;
                          root := root l;
                          state_generators := state_generators l |})
             ref (loaders st);
     strings := strings st; attempts := attempts st; heap := heap st |}.

(** [lazy.data = s]. *)
Definition set_data (ref : nat) (s : string) (st : State)
  : outcome unit * State :=
  match strings st !! ref with
  | None => (Raise ModelFault, st)
  | Some ls =>
      (Ret tt,
       {| loaders := loaders st;
          strings := <[ref := {| ls_raw := ls_raw ls; ls_data := Some s |}]>
                       (strings st);
          attempts := attempts st; heap := heap st |})
  end.

(** Allocation of a new lazy string object; its reference is returned. *)
Definition new_string (ls : LazyString) (st : State) : nat * State :=
  (List.length (strings st),
   {| loaders := loaders st; strings := strings st ++ [ls];
      attempts := attempts st; heap := heap st |}).

Definition record (ev : event) (st : State) : State :=
  {| loaders := loaders st; strings := strings st;
     attempts := attempts st ++ [ev]; heap := heap st |}.

Definition is_Ret {A} (o : outcome A) : bool :=
  match o with Ret _ => true | Raise _ => false end.

(** ** [LazyTemplate] *)

(** [LazyTemplate(loader, val)] with the default [data=None, tries=5]. *)
Definition LazyTemplate_init (loader : nat) (val : string) : LazyTemplate :=
  {| lt_loader := loader; lt_val := val; lt_data := None; lt_tries := 5 |}.

Definition with_data (t : LazyTemplate) (ref : nat) : LazyTemplate :=
  {| lt_loader := lt_loader t; lt_val := lt_val t; lt_data := Some ref;
     lt_tries := lt_tries t |}.

Definition with_tries (t : LazyTemplate) (n : Z) : LazyTemplate :=
  {| lt_loader := lt_loader t; lt_val := lt_val t; lt_data := lt_data t;
     lt_tries := n |}.

(** [LazyTemplate.start], from the call of [next] to its first [yield]: the
    value yielded and the suspended generator.  Only [str] templates are
    modelled. *)
Definition start_next (t : LazyTemplate) (st : State)
  : outcome (value * generator) * State :=
  match lt_data t with
  | Some _ =>
      (Raise (ValueError "start() called on LazyTemplate with invalid data"),
       st)
  | None =>
      match loaders st !! lt_loader t with
      | None => (Raise ModelFault, st)
      | Some l =>
          let r := interpolate st l (lt_val t) None in
          let st := record (EvStart t (is_Ret r)) st in
          match r with
          | Ret nval => (Ret (VStr nval, GenStartScalar t), st)
          | Raise (OnlTemplateError _) =>
              let '(ref, st) := new_string (LazyString_new None) st in
              let t := with_data t ref in
              (Ret (VLazy ref, GenStartLazy t), st)
          | Raise e => (Raise e, st)
          end
      end
  end.

Definition exhausted_message (val loader_name : string) : string :=
  "cannot expand template '" +:+ val +:+ "' in " +:+ loader_name.

(** [self.data.data = s], where [self.data] may be [None]. *)
Definition assign (t : LazyTemplate) (s : string) (st : State)
  : outcome unit * State :=
  match lt_data t with
  | None =>
      (Raise (AttributeError "'NoneType' object has no attribute 'data'"), st)
  | Some ref => set_data ref s st
  end.

(** [self.data is not None and self.data.data is not None]. *)
Definition already_substituted (t : LazyTemplate) (st : State)
  : outcome bool :=
  match lt_data t with
  | None => Ret false
  | Some ref =>
      match strings st !! ref with
      | None => Raise ModelFault
      | Some ls => Ret (bool_decide (ls_data ls ≠ None))
      end
  end.

(** The body of [LazyTemplate.defer], run to its end. *)
Definition defer (cfg : Config) (t : LazyTemplate) (st : State)
  : outcome unit * State :=
  match loaders st !! lt_loader t with
  | None => (Raise ModelFault, st)
  | Some l =>
      if (lt_tries t <=? 0)%Z then
        if strict cfg
        then (Raise (OnlTemplateError (exhausted_message (lt_val t) (name l))),
              st)
        else assign t (lt_val t) st
      else
        match already_substituted t st with
        | Raise e => (Raise e, st)
        | Ret true => (Raise (NotImplementedError "already substituted"), st)
        | Ret false =>
            let r := interpolate st l (lt_val t) None in
            let st := record (EvDefer t (is_Ret r)) st in
            match r with
            | Ret nval => assign t nval st
            | Raise (OnlTemplateError _) =>
                let gen := GenDefer (with_tries t (lt_tries t - 1)) in
                match root l with
                | Some r => append_generator r gen st
                | None => append_generator (lt_loader t) gen st
                end
            | Raise e => (Raise e, st)
            end
        end
  end.

(** ** Dicts and lists *)

Definition with_heap (st : State) (h : Heap) : State :=
  {| loaders := loaders st; strings := strings st; attempts := attempts st;
     heap := h |}.

(** [{}] and [[]]: allocation of an empty dict or list. *)
Definition new_dict (st : State) : nat * State :=
  (List.length (dicts (heap st)),
   with_heap st {| dicts := dicts (heap st) ++ [[]]; lists := lists (heap st);
                   aliases := aliases (heap st) |}).

Definition new_list (st : State) : nat * State :=
  (List.length (lists (heap st)),
   with_heap st {| dicts := dicts (heap st); lists := lists (heap st) ++ [[]];
                   aliases := aliases (heap st) |}).

(** The content of a [str] or a [LazyString] as comparison and hashing see
    it; no content for another object. *)
Definition str_content (strs : list LazyString) (v : pyval) : option string :=
  match v with
  | PStr s => Some s
  | PLazy r => ls_raw <$> strs !! r
  | _ => None
  end.

(** [name == k] for the [str] [name]. *)
Definition str_equal (strs : list LazyString) (name : string) (k : pyval)
  : bool :=
  match str_content strs k with
  | Some s => String.eqb name s
  | None => false
  end.

(** [d[name]] for the [str] [name]: the value of the last item with an
    equal key. *)
Fixpoint dict_get (strs : list LazyString) (items : list (pyval * pyval))
    (name : string) : option pyval :=
  match items with
  | [] => None
  | (k, v) :: rest =>
      match dict_get strs rest name with
      | Some v' => Some v'
      | None => if str_equal strs name k then Some v else None
      end
  end.

(** A value as ['%s' % (val,)] reads it: a scalar other than a string
    through the text [str] makes of it.  The text of a dict or a list is
    not modelled. *)
Definition value_of (v : pyval) : option value :=
  match v with
  | PStr s => Some (VStr s)
  | PLazy r => Some (VLazy r)
  | PNone => Some (VStr "None")
  | PObj _ text => Some (VStr text)
  | PDict _ | PList _ => None
  end.

(** A dict as a table of names: what [ctx.update(d)] contributes to the
    lookups of [Template.substitute], which are by [str] names.  An item
    whose key is not a string is never found by a name. *)
Fixpoint table_into (strs : list LazyString) (tbl : gmap string value)
    (items : list (pyval * pyval)) : option (gmap string value) :=
  match items with
  | [] => Some tbl
  | (k, v) :: rest =>
      match str_content strs k with
      | None => table_into strs tbl rest
      | Some name =>
          match value_of v with
          | None => None
          | Some v' => table_into strs (<[name := v']> tbl) rest
          end
      end
  end.

Definition table_of (strs : list LazyString) (items : list (pyval * pyval))
  : option (gmap string value) :=
  table_into strs ∅ items.

(** The loaders whose [variables] is the dict [d] see what [d] holds
    now. *)
Fixpoint sync (d : nat) (als : list (nat * nat)) (st : State)
  : outcome unit * State :=
  match als with
  | [] => (Ret tt, st)
  | (lref, d') :: rest =>
      if Nat.eqb d' d then
        match dicts (heap st) !! d with
        | None => (Raise ModelFault, st)
        | Some items =>
            match table_of (strings st) items with
            | None =>
                (Raise (Unsupported "variables with a value that is a dict or a list"),
                 st)
            | Some tbl => sync d rest (set_variables lref tbl st)
            end
        end
      else sync d rest st
  end.

(** [data.update(value)] on the dict [d]. *)
Definition dict_update (d : nat) (value : list (pyval * pyval)) (st : State)
  : outcome unit * State :=
  match dicts (heap st) !! d with
  | None => (Raise ModelFault, st)
  | Some items =>
      let st :=
        with_heap st {| dicts := <[d := items ++ value]> (dicts (heap st));
                        lists := lists (heap st);
                        aliases := aliases (heap st) |} in
      sync d (aliases (heap st)) st
  end.

(** [data.extend(values)] on the list [l]. *)
Definition list_extend (l : nat) (values : list pyval) (st : State)
  : outcome unit * State :=
  match lists (heap st) !! l with
  | None => (Raise ModelFault, st)
  | Some items =>
      (Ret tt,
       with_heap st {| dicts := dicts (heap st);
                       lists := <[l := items ++ values]> (lists (heap st));
                       aliases := aliases (heap st) |})
  end.

(** ** [Loader.construct_document]: the local function [_scan] *)

Fixpoint starts_with (p s : string) : bool :=
  match p, s with
  | EmptyString, _ => true
  | String a p', String b s' => Ascii.eqb a b && starts_with p' s'
  | String _ _, EmptyString => false
  end.

(** [p in s] for two strings. *)
Fixpoint is_substring (p s : string) : bool :=
  starts_with p s ||
  match s with
  | EmptyString => false
  | String _ s' => is_substring p s'
  end.

(** ['variables' in data]: a substring test on a string, a test of the
    keys on a dict, of the elements on a list; an object that is not
    iterable raises. *)
Definition contains_variables (st : State) (data : pyval) : outcome bool :=
  match data with
  | PStr s => Ret (is_substring "variables" s)
  | PLazy r =>
      match strings st !! r with
      | Some ls => Ret (is_substring "variables" (ls_raw ls))
      | None => Raise ModelFault
      end
  | PDict d =>
      match dicts (heap st) !! d with
      | Some items =>
          Ret (bool_decide (dict_get (strings st) items "variables" <> None))
      | None => Raise ModelFault
      end
  | PList l =>
      match lists (heap st) !! l with
      | Some items => Ret (existsb (str_equal (strings st) "variables") items)
      | None => Raise ModelFault
      end
  | PNone => Raise (TypeError "argument of type 'NoneType' is not iterable")
  | PObj ty _ =>
      Raise (TypeError ("argument of type '" +:+ ty +:+ "' is not iterable"))
  end.

(** [data['variables']], once ['variables' in data] holds. *)
Definition getitem_variables (st : State) (data : pyval) : outcome pyval :=
  match data with
  | PStr _ | PLazy _ =>
      Raise (TypeError "string indices must be integers, not str")
  | PList _ => Raise (TypeError "list indices must be integers, not str")
  | PDict d =>
      match dicts (heap st) !! d with
      | Some items =>
          match dict_get (strings st) items "variables" with
          | Some v => Ret v
          | None => Raise (KeyError "variables")
          end
      | None => Raise ModelFault
      end
  | PNone | PObj _ _ => Raise (TypeError "object has no attribute '__getitem__'")
  end.

(** [self.variables = v]: for a dict, the table it holds now, together
    with the alias; [None] leaves [self.variables] at [None]. *)
Definition harvest (self_ref : nat) (v : pyval) (st : State)
  : outcome unit * State :=
  match v with
  | PDict d =>
      match dicts (heap st) !! d with
      | None => (Raise ModelFault, st)
      | Some items =>
          match table_of (strings st) items with
          | None =>
              (Raise (Unsupported "variables with a value that is a dict or a list"),
               st)
          | Some tbl =>
              let st := set_variables self_ref tbl st in
              (Ret tt,
               with_heap st {| dicts := dicts (heap st);
                               lists := lists (heap st);
                               aliases := aliases (heap st)
                                          ++ [(self_ref, d)] |})
          end
      end
  | PNone => (Ret tt, st)
  | _ => (Raise (Unsupported "variables that is not a mapping"), st)
  end.

(** The local function [_scan]; [data] is the object
    [self.construct_object(node)] returned. *)
Definition scan (self_ref : nat) (data : pyval) (st : State)
  : outcome unit * State :=
  match loaders st !! self_ref with
  | None => (Raise ModelFault, st)
  | Some self =>
      match root self with
      | None =>
          match variables self with
          | Some _ => (Ret tt, st)
          | None =>
              match contains_variables st data with
              | Raise e => (Raise e, st)
              | Ret false => (Ret tt, st)
              | Ret true =>
                  match getitem_variables st data with
                  | Raise e => (Raise e, st)
                  | Ret v => harvest self_ref v st
                  end
              end
          end
      | Some r =>
          match contains_variables st data with
          | Raise e => (Raise e, st)
          | Ret false => (Ret tt, st)
          | Ret true => append_generator r GenFn st
          end
      end
  end.

(** ** String operations inherited from [str] *)

(** The content a [str] method sees: for a lazy string, that of its [str]
    base object. *)
Definition raw_content (strs : list LazyString) (v : value) : outcome string :=
  match v with
  | VStr s => Ret s
  | VLazy r =>
      match strs !! r with
      | Some ls => Ret (ls_raw ls)
      | None => Raise ModelFault
      end
  end.

(** [isinstance(val, basestring)]: [LazyString] subclasses [str]. *)
Definition isinstance_basestring (v : value) : bool :=
  match v with
  | VStr _ => true
  | VLazy _ => true
  end.

Definition is_space (c : ascii) : bool :=
  ascii_in 9 13 c || Ascii.eqb c " ".

Definition is_empty (s : string) : bool :=
  match s with EmptyString => true | _ => false end.

Fixpoint split_from (word : string) (s : string) : list string :=
  match s with
  | EmptyString => if is_empty word then [] else [word]
  | String c rest =>
      if is_space c
      then (if is_empty word then split_from "" rest
            else word :: split_from "" rest)
      else split_from (word +:+ String c "") rest
  end.

(** [s.split()]: the maximal runs of non-whitespace characters. *)
Definition str_split (s : string) : list string := split_from "" s.

Fixpoint find_sep (sep : ascii) (s : string) : option (string * string) :=
  match s with
  | EmptyString => None
  | String c rest =>
      if Ascii.eqb c sep then Some ("", rest)
      else match find_sep sep rest with
           | Some (k, v) => Some (String c k, v)
           | None => None
           end
  end.

(** [s.partition(sep)] for a one-character separator. *)
Definition str_partition (sep : ascii) (s : string) : string * string * string :=
  match find_sep sep s with
  | Some (k, v) => (k, String sep "", v)
  | None => (s, "", "")
  end.

(** ** [os.path] (posixpath) *)

Definition isabs (p : string) : bool :=
  match p with
  | String c _ => Ascii.eqb c "/"
  | EmptyString => false
  end.

(** [p[:p.rfind('/') + 1]]. *)
Fixpoint dir_head (p : string) : string :=
  match p with
  | EmptyString => ""
  | String c rest =>
      let h := dir_head rest in
      if negb (is_empty h) then String c h
      else if Ascii.eqb c "/" then "/" else ""
  end.

Fixpoint all_slashes (p : string) : bool :=
  match p with
  | EmptyString => true
  | String c rest => Ascii.eqb c "/" && all_slashes rest
  end.

Fixpoint rstrip_slashes (p : string) : string :=
  match p with
  | EmptyString => ""
  | String c rest =>
      let r := rstrip_slashes rest in
      if is_empty r then (if Ascii.eqb c "/" then "" else String c "")
      else String c r
  end.

Definition dirname (p : string) : string :=
  let head := dir_head p in
  if negb (is_empty head) && negb (all_slashes head)
  then rstrip_slashes head else head.

Fixpoint ends_with_slash (p : string) : bool :=
  match p with
  | EmptyString => false
  | String c EmptyString => Ascii.eqb c "/"
  | String _ rest => ends_with_slash rest
  end.

Definition path_join (a b : string) : string :=
  if isabs b then b
  else if is_empty a || ends_with_slash a then a +:+ b
  else a +:+ "/" +:+ b.

(** ** Node constructors *)

(** [StringMixin.from_yaml]: a plain string when [expand] is off, else the
    generator [LazyTemplate(loader, val).start()], not started yet. *)
Inductive from_yaml_result :=
| Plain (val : string)
| Started (t : LazyTemplate).

Definition StringNode_from_yaml (cfg : Config) (loader : nat) (val : string)
  : from_yaml_result :=
  if expand cfg then Started (LazyTemplate_init loader val) else Plain val.

(** PyYAML's [construct_object] on a [str] scalar node outside a deep
    construction: a generator returned by the constructor is advanced once
    and appended to [state_generators]. *)
Definition construct_object (cfg : Config) (loader : nat) (val : string)
    (st : State) : outcome value * State :=
  match StringNode_from_yaml cfg loader val with
  | Plain s => (Ret (VStr s), st)
  | Started t =>
      match start_next t st with
      | (Raise e, st) => (Raise e, st)
      | (Ret (data, gen), st) =>
          match append_generator loader gen st with
          | (Raise e, st) => (Raise e, st)
          | (Ret _, st) => (Ret data, st)
          end
      end
  end.

(** [TemplateMixin.getString] on a scalar node: the generator is advanced
    once and dropped. *)
Definition getString (cfg : Config) (loader : nat) (val : string) (st : State)
  : outcome value * State :=
  match StringNode_from_yaml cfg loader val with
  | Plain s => (Ret (VStr s), st)
  | Started t =>
      match start_next t st with
      | (Raise e, st) => (Raise e, st)
      | (Ret (v, gen), st) =>
          if negb (isinstance_basestring v)
          then (Raise (OnlYamlError "Cannot invoke script, pending expansions"),
                st)   (* the message's formatting is left out *)
          else (Ret v, st)
      end
  end.

(** ** The [!script] and [!include] directives

    The file system is a map from path to content.  What the operating
    system and PyYAML do is left open: [mktemp] is the name
    [tempfile.NamedTemporaryFile] picks, [os_system] runs a shell command
    line and returns its status, [yaml_load] is [yaml.load] on an open
    stream with the loader the factory builds. *)

Section Directives.

Context {Data : Type}.
Variable mktemp : gmap string string -> string.
Variable os_system :
  string -> gmap string string -> Z * gmap string string.
Variable yaml_load :
  string -> string -> Loader -> State -> gmap string string ->
  outcome Data * State * gmap string string.

(** [ScriptNode.from_yaml] on a scalar node. *)
Definition ScriptNode_from_yaml (cfg : Config) (loader : nat) (val : string)
    (st : State) (files : gmap string string)
  : outcome Data * State * gmap string string :=
  match getString cfg loader val st with
  | (Raise e, st) => (Raise e, st, files)
  | (Ret v, st) =>
      let tf_name := mktemp files in
      let files := <[tf_name := ""]> files in
      let files := delete tf_name files in
      match format_s (strings st) v with
      | Raise e => (Raise e, st, files)
      | Ret cmd =>
          let '(status, files) :=
            os_system (cmd +:+ " > " +:+ tf_name) files in
          if negb (status =? 0)%Z
          then (Raise (OnlYamlError
                         ("Script execution '" +:+ cmd +:+ "' failed.")),
                st, files)
          else
            let '(r, st, files) :=
              match files !! tf_name with
              | None =>
                  (Raise (IOError "No such file or directory"), st, files)
              | Some content =>
                  match loaders st !! loader with
                  | None => (Raise ModelFault, st, files)
                  | Some self =>
                      match subLoader st loader self None tf_name with
                      | Raise e => (Raise e, st, files)
                      | Ret child => yaml_load tf_name content child st files
                      end
                  end
              end in
            match files !! tf_name with
            | None => (Raise (OSError "No such file or directory"), st, files)
            | Some _ => (r, st, delete tf_name files)
            end
      end
  end.

(** The [for opt in options] loop of [IncludeNode.from_yaml]. *)
Fixpoint include_options (variables : gmap string value)
    (options : list string) : outcome (gmap string value) :=
  match options with
  | [] => Ret variables
  | opt :: rest =>
      let '(k, s, v) := str_partition "=" opt in
      if negb (is_empty s)
      then include_options (<[k := VStr v]> variables) rest
      else Raise (OnlYamlError ("Bad include directive: " +:+ opt))
  end.

(** [IncludeNode.from_yaml] up to the call of [yaml.load]: the path
    opened, its content and the child loader. *)
Definition include_child (cfg : Config) (loader : nat) (n : node)
    (st : State) (files : gmap string string)
  : outcome (string * string * Loader) * State :=
  match n with
  | ScalarNode val =>
      match getString cfg loader val st with
      | (Raise e, st) => (Raise e, st)
      | (Ret v, st) =>
          match raw_content (strings st) v with
          | Raise e => (Raise e, st)
          | Ret directive =>
              match str_split directive with
              | [] => (Raise (IndexError "list index out of range"), st)
              | fname :: options =>
                  match include_options ∅ options with
                  | Raise e => (Raise e, st)
                  | Ret variables =>
                      match loaders st !! loader with
                      | None => (Raise ModelFault, st)
                      | Some self =>
                          let fname :=
                            if negb (isabs fname)
                            then path_join (dirname (name self)) fname
                            else fname in
                          match files !! fname with
                          | None =>
                              (Raise (OnlYamlError
                                 ("Include file '" +:+ fname +:+ "' (from "
                                  +:+ name self +:+ ") does not exist.")),
                               st)
                          | Some content =>
                              match subLoader st loader self
                                      (Some variables) fname with
                              | Raise e => (Raise e, st)
                              | Ret child => (Ret (fname, content, child), st)
                              end
                          end
                      end
                  end
              end
          end
      end
  | MappingNode [] =>
      (Raise (UnboundLocalError
                "local variable 'fname' referenced before assignment"), st)
  | MappingNode (_ :: _) =>
      (Raise (TypeError "getString() takes exactly 3 arguments (2 given)"),
       st)
  | SequenceNode =>
      (Raise (UnboundLocalError
                "local variable 'fname' referenced before assignment"), st)
  end.

Definition IncludeNode_from_yaml (cfg : Config) (loader : nat) (n : node)
    (st : State) (files : gmap string string)
  : outcome Data * State * gmap string string :=
  match include_child cfg loader n st files with
  | (Raise e, st) => (Raise e, st, files)
  | (Ret (fname, content, child), st) =>
      yaml_load fname content child st files
  end.

End Directives.

(** ** [Loader.construct_document] and the constructors of PyYAML

    [BaseConstructor.construct_object] outside a deep construction, on a
    node that is not yet constructed: the constructor of the node's tag is
    called; a generator it returns is advanced once and appended to
    [state_generators].  [construct_yaml_seq] and [construct_yaml_map]
    yield an empty list or dict first and fill it when they are resumed,
    constructing the nodes below then. *)

Section Documents.

Variable mktemp : gmap string string -> string.
Variable os_system :
  string -> gmap string string -> Z * gmap string string.
Variable yaml_load :
  string -> string -> Loader -> State -> gmap string string ->
  outcome pyval * State * gmap string string.

(** [self.construct_object(node)] for the loader [loader]. *)
Definition construct_node (cfg : Config) (loader : nat) (n : dnode)
    (st : State) (files : gmap string string)
  : outcome pyval * State * gmap string string :=
  match n with
  | DStr val =>
      match construct_object cfg loader val st with
      | (Raise e, st) => (Raise e, st, files)
      | (Ret v, st) => (Ret (pyval_of v), st, files)
      end
  | DNull => (Ret PNone, st, files)
  | DScalar ty text => (Ret (PObj ty text), st, files)
  | DSeq items =>
      let '(l, st) := new_list st in
      match append_generator loader (GenYamlSeq loader items l) st with
      | (Raise e, st) => (Raise e, st, files)
      | (Ret _, st) => (Ret (PList l), st, files)
      end
  | DMap entries =>
      let '(d, st) := new_dict st in
      match append_generator loader (GenYamlMap loader entries d) st with
      | (Raise e, st) => (Raise e, st, files)
      | (Ret _, st) => (Ret (PDict d), st, files)
      end
  | DScript val =>
      ScriptNode_from_yaml mktemp os_system yaml_load cfg loader val st files
  | DInclude n => IncludeNode_from_yaml yaml_load cfg loader n st files
  end.

(** [construct_sequence]: [[self.construct_object(child) for child in
    node.value]]. *)
Fixpoint construct_sequence (cfg : Config) (loader : nat)
    (items : list dnode) (st : State) (files : gmap string string)
  : outcome (list pyval) * State * gmap string string :=
  match items with
  | [] => (Ret [], st, files)
  | n :: rest =>
      match construct_node cfg loader n st files with
      | (Raise e, st, files) => (Raise e, st, files)
      | (Ret v, st, files) =>
          match construct_sequence cfg loader rest st files with
          | (Raise e, st, files) => (Raise e, st, files)
          | (Ret vs, st, files) => (Ret (v :: vs), st, files)
          end
      end
  end.

(** [hash(key)] succeeds. *)
Definition hashable (v : pyval) : bool :=
  match v with
  | PDict _ | PList _ => false
  | _ => true
  end.

Definition unhashable_message (v : pyval) : string :=
  match v with
  | PDict _ => "found unacceptable key (unhashable type: 'dict')"
  | _ => "found unacceptable key (unhashable type: 'list')"
  end.

(** [construct_mapping]: the items in the order of the node; the key is
    constructed and hashed before the value is constructed. *)
Fixpoint construct_mapping (cfg : Config) (loader : nat)
    (entries : list (dnode * dnode)) (st : State)
    (files : gmap string string)
  : outcome (list (pyval * pyval)) * State * gmap string string :=
  match entries with
  | [] => (Ret [], st, files)
  | (key_node, value_node) :: rest =>
      match construct_node cfg loader key_node st files with
      | (Raise e, st, files) => (Raise e, st, files)
      | (Ret key, st, files) =>
          if negb (hashable key)
          then (Raise (ConstructorError (unhashable_message key)), st, files)
          else
            match construct_node cfg loader value_node st files with
            | (Raise e, st, files) => (Raise e, st, files)
            | (Ret value, st, files) =>
                match construct_mapping cfg loader rest st files with
                | (Raise e, st, files) => (Raise e, st, files)
                | (Ret items, st, files) =>
                    (Ret ((key, value) :: items), st, files)
                end
            end
      end
  end.

(** A suspended generator resumed until it is exhausted
    ([for dummy in generator: pass]). *)
Definition run_generator (cfg : Config) (gen : generator) (st : State)
    (files : gmap string string)
  : outcome unit * State * gmap string string :=
  match gen with
  | GenStartScalar _ => (Ret tt, st, files)
  | GenStartLazy t =>
      let '(r, st) := append_generator (lt_loader t) (GenDefer t) st in
      (r, st, files)
  | GenDefer t => let '(r, st) := defer cfg t st in (r, st, files)
  | GenFn => (Ret tt, st, files)
  | GenYamlMap loader entries d =>
      match construct_mapping cfg loader entries st files with
      | (Raise e, st, files) => (Raise e, st, files)
      | (Ret value, st, files) =>
          let '(r, st) := dict_update d value st in (r, st, files)
      end
  | GenYamlSeq loader items l =>
      match construct_sequence cfg loader items st files with
      | (Raise e, st, files) => (Raise e, st, files)
      | (Ret values, st, files) =>
          let '(r, st) := list_extend l values st in (r, st, files)
      end
  end.

(** The [for generator in state_generators] loop of one pass. *)
Fixpoint run_generators (cfg : Config) (self_ref : nat) (data : pyval)
    (gens : list generator) (st : State) (files : gmap string string)
  : outcome unit * State * gmap string string :=
  match gens with
  | [] => (Ret tt, st, files)
  | gen :: rest =>
      match run_generator cfg gen st files with
      | (Raise e, st, files) => (Raise e, st, files)
      | (Ret _, st, files) =>
          match scan self_ref data st with
          | (Raise e, st) => (Raise e, st, files)
          | (Ret _, st) => run_generators cfg self_ref data rest st files
          end
      end
  end.

(** The [while self.state_generators] loop; [None] when [fuel] passes did
    not empty the list. *)
Fixpoint drain (cfg : Config) (fuel : nat) (self_ref : nat) (data : pyval)
    (st : State) (files : gmap string string)
  : option (outcome unit) * State * gmap string string :=
  match loaders st !! self_ref with
  | None => (Some (Raise ModelFault), st, files)
  | Some self =>
      match state_generators self with
      | [] => (Some (Ret tt), st, files)
      | gens =>
          match fuel with
          | O => (None, st, files)
          | S fuel =>
              let st := set_generators self_ref [] st in
              match run_generators cfg self_ref data gens st files with
              | (Raise e, st, files) => (Some (Raise e), st, files)
              | (Ret _, st, files) => drain cfg fuel self_ref data st files
              end
          end
      end
  end.

(** [Loader.construct_document(node)]: the object returned, or [None]
    when [fuel] passes did not end the loop. *)
Definition construct_document (cfg : Config) (fuel : nat) (self_ref : nat)
    (n : dnode) (st : State) (files : gmap string string)
  : option (outcome pyval) * State * gmap string string :=
  match construct_node cfg self_ref n st files with
  | (Raise e, st, files) => (Some (Raise e), st, files)
  | (Ret data, st, files) =>
      match drain cfg fuel self_ref data st files with
      | (Some (Ret _), st, files) => (Some (Ret data), st, files)
      | (Some (Raise e), st, files) => (Some (Raise e), st, files)
      | (None, st, files) => (None, st, files)
      end
  end.

End Documents.


(** * Specification-side definitions *)

(** ** Name resolution order *)

(** The first table, in the order given, that binds [x]. *)
Fixpoint first_bound (tables : list (option (gmap string value))) (x : string)
  : option value :=
  match tables with
  | [] => None
  | t :: rest =>
      match t ≫= (fun m => m !! x) with
      | Some v => Some v
      | None => first_bound rest x
      end
  end.

(** The resolution order in the words of the specification: call-site
    override, then the locally accumulated document variables, then the
    document variables of the parent chain, then the inherited defaults. *)
Definition spec_resolve
    (callsite local parent inherited : option (gmap string value))
    (x : string) : option value :=
  first_bound [callsite; local; parent; inherited] x.

(** ** Outcomes of one interpolation *)

(** [s] is the template with every match replaced: no ill-formed [$], and
    every placeholder bound to a value that could be read. *)
Inductive full_substitution (strs : list LazyString)
    (ctx : gmap string value) : list seg -> string -> Prop :=
| full_nil : full_substitution strs ctx [] ""
| full_lit c tpl s :
    full_substitution strs ctx tpl s ->
    full_substitution strs ctx (SLit c :: tpl) (String c s)
| full_escaped tpl s :
    full_substitution strs ctx tpl s ->
    full_substitution strs ctx (SEscaped :: tpl) (String "$" s)
| full_named x v p tpl s :
    ctx !! x = Some v ->
    format_s strs v = Ret p ->
    full_substitution strs ctx tpl s ->
    full_substitution strs ctx (SNamed x :: tpl) (p +:+ s).

(** [k] is the first placeholder of the template that the context does not
    bind: everything before it is text, an escape or a bound placeholder. *)
Definition first_unresolved (ctx : gmap string value) (tpl : list seg)
    (k : string) : Prop :=
  exists pre post,
    tpl = pre ++ SNamed k :: post /\
    ctx !! k = None /\
    (forall lineno colno, SInvalid lineno colno ∉ pre) /\
    forall y, SNamed y ∈ pre -> is_Some (ctx !! y).

(** A match that substitution gets past: text, an escape, or a placeholder
    bound to a value that can be read. *)
Definition readable (strs : list LazyString) (ctx : gmap string value)
    (sg : seg) : Prop :=
  match sg with
  | SLit _ | SEscaped => True
  | SNamed y => exists v p, ctx !! y = Some v /\ format_s strs v = Ret p
  | SInvalid _ _ => False
  end.

(** Substitution gets as far as the match [sg]: every match before it is
    readable. *)
Definition stops_at (strs : list LazyString) (ctx : gmap string value)
    (tpl : list seg) (sg : seg) : Prop :=
  exists pre post, tpl = pre ++ sg :: post /\ Forall (readable strs ctx) pre.

(** A lazy string that [__str__] refuses to read. *)
Definition uninitialized (ls : LazyString) : Prop :=
  ls_data ls = None \/ ls_data ls = Some UNDEFINED.

(** Whatever the lazy strings hold, substitution under [ctx] ends at a
    placeholder that [ctx] does not bind: the placeholders before it are
    bound to plain strings. *)
Fixpoint unresolved (ctx : gmap string value) (tpl : list seg) : bool :=
  match tpl with
  | [] => false
  | SLit _ :: rest | SEscaped :: rest => unresolved ctx rest
  | SNamed x :: rest =>
      match ctx !! x with
      | None => true
      | Some (VStr _) => unresolved ctx rest
      | Some (VLazy _) => false
      end
  | SInvalid _ _ :: _ => false
  end.

(** ** Concrete documents *)

(** A root document [root.yml] with [variables: {x: root}] that includes
    [child.yml], itself with [variables: {x: local}] and a scalar [$x]. *)
Module Shadowing.

Definition root_vars : gmap string value := {[ "x" := VStr "root" ]}.
Definition child_vars : gmap string value := {[ "x" := VStr "local" ]}.

Definition root_loader : Loader := withVariables ∅ None "root.yml".

Definition st0 : State :=
  {| loaders := [root_loader]; strings := []; attempts := [];
     heap := empty_heap |}.

(** The child loader of the include, made while the root document is
    being built. *)
Definition child_loader : Loader :=
  match subLoader st0 0 root_loader (Some ∅) "child.yml" with
  | Ret child => child
  | Raise _ => root_loader
  end.

(** The dicts of the two documents, filled: the child's top-level
    mapping and its [variables], the root's top-level mapping and its
    [variables]. *)
Definition documents : Heap :=
  {| dicts := [[(PStr "variables", PDict 1)];
               [(PStr "x", PStr "local")];
               [(PStr "variables", PDict 3)];
               [(PStr "x", PStr "root")]];
     lists := []; aliases := [] |}.

Definition st1 : State :=
  {| loaders := [root_loader; child_loader]; strings := []; attempts := [];
     heap := documents |}.

(** [_scan] in the child on its own top-level mapping, then [_scan] in the
    root on the root's. *)
Definition st2 : State := snd (scan 1 (PDict 0) st1).
Definition st3 : State := snd (scan 0 (PDict 2) st2).

End Shadowing.

(** A loader without any binding, holding the only document. *)
Module Single.

Definition loader : Loader := withVariables ∅ None "doc.yml".

Definition st0 : State :=
  {| loaders := [loader]; strings := []; attempts := [];
     heap := empty_heap |}.

End Single.

(** ** Identifiers *)

(** [name] matches the identifier pattern of [string.Template] as a
    whole. *)
Fixpoint all_id_chars (s : string) : bool :=
  match s with
  | EmptyString => true
  | String c rest => is_id_char c && all_id_chars rest
  end.

Definition is_identifier (name : string) : bool :=
  match name with
  | EmptyString => false
  | String c rest => is_id_start c && all_id_chars rest
  end.

(** The text of an include option before its first [=]. *)
Definition option_key (opt : string) : string :=
  fst (fst (str_partition "=" opt)).

(** ** A small shell

    A command line [cmd > target] as a POSIX shell runs it: the
    redirection creates or truncates [target] before the command runs,
    whatever the command then does; [os.system] returns the wait status
    (the exit code shifted left by 8 bits).  Three commands are known. *)
Module Posix.

Definition unwords (ws : list string) : string :=
  match ws with
  | [] => ""
  | w :: ws => fold_left (fun acc w' => acc +:+ " " +:+ w') ws w
  end.

Definition newline : string := String (ascii_of_nat 10) "".

Definition os_system (cmdline : string) (files : gmap string string)
  : Z * gmap string string :=
  match rev (str_split cmdline) with
  | target :: ">" :: rcmd =>
      let files := <[target := ""]> files in
      match rev rcmd with
      | ["true"] => (0, files)
      | ["false"] => (256, files)
      | "echo" :: args => (0, <[target := unwords args +:+ newline]> files)
      | _ => (32512, files)
      end
  | _ => (32512, files)
  end.

Definition mktemp (files : gmap string string) : string := "/tmp/tmpAAAAAA".

(** [yaml.load] seen only through the text it is given. *)
Definition yaml_load (stream_name content : string) (child : Loader)
    (st : State) (files : gmap string string)
  : outcome string * State * gmap string string :=
  (Ret content, st, files).

End Posix.

(** A document [/etc/onl/root.yml] that includes [child.yml] with the
    inline assignment [key=value]; the included document binds [key]
    itself and uses [$key]. *)
Module Including.

Definition loader : Loader := withVariables ∅ None "/etc/onl/root.yml".

Definition st0 : State :=
  {| loaders := [loader]; strings := []; attempts := [];
     heap := empty_heap |}.

Definition files : gmap string string :=
  {[ "/etc/onl/child.yml" := "variables: {key: inner}, a: $key" ]}.

Definition directive : string := "child.yml key=value".

(** The child loader the directive makes. *)
Definition child : Loader :=
  match include_child shipped 0 (ScalarNode directive) st0 files with
  | (Ret (_, _, child), _) => child
  | (Raise _, _) => loader
  end.

(** The root's own document binds [key] too. *)
Definition root_vars : gmap string value := {[ "key" := VStr "outer" ]}.

Definition st1 : State :=
  snd (scan 0 (PDict 0)
         {| loaders := [loader; child]; strings := []; attempts := [];
            heap := {| dicts := [[(PStr "variables", PDict 1)];
                                 [(PStr "key", PStr "outer")]];
                       lists := []; aliases := [] |} |}).

(** The root loader once [_scan] has taken up its document variables. *)
Definition root_after : Loader :=
  match loaders st1 !! 0%nat with
  | Some l => l
  | None => loader
  end.

End Including.

(** ** Templates as texts *)

(** Whether [$] occurs in a string. *)
Fixpoint has_dollar (s : string) : bool :=
  match s with
  | EmptyString => false
  | String c rest => Ascii.eqb c "$" || has_dollar rest
  end.

(** A string with every [$] doubled. *)
Fixpoint escape (s : string) : string :=
  match s with
  | EmptyString => ""
  | String c rest =>
      if Ascii.eqb c "$" then String "$" (String "$" (escape rest))
      else String c (escape rest)
  end.

(** The names of the placeholders of a template, in order. *)
Fixpoint template_names (tpl : list seg) : list string :=
  match tpl with
  | [] => []
  | SNamed x :: rest => x :: template_names rest
  | _ :: rest => template_names rest
  end.

(** ** Loader objects in the store *)

(** Allocation of a new loader object ([yaml.load] calling the factory on
    the stream); its reference is returned. *)
Definition new_loader (l : Loader) (st : State) : nat * State :=
  (List.length (loaders st),
   {| loaders := loaders st ++ [l]; strings := strings st;
      attempts := attempts st; heap := heap st |}).

(** Every [root] attribute refers to a loader that has no root itself. *)
Definition rooted (st : State) : Prop :=
  forall i l r,
    loaders st !! i = Some l -> root l = Some r ->
    exists rl, loaders st !! r = Some rl /\ root rl = None.

(** ** Include options as texts *)

(** Whether the character [c] occurs in [s]. *)
Fixpoint contains (c : ascii) (s : string) : bool :=
  match s with
  | EmptyString => false
  | String a rest => Ascii.eqb a c || contains c rest
  end.

(** The text of an include option after its first [=]. *)
Definition option_value (opt : string) : string :=
  snd (str_partition "=" opt).

(** The value of the last option of the list that is for [key]. *)
Fixpoint last_option (key : string) (options : list string) : option string :=
  match options with
  | [] => None
  | opt :: rest =>
      match last_option key rest with
      | Some v => Some v
      | None =>
          if String.eqb (option_key opt) key then Some (option_value opt)
          else None
      end
  end.

(** Whether a string is made of whitespace only. *)
Fixpoint all_space (s : string) : bool :=
  match s with
  | EmptyString => true
  | String c rest => is_space c && all_space rest
  end.

(** * The entry point

    [loadf], translated from the source like the definitions of the first
    part. *)

(** ** [loadf]

    The process environment is a map from names to byte strings ([str]
    objects, as [os.environ] holds them for the variables the process
    inherits).  On a [str], [encode('ascii')] first decodes the bytes
    with the default codec: a byte above 127 makes it raise
    [UnicodeDecodeError], a subclass of [ValueError] that the handler for
    [UnicodeEncodeError] does not catch; otherwise it returns the string.
    [abspath] is [os.path.abspath], which depends on the working
    directory. *)

Fixpoint is_ascii (s : string) : bool :=
  match s with
  | EmptyString => true
  | String c rest => (nat_of_ascii c <? 128)%nat && is_ascii rest
  end.

(** The table [variables] that [loadf] builds. *)
Definition loadf_variables (abspath : string -> string)
    (environ : gmap string string) (fname : string)
    (vard : gmap string value) : outcome (gmap string value) :=
  if forallb is_ascii (snd <$> map_to_list environ)
  then
    let variables := VStr <$> environ in
    let variables :=
      <["__DIR__" := VStr (dirname (abspath fname))]> variables in
    Ret (update variables (Some vard))
  else Raise (ValueError "'ascii' codec can't decode byte").

Section Loading.

Context {Data : Type}.
Variable abspath : string -> string.
Variable yaml_load :
  string -> string -> Loader -> State -> gmap string string ->
  outcome Data * State * gmap string string.

Definition loadf (environ : gmap string string) (fname : string)
    (vard : gmap string value) (st : State) (files : gmap string string)
  : outcome Data * State * gmap string string :=
  match loadf_variables abspath environ fname vard with
  | Raise e => (Raise e, st, files)
  | Ret variables =>
      match files !! fname with
      | None => (Raise (IOError "No such file or directory"), st, files)
      | Some content =>
          yaml_load fname content (withVariables variables None fname)
                    st files
      end
  end.

End Loading.

(** A working directory and an environment to load from. *)
Module Environment.

Definition abspath (p : string) : string :=
  if isabs p then p else path_join "/etc/onl" p.

Definition environ : gmap string string :=
  {[ "HOME" := "/root"; "__DIR__" := "/nowhere"; "ARCH" := "amd64" ]}.

Definition vard : gmap string value := {[ "ARCH" := VStr "arm64" ]}.

Definition variables : gmap string value :=
  match loadf_variables abspath environ "root.yml" vard with
  | Ret variables => variables
  | Raise _ => ∅
  end.

(** An environment with a value that is not ASCII (0xE9). *)
Definition latin1 : gmap string string :=
  {[ "HOME" := "/root"; "LC_NAME" := String (ascii_of_nat 233) "" ]}.

End Environment.

(** * Definitions for the statements about the drain *)

(** ** Loaders and queues during the drain *)

(** A loader with its [state_generators] replaced. *)
Definition with_generators (l : Loader) (gens : list generator) : Loader :=
  {| name := name l; defaults := defaults l; overrides := overrides l;
     variables := variables l; root := root l; state_generators := gens |}.

(** A loader once [self.variables = data['variables']] has run. *)
Definition harvested (vars : gmap string value) (l : Loader) : Loader :=
  {| name := name l; defaults := defaults l; overrides := overrides l;
     variables := Some vars; root := root l;
     state_generators := state_generators l |}.

(** The queue of the loader at [ref]. *)
Definition queue_at (st : State) (ref : nat) : list generator :=
  from_option state_generators [] (loaders st !! ref).

(** ** Documents without directives *)

(** A node below which there is no [!script] and no [!include]. *)
Fixpoint plain (n : dnode) : bool :=
  match n with
  | DStr _ | DNull | DScalar _ _ => true
  | DSeq items => forallb plain items
  | DMap entries =>
      forallb (fun kv => plain (fst kv) && plain (snd kv)) entries
  | DScript _ | DInclude _ => false
  end.

Definition plain_generator (g : generator) : bool :=
  match g with
  | GenYamlMap _ entries _ => plain (DMap entries)
  | GenYamlSeq _ items _ => plain (DSeq items)
  | _ => true
  end.

(** The string scalars of a node: each is one template. *)
Fixpoint scalars (n : dnode) : nat :=
  match n with
  | DStr _ => 1%nat
  | DNull | DScalar _ _ | DScript _ | DInclude _ => 0%nat
  | DSeq items => list_sum (map scalars items)
  | DMap entries =>
      list_sum (map (fun kv => (scalars (fst kv) + scalars (snd kv))%nat)
                    entries)
  end.

(** ** Measures of a queue *)

(** The attempts the templates of a node can make: one by [start] and
    five by [defer] for each string scalar. *)
Definition node_budget (n : dnode) : nat := (6 * scalars n)%nat.

(** The attempts a queued generator can still lead to: [tries] for a
    template that is waiting, none for a finished [start] or a dummy
    generator, those of the nodes it will construct for a container. *)
Definition generator_budget (g : generator) : nat :=
  match g with
  | GenStartLazy t | GenDefer t => Z.to_nat (lt_tries t)
  | GenStartScalar _ | GenFn => 0%nat
  | GenYamlMap _ entries _ => node_budget (DMap entries)
  | GenYamlSeq _ items _ => node_budget (DSeq items)
  end.

Definition queue_budget (gens : list generator) : nat :=
  list_sum (map generator_budget gens).

(** A bound on the passes in which the generators that come of a node
    take part: seven for a string scalar (its [start], suspended, and
    [defer] with [tries] from 5 down to 0), one more than its nodes
    together for a container. *)
Fixpoint node_weight (n : dnode) : nat :=
  match n with
  | DStr _ => 7%nat
  | DNull | DScalar _ _ | DScript _ | DInclude _ => 0%nat
  | DSeq items => S (list_sum (map node_weight items))
  | DMap entries =>
      S (list_sum (map (fun kv =>
                          (node_weight (fst kv) + node_weight (snd kv))%nat)
                       entries))
  end.

Definition generator_weight (g : generator) : nat :=
  match g with
  | GenStartLazy t => (2 + Z.to_nat (lt_tries t))%nat
  | GenDefer t => (1 + Z.to_nat (lt_tries t))%nat
  | GenStartScalar _ | GenFn => 1%nat
  | GenYamlMap _ entries _ => node_weight (DMap entries)
  | GenYamlSeq _ items _ => node_weight (DSeq items)
  end.

Definition queue_weight (gens : list generator) : nat :=
  list_sum (map generator_weight gens).

(** The failed retries of a template, from [tries] down: [n] of them. *)
Fixpoint failed_retries (t : LazyTemplate) (n : nat) : list event :=
  match n with
  | O => []
  | S n' => EvDefer t false :: failed_retries (with_tries t (lt_tries t - 1)) n'
  end.

(** ** The frame of a drain *)

(** What the loader at [ref], constructing and draining, may change
    between two stores: lazy strings stay strings with the same raw
    content, attempts are only added, loaders keep their identity and
    their scope but for the document variables of the loader at [ref],
    when it has no root, and of the loaders that hold a dict as their
    [variables]; dicts and lists only grow. *)
Definition drain_frame (ref : nat) (st st' : State) : Prop :=
  (forall c ls, strings st !! c = Some ls ->
     exists ls', strings st' !! c = Some ls' /\ ls_raw ls' = ls_raw ls) /\
  (exists evs, attempts st' = attempts st ++ evs) /\
  List.length (loaders st') = List.length (loaders st) /\
  (forall i l,
     loaders st !! i = Some l ->
     exists l',
       loaders st' !! i = Some l' /\
       name l' = name l /\ defaults l' = defaults l /\
       overrides l' = overrides l /\ root l' = root l /\
       (variables l' = variables l \/
        (i = ref /\ root l = None) \/
        exists d, (i, d) ∈ aliases (heap st))) /\
  (forall i d, (i, d) ∈ aliases (heap st') ->
     (i, d) ∈ aliases (heap st) \/
     (i = ref /\ exists l, loaders st !! i = Some l /\ root l = None)) /\
  (forall d items, dicts (heap st) !! d = Some items ->
     exists more, dicts (heap st') !! d = Some (items ++ more)) /\
  (forall l items, lists (heap st) !! l = Some items ->
     exists more, lists (heap st') !! l = Some (items ++ more)).

(** A [yaml.load] for documents without directives, in which it is never
    called. *)
Definition no_load (stream_name content : string) (child : Loader)
    (st : State) (files : gmap string string)
  : outcome pyval * State * gmap string string :=
  (Raise (Unsupported "yaml.load"), st, files).

(** ** What an operation does to the store *)

(** An operation of the loader at [ref] that takes the store [st] to
    [st'] within the allowances [w] and [b]: it stays within the frame,
    keeps the values given to lazy strings when [strict] is on, queues
    only generators of documents without directives, adds at most [w] to
    the weight of the queue at [ref] when that loader is not its own
    root, and adds at most [b] to the attempts made and left. *)
Definition effect (cfg : Config) (ref : nat) (w b : nat) (st st' : State)
  : Prop :=
  drain_frame ref st st' /\
  (strict cfg = true ->
   forall c ls, strings st !! c = Some ls -> ls_data ls <> None ->
                strings st' !! c = Some ls) /\
  (Forall (fun g => plain_generator g = true) (queue_at st ref) ->
   Forall (fun g => plain_generator g = true) (queue_at st' ref)) /\
  ((forall self, loaders st !! ref = Some self -> root self <> Some ref) ->
   (queue_weight (queue_at st' ref) <= queue_weight (queue_at st ref) + w)%nat) /\
  (List.length (attempts st') + queue_budget (queue_at st' ref) <=
   List.length (attempts st) + queue_budget (queue_at st ref) + b)%nat.

(** ** Attempts and concrete documents *)

(** Whether a recorded attempt returned a string. *)
Definition succeeded (ev : event) : bool :=
  match ev with
  | EvStart _ ok | EvDefer _ ok => ok
  end.

(** Documents, each loaded as [doc.yml] by a loader without bindings. *)
Module Documents.

Definition lenient : Config := {| expand := true; strict := false |}.

(** The document [$x]. *)
Definition unbound : dnode := DStr "$x".

(** The document [[$x, $y]]. *)
Definition pair : dnode := DSeq [DStr "$x"; DStr "$y"].

(** The document [{a: $x/lib, variables: {x: /usr}}]. *)
Definition forward : dnode :=
  DMap [(DStr "a", DStr "$x/lib");
        (DStr "variables", DMap [(DStr "x", DStr "/usr")])].

(** The document ['$ $nope']. *)
Definition ill_formed : dnode := DStr "$ $nope".

(** The document [{variables: {x: local}, a: $y}]. *)
Definition local : dnode :=
  DMap [(DStr "variables", DMap [(DStr "x", DStr "local")]);
        (DStr "a", DStr "$y")].

Definition load (cfg : Config) (fuel : nat) (n : dnode)
  : option (outcome pyval) * State * gmap string string :=
  construct_document Posix.mktemp Posix.os_system no_load cfg fuel 0 n
    Single.st0 ∅.

(** The store once [forward] is loaded. *)
Definition loaded : State := snd (fst (load shipped 3 forward)).

End Documents.

(** * Properties *)

(** ** Name resolution order *)

Lemma lookup_update (ctx : gmap string value) d x :
  update ctx d !! x =
  match d ≫= (fun m => m !! x) with
  | Some v => Some v
  | None => ctx !! x
  end.
Proof.
  destruct d as [d|]; simpl; [|done].
  rewrite lookup_union. by destruct (d !! x), (ctx !! x).
Qed.

(** C1 (as the code has it): a lookup in the context of [getContext]
    returns the binding of the first of: the call-site overrides, the
    loader's own overrides, the root loader's document variables, the
    loader's own document variables, the loader's defaults. *)
Theorem getContext_precedence (self : Loader) (root_obj : option Loader)
    (overrides' : option (gmap string value)) (x : string) :
  getContext self root_obj overrides' !! x =
  first_bound [overrides'; overrides self; root_obj ≫= variables;
               variables self; defaults self] x.
Proof.
  unfold getContext. rewrite !lookup_update, lookup_empty. simpl.
  repeat case_match; congruence.
Qed.

(** ** One interpolation call *)

Lemma stops_at_here strs ctx sg tpl : stops_at strs ctx (sg :: tpl) sg.
Proof. exists [], tpl. split; [done|constructor]. Qed.

Lemma stops_at_cons strs ctx sg tpl sg' :
  readable strs ctx sg -> stops_at strs ctx tpl sg' ->
  stops_at strs ctx (sg :: tpl) sg'.
Proof.
  intros Hsg (pre & post & -> & Hpre). exists (sg :: pre), post.
  split; [done|by constructor].
Qed.

Lemma first_unresolved_cons ctx sg tpl k :
  match sg with
  | SLit _ | SEscaped => True
  | SNamed y => is_Some (ctx !! y)
  | SInvalid _ _ => False
  end ->
  first_unresolved ctx tpl k -> first_unresolved ctx (sg :: tpl) k.
Proof.
  intros Hsg (pre & post & -> & Hk & Hinv & Hpre).
  exists (sg :: pre), post. split_and!; [done|done| |].
  - intros l c [?|?]%elem_of_cons; [by subst|by eapply Hinv].
  - intros y [?|?]%elem_of_cons; [by subst|auto].
Qed.

Lemma format_s_raise strs v e :
  format_s strs v = Raise e ->
  exists r, v = VLazy r /\
    ((e = ModelFault /\ strs !! r = None) \/
     (e = ValueError "lazy string is not initialized" /\
      exists ls, strs !! r = Some ls /\ uninitialized ls)).
Proof.
  destruct v as [s|r]; [done|]. cbn [format_s]. intros H. exists r.
  split; [done|]. destruct (strs !! r) as [ls|]; [|left; by simplify_eq].
  right. unfold LazyString_str in H. unfold uninitialized.
  destruct (ls_data ls) as [d|] eqn:Hd.
  - destruct (String.eqb_spec d UNDEFINED) as [->|]; [|done].
    simplify_eq. eauto.
  - simplify_eq. eauto.
Qed.

(** What [substitute] returns or raises, and where it stops. *)
Lemma substitute_outcome strs ctx tpl :
  match substitute strs ctx tpl with
  | Ret s => full_substitution strs ctx tpl s
  | Raise (KeyError k) =>
      first_unresolved ctx tpl k /\
      stops_at strs ctx tpl (SNamed k) /\ ctx !! k = None
  | Raise (ValueError msg) =>
      (exists lineno colno,
         msg = invalid_message lineno colno /\
         stops_at strs ctx tpl (SInvalid lineno colno)) \/
      (exists x r ls,
         msg = "lazy string is not initialized" /\
         stops_at strs ctx tpl (SNamed x) /\
         ctx !! x = Some (VLazy r) /\ strs !! r = Some ls /\
         uninitialized ls)
  | Raise ModelFault =>
      exists x r,
        stops_at strs ctx tpl (SNamed x) /\
        ctx !! x = Some (VLazy r) /\ strs !! r = None
  | Raise _ => False
  end.
Proof.
  induction tpl as [|sg tpl IH]; cbn [substitute]; [constructor|].
  assert (Hrest : forall p,
    match sg with
    | SLit _ | SEscaped => True
    | SNamed y => exists v, ctx !! y = Some v /\ format_s strs v = Ret p
    | SInvalid _ _ => False
    end ->
    (forall s, full_substitution strs ctx tpl s ->
               full_substitution strs ctx (sg :: tpl) (p +:+ s)) ->
    match
      match substitute strs ctx tpl with
      | Ret r => Ret (p +:+ r)
      | Raise e => Raise e
      end
    with
    | Ret s => full_substitution strs ctx (sg :: tpl) s
    | Raise (KeyError k) =>
        first_unresolved ctx (sg :: tpl) k /\
        stops_at strs ctx (sg :: tpl) (SNamed k) /\ ctx !! k = None
    | Raise (ValueError msg) =>
        (exists lineno colno,
           msg = invalid_message lineno colno /\
           stops_at strs ctx (sg :: tpl) (SInvalid lineno colno)) \/
        (exists x r ls,
           msg = "lazy string is not initialized" /\
           stops_at strs ctx (sg :: tpl) (SNamed x) /\
           ctx !! x = Some (VLazy r) /\ strs !! r = Some ls /\
           uninitialized ls)
    | Raise ModelFault =>
        exists x r,
          stops_at strs ctx (sg :: tpl) (SNamed x) /\
          ctx !! x = Some (VLazy r) /\ strs !! r = None
    | Raise _ => False
    end).
  { intros p Hsg Hfull.
    assert (Hread : readable strs ctx sg).
    { destruct sg; try done. destruct Hsg as (v & ? & ?). by exists v, p. }
    assert (Hsome : match sg with
                    | SLit _ | SEscaped => True
                    | SNamed y => is_Some (ctx !! y)
                    | SInvalid _ _ => False
                    end).
    { destruct sg; try done. destruct Hsg as (v & -> & _). eauto. }
    destruct (substitute strs ctx tpl) as [s|e]; [by apply Hfull|].
    destruct e; try done.
    - destruct IH as (Hk & Hstop & Hnone).
      split_and!; [by apply first_unresolved_cons|by apply stops_at_cons|done].
    - destruct IH as [(l & c & -> & Hstop)|(x & r & ls & -> & Hstop & Hrest)].
      + left. exists l, c. split; [done|by apply stops_at_cons].
      + right. exists x, r, ls. split; [done|].
        split; [by apply stops_at_cons|done].
    - destruct IH as (x & r & Hstop & Hrest). exists x, r.
      split; [by apply stops_at_cons|done]. }
  destruct sg as [c| |x|l c].
  - apply (Hrest (String c "")); [done|]. intros s Hs. by constructor.
  - apply (Hrest "$"); [done|]. intros s Hs. by constructor.
  - destruct (ctx !! x) as [v|] eqn:Hx.
    + destruct (format_s strs v) as [p|e] eqn:Hv.
      * apply (Hrest p); [by eauto|]. intros s Hs. by econstructor.
      * destruct (format_s_raise _ _ _ Hv)
          as (r & -> & [[-> Hr]|[-> (ls & Hr & Hls)]]).
        -- exists x, r. split; [apply stops_at_here|done].
        -- right. exists x, r, ls.
           split; [done|]. split; [apply stops_at_here|done].
    + split_and!; [|apply stops_at_here|done].
      exists [], tpl. split_and!; [done|done| |].
      * intros l c ?%elem_of_nil. done.
      * intros y ?%elem_of_nil. done.
  - left. exists l, c. split; [done|apply stops_at_here].
Qed.

(** C4 (as the code has it): one call of [interpolate] returns the
    template with every placeholder substituted, or raises
    [OnlTemplateError] naming the first unresolved placeholder and the
    template, or lets a [ValueError] of the template engine through; a
    partially substituted string is never returned.  The [ValueError]
    comes from an ill-formed [$] that substitution reaches, with its line
    and column in the message, or from a placeholder that substitution
    reaches and that is bound to a lazy string without a value. *)
Theorem interpolate_outcome (st : State) (self : Loader) (val : string)
    (overrides' : option (gmap string value)) :
  match interpolate st self val overrides' with
  | Ret nval =>
      exists root_obj, root_object st self = Ret root_obj /\
        full_substitution (strings st) (getContext self root_obj overrides')
                          (Template val) nval
  | Raise (OnlTemplateError msg) =>
      exists root_obj k, root_object st self = Ret root_obj /\
        msg = error_string k val /\
        first_unresolved (getContext self root_obj overrides') (Template val) k
        /\ stops_at (strings st) (getContext self root_obj overrides')
                    (Template val) (SNamed k)
  | Raise (ValueError msg) =>
      exists root_obj, root_object st self = Ret root_obj /\
        ((exists lineno colno,
            msg = invalid_message lineno colno /\
            stops_at (strings st) (getContext self root_obj overrides')
                     (Template val) (SInvalid lineno colno)) \/
         (exists x r ls,
            msg = "lazy string is not initialized" /\
            stops_at (strings st) (getContext self root_obj overrides')
                     (Template val) (SNamed x) /\
            getContext self root_obj overrides' !! x = Some (VLazy r) /\
            strings st !! r = Some ls /\ uninitialized ls))
  | Raise ModelFault =>
      (exists r, root self = Some r /\ loaders st !! r = None) \/
      (exists root_obj x r,
         root_object st self = Ret root_obj /\
         stops_at (strings st) (getContext self root_obj overrides')
                  (Template val) (SNamed x) /\
         getContext self root_obj overrides' !! x = Some (VLazy r) /\
         strings st !! r = None)
  | Raise _ => False
  end.
Proof.
  unfold interpolate.
  destruct (root_object st self) as [ro|e] eqn:Hro.
  - pose proof (substitute_outcome (strings st)
                  (getContext self ro overrides') (Template val)) as H.
    destruct (substitute _ _ _) as [s|e]; [eauto|].
    destruct e; try done.
    + destruct H as (Hk & Hstop & _). eauto 10.
    + eauto.
    + destruct H as (x & r & H). right. eauto 10.
  - unfold root_object in Hro. destruct (root self) as [r|] eqn:Hr; [|done].
    destruct (loaders st !! r) eqn:Hl; [done|]. simplify_eq. left. eauto.
Qed.

(** C1, counterexample: in the child loader of an include, [x] is bound to
    ["local"] by the child's own document variables and to ["root"] by the
    root's; the child never takes up its own, and [$x] resolves to
    ["root"], where the order of the specification gives ["local"]. *)
Lemma spec_resolve_counterexample :
  exists rl cl,
    loaders Shadowing.st3 !! 0%nat = Some rl /\
    loaders Shadowing.st3 !! 1%nat = Some cl /\
    root cl = Some 0%nat /\
    variables rl = Some Shadowing.root_vars /\
    variables cl = None /\
    Shadowing.child_vars !! "x" = Some (VStr "local") /\
    Shadowing.root_vars !! "x" = Some (VStr "root") /\
    getContext cl (Some rl) None !! "x" = Some (VStr "root") /\
    interpolate Shadowing.st3 cl "$x" None = Ret "root" /\
    spec_resolve None (Some Shadowing.child_vars) (variables rl)
                 (overrides cl) "x" = Some (VStr "local") /\
    getContext cl (Some rl) None !! "x" <>
    spec_resolve None (Some Shadowing.child_vars) (variables rl)
                 (overrides cl) "x".
Proof.
  eexists _, _. split; [reflexivity|]. split; [reflexivity|].
  vm_compute. repeat split; congruence.
Qed.

(** C4, counterexample: on the template ["$"] the call neither returns
    nor raises [OnlTemplateError]: the [ValueError] of the template engine
    gets through. *)
Lemma interpolate_counterexample :
  interpolate Single.st0 Single.loader "$" None =
    Raise (ValueError "Invalid placeholder in string: line 1, col 1") /\
  ~ ((exists s, interpolate Single.st0 Single.loader "$" None = Ret s) \/
     (exists msg, interpolate Single.st0 Single.loader "$" None =
                    Raise (OnlTemplateError msg))).
Proof.
  assert (H : interpolate Single.st0 Single.loader "$" None =
              Raise (ValueError
                       "Invalid placeholder in string: line 1, col 1"))
    by (vm_compute; reflexivity).
  split; [exact H|]. rewrite H. intros [[s ?]|[msg ?]]; discriminate.
Qed.

(** ** Lazy strings and directives *)

Lemma lookup_snoc_length {A} (l : list A) (x : A) :
  (l ++ [x]) !! List.length l = Some x.
Proof. by rewrite lookup_app_r, Nat.sub_diag by lia. Qed.

(** What [start_next] does when the first interpolation raises. *)
Lemma start_next_raise (t : LazyTemplate) (st : State) self e :
  lt_data t = None ->
  loaders st !! lt_loader t = Some self ->
  interpolate st self (lt_val t) None = Raise e ->
  start_next t st =
    if is_OnlTemplateError e
    then (Ret (VLazy (List.length (strings st)),
               GenStartLazy (with_data t (List.length (strings st)))),
          {| loaders := loaders st;
             strings := strings st ++ [LazyString_new None];
             attempts := attempts st ++ [EvStart t false];
             heap := heap st |})
    else (Raise e, record (EvStart t false) st).
Proof.
  intros Hd Hl Hi. unfold start_next. rewrite Hd, Hl, Hi. simpl.
  by destruct e.
Qed.

Lemma start_next_ret (t : LazyTemplate) (st : State) self nval :
  lt_data t = None ->
  loaders st !! lt_loader t = Some self ->
  interpolate st self (lt_val t) None = Ret nval ->
  start_next t st =
    (Ret (VStr nval, GenStartScalar t), record (EvStart t true) st).
Proof.
  intros Hd Hl Hi. unfold start_next. by rewrite Hd, Hl, Hi.
Qed.

(** C10: a lazy scalar that [start] constructs unresolved is a string
    whose own content is the sentinel text; reading its value with
    [__str__] raises, while the operations inherited from [str] (the
    content they see, its comparison with a string, [split], the
    [basestring] test) observe the sentinel text. *)
Theorem lazy_string_observes_sentinel (t : LazyTemplate) (st st' : State)
    (r : nat) (gen : generator) :
  start_next t st = (Ret (VLazy r, gen), st') ->
  strings st' !! r =
    Some {| ls_raw := "THIS STRING INTENTIONALLY LEFT BLANK";
            ls_data := None |} /\
  format_s (strings st') (VLazy r) =
    Raise (ValueError "lazy string is not initialized") /\
  raw_content (strings st') (VLazy r) =
    Ret "THIS STRING INTENTIONALLY LEFT BLANK" /\
  (forall s, raw_content (strings st') (VLazy r) = Ret s ->
     String.eqb s "THIS STRING INTENTIONALLY LEFT BLANK" = true /\
     str_split s = ["THIS"; "STRING"; "INTENTIONALLY"; "LEFT"; "BLANK"]) /\
  isinstance_basestring (VLazy r) = true.
Proof.
  unfold start_next. intros H.
  destruct (lt_data t); [by simplify_eq|].
  destruct (loaders st !! lt_loader t) as [l|]; [|by simplify_eq].
  destruct (interpolate st l (lt_val t) None) as [nval|e];
    [by simplify_eq|].
  destruct e; try (by simplify_eq).
  cbn in H. simplify_eq. cbn.
  rewrite lookup_snoc_length. cbn.
  split_and!; try done.
  intros s [= <-]. by vm_compute.
Qed.

Lemma lazy_string_observes_sentinel_witness :
  exists st',
    start_next (LazyTemplate_init 0 "$x") Single.st0 =
      (Ret (VLazy 0, GenStartLazy (with_data (LazyTemplate_init 0 "$x") 0)),
       st') /\
    format_s (strings st') (VLazy 0) =
      Raise (ValueError "lazy string is not initialized") /\
    raw_content (strings st') (VLazy 0) = Ret UNDEFINED.
Proof.
  eexists. split; [vm_compute; reflexivity|].
  pose proof (lazy_string_observes_sentinel
                (LazyTemplate_init 0 "$x") Single.st0 _ 0 _ eq_refl) as H.
  split; apply H.
Defined.

Lemma str_split_UNDEFINED :
  str_split UNDEFINED = ["THIS"; "STRING"; "INTENTIONALLY"; "LEFT"; "BLANK"].
Proof. vm_compute. reflexivity. Qed.

Lemma include_options_sentinel :
  include_options ∅ ["STRING"; "INTENTIONALLY"; "LEFT"; "BLANK"] =
    Raise (OnlYamlError "Bad include directive: STRING").
Proof. vm_compute. reflexivity. Qed.

Lemma format_s_fresh (strs : list LazyString) :
  format_s (strs ++ [LazyString_new None]) (VLazy (List.length strs)) =
    Raise (ValueError "lazy string is not initialized").
Proof. unfold format_s. by rewrite lookup_snoc_length. Qed.

Lemma raw_content_fresh (strs : list LazyString) :
  raw_content (strs ++ [LazyString_new None]) (VLazy (List.length strs)) =
    Ret UNDEFINED.
Proof. unfold raw_content. by rewrite lookup_snoc_length. Qed.

(** What [getString] returns when the first interpolation raises. *)
Lemma getString_raise (cfg : Config) (loader : nat) (self : Loader)
    (val : string) (st : State) (e : exn) :
  expand cfg = true ->
  loaders st !! loader = Some self ->
  interpolate st self val None = Raise e ->
  getString cfg loader val st =
    if is_OnlTemplateError e
    then (Ret (VLazy (List.length (strings st))),
          {| loaders := loaders st;
             strings := strings st ++ [LazyString_new None];
             attempts := attempts st
                         ++ [EvStart (LazyTemplate_init loader val) false];
             heap := heap st |})
    else (Raise e, record (EvStart (LazyTemplate_init loader val) false) st).
Proof.
  intros Hx Hl Hi. unfold getString, StringNode_from_yaml. rewrite Hx.
  rewrite (start_next_raise (LazyTemplate_init loader val) st self e
             eq_refl Hl Hi).
  by destruct (is_OnlTemplateError e).
Qed.

Section DirectiveProperties.

Context {Data : Type}.
Variable mktemp : gmap string string -> string.
Variable os_system :
  string -> gmap string string -> Z * gmap string string.
Variable yaml_load :
  string -> string -> Loader -> State -> gmap string string ->
  outcome Data * State * gmap string string.

(** C8: when the first interpolation of a directive's argument raises,
    [!script] and [!include] end with an error at once: no generator is
    added to any loader, no command is run and no document is loaded.  An
    argument left unresolved reaches the directive as a lazy string: the
    script fails reading it, the include fails on the words of the
    sentinel text. *)
Theorem directive_fails_at_once (cfg : Config) (loader : nat) (self : Loader)
    (val : string) (st : State) (files : gmap string string) (e : exn) :
  expand cfg = true ->
  loaders st !! loader = Some self ->
  interpolate st self val None = Raise e ->
  exists st',
    loaders st' = loaders st /\
    ScriptNode_from_yaml mktemp os_system yaml_load cfg loader val st files =
      (Raise (if is_OnlTemplateError e
              then ValueError "lazy string is not initialized" else e),
       st',
       if is_OnlTemplateError e
       then delete (mktemp files) (<[mktemp files := ""]> files)
       else files) /\
    IncludeNode_from_yaml yaml_load cfg loader (ScalarNode val) st files =
      (Raise (if is_OnlTemplateError e
              then OnlYamlError "Bad include directive: STRING" else e),
       st', files).
Proof.
  intros Hx Hl Hi.
  pose proof (getString_raise cfg loader self val st e Hx Hl Hi) as Hg.
  unfold ScriptNode_from_yaml, IncludeNode_from_yaml, include_child.
  rewrite Hg. clear Hg.
  destruct (is_OnlTemplateError e).
  - exists {| loaders := loaders st;
              strings := strings st ++ [LazyString_new None];
              attempts := attempts st
                          ++ [EvStart (LazyTemplate_init loader val) false];
              heap := heap st |}.
    split; [|split].
    + reflexivity.
    + cbn [strings]. rewrite format_s_fresh. reflexivity.
    + cbn [strings]. rewrite raw_content_fresh.
      rewrite str_split_UNDEFINED, include_options_sentinel.
      reflexivity.
  - exists (record (EvStart (LazyTemplate_init loader val) false) st).
    split; [|split]; reflexivity.
Qed.

End DirectiveProperties.

Lemma directive_fails_at_once_witness :
  exists st',
    loaders st' = loaders Single.st0 /\
    ScriptNode_from_yaml Posix.mktemp Posix.os_system Posix.yaml_load
      shipped 0 "echo $x" Single.st0 ∅ =
      (Raise (ValueError "lazy string is not initialized"), st', ∅) /\
    IncludeNode_from_yaml Posix.yaml_load
      shipped 0 (ScalarNode "echo $x") Single.st0 ∅ =
      (Raise (OnlYamlError "Bad include directive: STRING"), st', ∅).
Proof.
  exact (directive_fails_at_once Posix.mktemp Posix.os_system
           Posix.yaml_load shipped 0 Single.loader "echo $x" Single.st0 ∅
           (OnlTemplateError (error_string "x" "echo $x"))
           eq_refl eq_refl eq_refl).
Defined.

(** ** Include overrides *)

Lemma append_empty_r (s : string) : s +:+ "" = s.
Proof.
  induction s as [|a s IH]; [reflexivity|].
  change (String a s +:+ "") with (String a (s +:+ "")). by rewrite IH.
Qed.

Lemma append_assoc (s1 s2 s3 : string) :
  (s1 +:+ s2) +:+ s3 = s1 +:+ (s2 +:+ s3).
Proof.
  induction s1 as [|a s1 IH]; [reflexivity|].
  change ((String a s1 +:+ s2) +:+ s3)
    with (String a ((s1 +:+ s2) +:+ s3)).
  change (String a s1 +:+ (s2 +:+ s3))
    with (String a (s1 +:+ (s2 +:+ s3))).
  by rewrite IH.
Qed.

Lemma id_start_not_dollar c : is_id_start c = true -> Ascii.eqb c "$" = false.
Proof. destruct c as [[] [] [] [] [] [] [] []]; vm_compute; congruence. Qed.

Lemma id_start_id_char c : is_id_start c = true -> is_id_char c = true.
Proof. unfold is_id_char. by intros ->. Qed.

Lemma pattern_scan_named acc p s :
  all_id_chars s = true ->
  pattern_scan (MNamed acc) p s = [SNamed (acc +:+ s)].
Proof.
  revert acc p. induction s as [|c s IH]; intros acc p H; simpl.
  - by rewrite append_empty_r.
  - simpl in H. apply andb_true_iff in H as [Hc Hs].
    rewrite Hc, IH by done.
    by rewrite append_assoc.
Qed.

Lemma pattern_scan_braced acc p s :
  all_id_chars s = true ->
  pattern_scan (MBraced acc) p (s +:+ "}") = [SNamed (acc +:+ s)].
Proof.
  revert acc p. induction s as [|c s IH]; intros acc p H; simpl.
  - by rewrite append_empty_r.
  - simpl in H. apply andb_true_iff in H as [Hc Hs].
    rewrite Hc, IH by done.
    by rewrite append_assoc.
Qed.

(** [$key] and [${key}] are each one placeholder for [key]. *)
Lemma Template_placeholder key :
  is_identifier key = true ->
  Template ("$" +:+ key) = [SNamed key] /\
  Template ("${" +:+ key +:+ "}") = [SNamed key].
Proof.
  destruct key as [|c s]; [done|]. simpl.
  intros [Hc Hs]%andb_true_iff.
  unfold Template. split; simpl.
  - by rewrite (id_start_not_dollar c Hc), Hc, pattern_scan_named.
  - by rewrite Hc, pattern_scan_braced.
Qed.

Lemma include_options_bind variables pre opt post key value vars :
  str_partition "=" opt = (key, "=", value) ->
  Forall (fun o => option_key o <> key) post ->
  include_options variables (pre ++ opt :: post) = Ret vars ->
  vars !! key = Some (VStr value).
Proof.
  intros Hopt Hpost. revert variables.
  induction pre as [|o pre IH]; intros variables; simpl.
  - rewrite Hopt. simpl.
    assert (Hkeep : forall m, m !! key = Some (VStr value) ->
              include_options m post = Ret vars ->
              vars !! key = Some (VStr value)).
    { clear -Hpost. induction Hpost as [|o post Ho _ IH]; intros m Hm; simpl.
      - by intros [= <-].
      - unfold option_key in Ho.
        destruct (str_partition "=" o) as [[k s] v]. simpl in Ho.
        destruct (negb (is_empty s)); [|done].
        apply IH. by rewrite lookup_insert_ne. }
    apply Hkeep. by rewrite lookup_insert_eq.
  - destruct (str_partition "=" o) as [[k s] v].
    destruct (negb (is_empty s)); [|done]. apply IH.
Qed.

(** C7: when an include directive carries the option [key=value] (and no
    later option for the same key), the child loader it makes, with which
    the included document is loaded, binds [key] to [value] above
    everything else it can see: whatever the child's own and the root's
    document variables become, [$key] and [${key}] interpolate to [value],
    and (with [expand] on, as shipped) a scalar [$key] or [${key}] of the
    included document is constructed as the string [value], at its first
    attempt. *)
Theorem include_override_wins (cfg : Config) (loader : nat) (val : string)
    (st st1 st' : State) (files : gmap string string) (v : value)
    (directive fname0 fname content : string) (child : Loader)
    (pre post : list string) (opt key value : string) :
  expand cfg = true ->
  getString cfg loader val st = (Ret v, st1) ->
  raw_content (strings st1) v = Ret directive ->
  str_split directive = fname0 :: pre ++ opt :: post ->
  str_partition "=" opt = (key, "=", value) ->
  Forall (fun o => option_key o <> key) post ->
  is_identifier key = true ->
  include_child cfg loader (ScalarNode val) st files =
    (Ret (fname, content, child), st') ->
  (forall (Data : Type)
          (yaml_load : string -> string -> Loader -> State ->
                       gmap string string ->
                       outcome Data * State * gmap string string),
     IncludeNode_from_yaml yaml_load cfg loader (ScalarNode val) st files =
       yaml_load fname content child st' files) /\
  forall (child' : Loader) (st'' : State) (root_obj : option Loader),
    overrides child' = overrides child ->
    root_object st'' child' = Ret root_obj ->
    getContext child' root_obj None !! key = Some (VStr value) /\
    interpolate st'' child' ("$" +:+ key) None = Ret value /\
    interpolate st'' child' ("${" +:+ key +:+ "}") None = Ret value /\
    forall (cref : nat),
      loaders st'' !! cref = Some child' ->
      (exists st3,
         construct_object cfg cref ("$" +:+ key) st'' =
           (Ret (VStr value), st3) /\
         attempts st3 =
           attempts st''
           ++ [EvStart (LazyTemplate_init cref ("$" +:+ key)) true]) /\
      (exists st3,
         construct_object cfg cref ("${" +:+ key +:+ "}") st'' =
           (Ret (VStr value), st3) /\
         attempts st3 =
           attempts st''
           ++ [EvStart (LazyTemplate_init cref ("${" +:+ key +:+ "}"))
                       true]).
Proof.
  intros Hx Hg Hraw Hsplit Hopt Hpost Hid Hinc.
  split.
  { intros Data yaml_load. unfold IncludeNode_from_yaml. by rewrite Hinc. }
  intros child' st'' ro Hov Hro.
  unfold include_child in Hinc. rewrite Hg, Hraw, Hsplit in Hinc.
  destruct (include_options ∅ (pre ++ opt :: post)) as [vars|] eqn:Hvars;
    [|by simplify_eq].
  pose proof (include_options_bind _ _ _ _ _ _ _ Hopt Hpost Hvars) as Hkey.
  destruct (loaders st1 !! loader) as [self|]; [|by simplify_eq].
  destruct (files !! _); [|by simplify_eq].
  unfold subLoader in Hinc.
  destruct (root_object st1 self) as [ro1|]; [|by simplify_eq].
  simplify_eq. simpl in Hov.
  assert (Hctx : getContext child' ro None !! key = Some (VStr value)).
  { unfold getContext. rewrite !lookup_update, lookup_empty.
    rewrite Hov. simpl.
    rewrite lookup_union, Hkey.
    by destruct (update _ _ !! key). }
  destruct (Template_placeholder key Hid) as [Ht1 Ht2].
  assert (Hi : forall tpl,
            Template tpl = [SNamed key] ->
            interpolate st'' child' tpl None = Ret value).
  { intros tpl Ht. unfold interpolate. rewrite Hro, Ht.
    cbn [substitute]. rewrite Hctx. cbn [format_s].
    by rewrite append_empty_r. }
  split; [done|]. split; [by apply Hi|]. split; [by apply Hi|].
  intros cref Hcref.
  assert (Hc : forall tpl,
            Template tpl = [SNamed key] ->
            exists st3,
              construct_object cfg cref tpl st'' = (Ret (VStr value), st3) /\
              attempts st3 =
                attempts st'' ++ [EvStart (LazyTemplate_init cref tpl) true]).
  { intros tpl Ht. unfold construct_object, StringNode_from_yaml.
    rewrite Hx.
    rewrite (start_next_ret (LazyTemplate_init cref tpl) st'' child' value
               eq_refl Hcref (Hi tpl Ht)).
    unfold append_generator, record. cbn [loaders strings attempts].
    rewrite Hcref. eexists. split; reflexivity. }
  split; by apply Hc.
Qed.

Lemma include_override_wins_witness :
  include_child shipped 0 (ScalarNode Including.directive) Including.st0
    Including.files =
    (Ret ("/etc/onl/child.yml", "variables: {key: inner}, a: $key",
          Including.child),
     record (EvStart (LazyTemplate_init 0 Including.directive) true)
            Including.st0) /\
  variables Including.root_after = Some Including.root_vars /\
  loaders Including.st1 !! 1%nat = Some Including.child /\
  (getContext Including.child (Some Including.root_after) None !! "key" =
     Some (VStr "value") /\
   interpolate Including.st1 Including.child "$key" None = Ret "value" /\
   interpolate Including.st1 Including.child "${key}" None = Ret "value" /\
   forall (cref : nat),
     loaders Including.st1 !! cref = Some Including.child ->
     (exists st3,
        construct_object shipped cref "$key" Including.st1 =
          (Ret (VStr "value"), st3) /\
        attempts st3 =
          attempts Including.st1
          ++ [EvStart (LazyTemplate_init cref "$key") true]) /\
     (exists st3,
        construct_object shipped cref "${key}" Including.st1 =
          (Ret (VStr "value"), st3) /\
        attempts st3 =
          attempts Including.st1
          ++ [EvStart (LazyTemplate_init cref "${key}") true])).
Proof.
  split; [vm_compute; reflexivity|].
  split; [vm_compute; reflexivity|].
  split; [vm_compute; reflexivity|].
  eapply (include_override_wins shipped 0 Including.directive Including.st0
            _ _ Including.files _ _ _ _ _ _ [] [] "key=value" "key" "value").
  - reflexivity.
  - vm_compute; reflexivity.
  - vm_compute; reflexivity.
  - vm_compute; reflexivity.
  - vm_compute; reflexivity.
  - constructor.
  - vm_compute; reflexivity.
  - vm_compute; reflexivity.
  - reflexivity.
  - vm_compute; reflexivity.
Defined.

(** ** The temporary file of a script *)

Section ScriptProperties.

Context {Data : Type}.
Variable mktemp : gmap string string -> string.
Variable os_system :
  string -> gmap string string -> Z * gmap string string.
Variable yaml_load :
  string -> string -> Loader -> State -> gmap string string ->
  outcome Data * State * gmap string string.

(** When the command exits with a status other than 0 the directive raises
    before its [try ... finally]: the files are those the shell left. *)
Lemma script_failure_keeps_files (cfg : Config) (loader : nat) (val : string)
    (st st1 : State) (files files1 : gmap string string) (v : value)
    (cmd : string) (status : Z) :
  getString cfg loader val st = (Ret v, st1) ->
  format_s (strings st1) v = Ret cmd ->
  os_system (cmd +:+ " > " +:+ mktemp files)
            (delete (mktemp files) (<[mktemp files := ""]> files)) =
    (status, files1) ->
  status <> 0 ->
  ScriptNode_from_yaml mktemp os_system yaml_load cfg loader val st files =
    (Raise (OnlYamlError ("Script execution '" +:+ cmd +:+ "' failed.")),
     st1, files1).
Proof.
  intros Hg Hf Hs Hne. unfold ScriptNode_from_yaml.
  rewrite Hg, Hf, Hs.
  destruct (Z.eqb_spec status 0) as [->|_]; [done|]. reflexivity.
Qed.

(** When the command exits with status 0, the temporary file is gone once
    the directive has returned or raised, whatever [yaml.load] did with
    the stream. *)
Lemma script_success_unlinks (cfg : Config) (loader : nat) (val : string)
    (st st1 : State) (files files1 : gmap string string) (v : value)
    (cmd : string) r st' files' :
  getString cfg loader val st = (Ret v, st1) ->
  format_s (strings st1) v = Ret cmd ->
  os_system (cmd +:+ " > " +:+ mktemp files)
            (delete (mktemp files) (<[mktemp files := ""]> files)) =
    (0, files1) ->
  ScriptNode_from_yaml mktemp os_system yaml_load cfg loader val st files =
    (r, st', files') ->
  files' !! mktemp files = None.
Proof.
  intros Hg Hf Hs. unfold ScriptNode_from_yaml.
  rewrite Hg, Hf, Hs. change (negb (0 =? 0)%Z) with false. cbv iota.
  intros H. repeat case_match; simplify_eq;
    first [apply lookup_delete_eq | assumption].
Qed.

End ScriptProperties.

(** C9, at the failing input: the script [false] in a loader without
    variables, under a POSIX shell.  The directive raises
    [OnlYamlError], and the temporary file, created again by the
    redirection after [tf.close()] removed it, is still there. *)
Theorem script_failure_leaves_temporary_file :
  exists st',
    ScriptNode_from_yaml Posix.mktemp Posix.os_system Posix.yaml_load
      shipped 0 "false" Single.st0 ∅ =
      (Raise (OnlYamlError "Script execution 'false' failed."), st',
       {[ "/tmp/tmpAAAAAA" := "" ]}) /\
    ({[ "/tmp/tmpAAAAAA" := "" ]} : gmap string string)
      !! Posix.mktemp ∅ = Some "".
Proof.
  eexists. split; [|reflexivity].
  apply (script_failure_keeps_files Posix.mktemp Posix.os_system
           Posix.yaml_load shipped 0 "false" Single.st0 _ ∅ _
           (VStr "false") "false" 256).
  - vm_compute; reflexivity.
  - reflexivity.
  - vm_compute; reflexivity.
  - done.
Qed.

(** The sibling path: the script [true] leaves no temporary file. *)
Lemma script_success_leaves_no_file :
  exists r st' files',
    ScriptNode_from_yaml Posix.mktemp Posix.os_system Posix.yaml_load
      shipped 0 "true" Single.st0 ∅ = (r, st', files') /\
    files' !! Posix.mktemp ∅ = None.
Proof.
  destruct (ScriptNode_from_yaml Posix.mktemp Posix.os_system
              Posix.yaml_load shipped 0 "true" Single.st0 ∅)
    as [[r st'] files'] eqn:H.
  exists r, st', files'. split; [done|].
  eapply (script_success_unlinks Posix.mktemp Posix.os_system
            Posix.yaml_load shipped 0 "true" Single.st0 _ ∅ _
            (VStr "true") "true"); [| | |exact H].
  - vm_compute; reflexivity.
  - reflexivity.
  - vm_compute; reflexivity.
Qed.

(** * Further properties *)

(** ** Interpolation of plain and escaped text *)

Lemma substitute_plain strs ctx p (s : string) :
  has_dollar s = false ->
  substitute strs ctx (pattern_scan MText p s) = Ret s.
Proof.
  revert p. induction s as [|c s IH]; intros p; [reflexivity|].
  cbn [has_dollar pattern_scan]. intros [Hc Hs]%orb_false_iff.
  rewrite Hc. cbn [substitute]. rewrite (IH _ Hs). reflexivity.
Qed.

Lemma interpolate_plain_aux (st : State) (self : Loader) (val : string)
    (overrides' : option (gmap string value)) (root_obj : option Loader) :
  root_object st self = Ret root_obj ->
  has_dollar val = false ->
  interpolate st self val overrides' = Ret val.
Proof.
  intros Hro Hval. unfold interpolate, Template.
  by rewrite Hro, substitute_plain.
Qed.

(** A string without [$] is interpolated to itself: whatever the loader
    binds, and whatever state the lazy strings are in. *)
Theorem interpolate_plain (st : State) (self : Loader) (val : string)
    (overrides' : option (gmap string value)) (root_obj : option Loader) :
  root_object st self = Ret root_obj ->
  has_dollar val = false ->
  interpolate st self val overrides' = Ret val.
Proof.
  intros Hro Hval. unfold interpolate, Template.
  by rewrite Hro, substitute_plain.
Qed.

Lemma interpolate_plain_witness :
  interpolate Single.st0 Single.loader "/etc/onl/config.yml" None =
    Ret "/etc/onl/config.yml".
Proof.
  apply (interpolate_plain Single.st0 Single.loader "/etc/onl/config.yml"
           None None); reflexivity.
Defined.

Lemma substitute_escape strs ctx p (s : string) :
  substitute strs ctx (pattern_scan MText p (escape s)) = Ret s.
Proof.
  revert p. induction s as [|c s IH]; intros p; [reflexivity|].
  cbn [escape]. destruct (Ascii.eqb c "$") eqn:Hc.
  - apply Ascii.eqb_eq in Hc as ->.
    change (pattern_scan MText p (String "$" (String "$" (escape s))))
      with (SEscaped :: pattern_scan MText (advance (advance p "$") "$")
                                     (escape s)).
    cbn [substitute]. rewrite IH. reflexivity.
  - cbn [pattern_scan]. rewrite Hc. cbn [substitute]. rewrite IH.
    reflexivity.
Qed.

(** Doubling every [$] protects a text from interpolation: the escaped
    text is interpolated back to the text, whatever the loader binds. *)
Theorem interpolate_escape (st : State) (self : Loader) (s : string)
    (overrides' : option (gmap string value)) (root_obj : option Loader) :
  root_object st self = Ret root_obj ->
  interpolate st self (escape s) overrides' = Ret s.
Proof.
  intros Hro. unfold interpolate, Template.
  by rewrite Hro, substitute_escape.
Qed.

Lemma interpolate_escape_witness :
  escape "cost: $5 for ${HOME}" = "cost: $$5 for $${HOME}" /\
  interpolate Single.st0 Single.loader (escape "cost: $5 for ${HOME}") None =
    Ret "cost: $5 for ${HOME}".
Proof.
  split; [reflexivity|].
  exact (interpolate_escape Single.st0 Single.loader "cost: $5 for ${HOME}"
           None None eq_refl).
Defined.

Lemma substitute_agree strs (ctx1 ctx2 : gmap string value) tpl :
  (forall x, x ∈ template_names tpl -> ctx1 !! x = ctx2 !! x) ->
  substitute strs ctx1 tpl = substitute strs ctx2 tpl.
Proof.
  induction tpl as [|sg tpl IH]; intros H; [reflexivity|].
  destruct sg as [c| |x|l c]; cbn [substitute template_names] in *.
  - by rewrite IH.
  - by rewrite IH.
  - rewrite (H x) by apply list_elem_of_here.
    rewrite IH; [done|]. intros y Hy. apply H. by apply list_elem_of_further.
  - done.
Qed.

(** Only the names a template mentions matter: two sets of call-site
    overrides that give the same context on the placeholders of the
    template give the same outcome, result or error. *)
Theorem interpolate_agree (st : State) (self : Loader) (val : string)
    (ov1 ov2 : option (gmap string value)) (root_obj : option Loader) :
  root_object st self = Ret root_obj ->
  (forall x, x ∈ template_names (Template val) ->
     getContext self root_obj ov1 !! x = getContext self root_obj ov2 !! x) ->
  interpolate st self val ov1 = interpolate st self val ov2.
Proof.
  intros Hro H. unfold interpolate. rewrite Hro.
  by rewrite (substitute_agree _ _ _ _ H).
Qed.

Lemma interpolate_agree_witness :
  interpolate Single.st0 Single.loader "$a/bin"
    (Some {[ "a" := VStr "/usr"; "b" := VStr "/opt" ]}) =
  interpolate Single.st0 Single.loader "$a/bin"
    (Some {[ "a" := VStr "/usr" ]}).
Proof.
  apply (interpolate_agree Single.st0 Single.loader "$a/bin" _ _ None
           eq_refl).
  intros x Hx. vm_compute in Hx.
  apply list_elem_of_singleton in Hx as ->. vm_compute. reflexivity.
Defined.

(** ** The scope of a child loader *)

(** The scope of a loader made by [subLoader]: a name that the parent's
    context bound when the child was made keeps that binding in the child
    (only a call-site override comes before it); any other name is looked
    up in the document variables the root loader has at the time of the
    lookup. *)
Theorem subLoader_scope (st : State) (self_ref : nat) (self : Loader)
    (overrides' : option (gmap string value)) (stream_name : string)
    (child : Loader) :
  subLoader st self_ref self overrides' stream_name = Ret child ->
  exists root_obj,
    root_object st self = Ret root_obj /\
    forall (root_obj' : option Loader) (callsite : option (gmap string value))
           (x : string),
      getContext child root_obj' callsite !! x =
      first_bound [callsite; Some (getContext self root_obj overrides');
                   root_obj' ≫= variables] x.
Proof.
  unfold subLoader. destruct (root_object st self) as [ro|e]; [|done].
  intros [= <-]. exists ro. split; [done|]. intros ro' cs x.
  unfold getContext at 1. cbn [Loader_init defaults variables overrides].
  rewrite !lookup_update, lookup_empty. cbn.
  repeat case_match; congruence.
Qed.

Lemma subLoader_scope_witness :
  exists root_obj,
    root_object Shadowing.st0 Shadowing.root_loader = Ret root_obj /\
    forall (root_obj' : option Loader) (callsite : option (gmap string value))
           (x : string),
      getContext Shadowing.child_loader root_obj' callsite !! x =
      first_bound [callsite;
                   Some (getContext Shadowing.root_loader root_obj (Some ∅));
                   root_obj' ≫= variables] x.
Proof.
  exact (subLoader_scope Shadowing.st0 0 Shadowing.root_loader (Some ∅)
           "child.yml" Shadowing.child_loader eq_refl).
Defined.

(** Nested includes stay flat: in a store where every [root] refers to a
    loader without a root, the loader that [subLoader] makes refers to
    such a loader too (the root of its parent, or the parent when that has
    none), and the store with the child added is of the same kind. *)
Theorem subLoader_rooted (st : State) (self_ref : nat) (self : Loader)
    (overrides' : option (gmap string value)) (stream_name : string)
    (child : Loader) :
  rooted st ->
  loaders st !! self_ref = Some self ->
  subLoader st self_ref self overrides' stream_name = Ret child ->
  (exists r rl, root child = Some r /\ loaders st !! r = Some rl /\
                root rl = None /\
                r = match root self with Some r' => r' | None => self_ref end)
  /\ rooted (snd (new_loader child st)).
Proof.
  intros Hst Hself. unfold subLoader.
  destruct (root_object st self) as [ro|e] eqn:Hro; [|done].
  intros [= <-]. cbn [Loader_init root].
  assert (Hr : exists rl,
             loaders st !! (match root self with
                            | Some r' => r' | None => self_ref end) = Some rl
             /\ root rl = None).
  { destruct (root self) as [r'|] eqn:Hroot; [|eauto].
    exact (Hst _ _ _ Hself Hroot). }
  destruct Hr as (rl & Hrl & Hnone). split; [by eauto 10|].
  intros i l r Hi Hroot. cbn [new_loader snd loaders] in *.
  assert (Hkeep : forall j x, loaders st !! j = Some x ->
            (loaders st ++ [Loader_init stream_name None
               (Some (getContext self ro overrides'))
               (Some (match root self with
                      | Some r' => r' | None => self_ref end))]) !! j = Some x).
  { intros j x Hj. by apply lookup_app_l_Some. }
  apply lookup_app_Some in Hi as [Hi|[_ Hi]].
  - destruct (Hst _ _ _ Hi Hroot) as (rl' & ? & ?). eauto.
  - apply list_lookup_singleton_Some in Hi as [_ <-].
    cbn [Loader_init root] in Hroot. simplify_eq. eauto.
Qed.

Lemma subLoader_rooted_witness :
  (exists r rl, root Shadowing.child_loader = Some r /\
                loaders Shadowing.st0 !! r = Some rl /\ root rl = None /\
                r = match root Shadowing.root_loader with
                    | Some r' => r' | None => 0%nat end)
  /\ rooted (snd (new_loader Shadowing.child_loader Shadowing.st0)).
Proof.
  apply (subLoader_rooted Shadowing.st0 0 Shadowing.root_loader (Some ∅)
           "child.yml" Shadowing.child_loader).
  - intros i l r Hi Hr. destruct i as [|i]; [|done].
    cbn in Hi. by simplify_eq.
  - reflexivity.
  - reflexivity.
Defined.

(** ** The options of an include directive *)

Lemma find_sep_contains c s :
  contains c s = true -> exists k v, find_sep c s = Some (k, v).
Proof.
  induction s as [|a s IH]; [done|]. cbn [contains find_sep].
  destruct (Ascii.eqb a c); [eauto|]. cbn [orb]. intros H.
  destruct (IH H) as (k & v & ->). eauto.
Qed.

Lemma find_sep_not_contains c s :
  contains c s = false -> find_sep c s = None.
Proof.
  induction s as [|a s IH]; [done|]. cbn [contains find_sep].
  destruct (Ascii.eqb a c); [done|]. cbn [orb]. by intros ->%IH.
Qed.

Lemma include_options_step variables opt rest :
  include_options variables (opt :: rest) =
  if contains "=" opt
  then include_options
         (<[option_key opt := VStr (option_value opt)]> variables) rest
  else Raise (OnlYamlError ("Bad include directive: " +:+ opt)).
Proof.
  cbn [include_options]. unfold option_key, option_value, str_partition.
  destruct (contains "=" opt) eqn:Hc.
  - by destruct (find_sep_contains _ _ Hc) as (k & v & ->).
  - by rewrite (find_sep_not_contains _ _ Hc).
Qed.

(** The option loop of an include directive, in full: it succeeds exactly
    when every option contains [=], and then binds each key to the text
    after the first [=] of the last option for that key, leaving the other
    names as they were; otherwise it raises [OnlYamlError] naming the
    first option without [=]. *)
Theorem include_options_spec (variables : gmap string value)
    (options : list string) :
  match include_options variables options with
  | Ret vars =>
      forallb (contains "=") options = true /\
      forall k, vars !! k =
                match last_option k options with
                | Some v => Some (VStr v)
                | None => variables !! k
                end
  | Raise e =>
      exists pre opt post,
        options = pre ++ opt :: post /\
        forallb (contains "=") pre = true /\
        contains "=" opt = false /\
        e = OnlYamlError ("Bad include directive: " +:+ opt)
  end.
Proof.
  revert variables. induction options as [|opt rest IH]; intros variables.
  - done.
  - rewrite include_options_step. cbn [forallb last_option].
    destruct (contains "=" opt) eqn:Hc.
    + specialize (IH (<[option_key opt := VStr (option_value opt)]> variables)).
      destruct (include_options _ rest) as [vars|e].
      * destruct IH as [Hall Hk]. split; [done|]. intros k. rewrite Hk.
        destruct (last_option k rest); [done|].
        destruct (String.eqb_spec (option_key opt) k) as [->|Hne].
        -- by rewrite lookup_insert_eq.
        -- by rewrite lookup_insert_ne.
      * destruct IH as (pre & o & post & -> & Hpre & Ho & ->).
        exists (opt :: pre), o, post. cbn [forallb]. by rewrite Hc.
    + exists [], opt, rest. done.
Qed.

Lemma include_options_bad variables pre opt post :
  forallb (contains "=") pre = true ->
  contains "=" opt = false ->
  include_options variables (pre ++ opt :: post) =
    Raise (OnlYamlError ("Bad include directive: " +:+ opt)).
Proof.
  revert variables. induction pre as [|o pre IH]; intros variables Hpre Hopt.
  - cbn [app]. by rewrite include_options_step, Hopt.
  - cbn [forallb] in Hpre. apply andb_true_iff in Hpre as [Ho Hpre].
    cbn [app]. rewrite include_options_step, Ho. by apply IH.
Qed.

Section IncludeProperties.

Context {Data : Type}.
Variable yaml_load :
  string -> string -> Loader -> State -> gmap string string ->
  outcome Data * State * gmap string string.

(** An include directive with an option that has no [=] is refused with
    [OnlYamlError], naming the first such option, before the file system
    is looked at: the outcome is the same whether or not the file exists,
    and nothing is loaded. *)
Theorem include_bad_option (cfg : Config) (loader : nat) (val : string)
    (st st1 : State) (files : gmap string string) (v : value)
    (directive fname : string) (pre post : list string) (opt : string) :
  getString cfg loader val st = (Ret v, st1) ->
  raw_content (strings st1) v = Ret directive ->
  str_split directive = fname :: pre ++ opt :: post ->
  forallb (contains "=") pre = true ->
  contains "=" opt = false ->
  IncludeNode_from_yaml yaml_load cfg loader (ScalarNode val) st files =
    (Raise (OnlYamlError ("Bad include directive: " +:+ opt)), st1, files).
Proof.
  intros Hg Hraw Hsplit Hpre Hopt.
  unfold IncludeNode_from_yaml, include_child.
  rewrite Hg, Hraw, Hsplit, (include_options_bad _ _ _ _ Hpre Hopt).
  reflexivity.
Qed.

End IncludeProperties.

Lemma include_bad_option_witness :
  IncludeNode_from_yaml Posix.yaml_load shipped 0
    (ScalarNode "child.yml a=1 verbose b=2") Including.st0 Including.files =
    (Raise (OnlYamlError "Bad include directive: verbose"),
     record (EvStart (LazyTemplate_init 0 "child.yml a=1 verbose b=2") true)
            Including.st0,
     Including.files).
Proof.
  apply (include_bad_option Posix.yaml_load shipped 0
           "child.yml a=1 verbose b=2" Including.st0 _ Including.files
           (VStr "child.yml a=1 verbose b=2") "child.yml a=1 verbose b=2"
           "child.yml" ["a=1"] ["b=2"] "verbose");
    vm_compute; reflexivity.
Defined.

(** ** Blank directives and the path of an included file *)

Lemma space_not_dollar c : is_space c = true -> Ascii.eqb c "$" = false.
Proof. destruct c as [[] [] [] [] [] [] [] []]; vm_compute; congruence. Qed.

Lemma all_space_plain s : all_space s = true -> has_dollar s = false.
Proof.
  induction s as [|c s IH]; [done|]. cbn [all_space has_dollar].
  intros [Hc Hs]%andb_true_iff. by rewrite (space_not_dollar c Hc), IH.
Qed.

Lemma str_split_blank s : all_space s = true -> str_split s = [].
Proof.
  unfold str_split. induction s as [|c s IH]; [done|].
  cbn [all_space split_from]. intros [Hc Hs]%andb_true_iff.
  rewrite Hc. cbn [is_empty]. by apply IH.
Qed.

(** What [getString] returns on a text without [$]. *)
Lemma getString_plain (cfg : Config) (loader : nat) (self : Loader)
    (val : string) (st : State) (root_obj : option Loader) :
  loaders st !! loader = Some self ->
  root_object st self = Ret root_obj ->
  has_dollar val = false ->
  getString cfg loader val st =
    (Ret (VStr val),
     if expand cfg
     then record (EvStart (LazyTemplate_init loader val) true) st else st).
Proof.
  intros Hl Hro Hval. unfold getString, StringNode_from_yaml.
  destruct (expand cfg); [|done].
  by rewrite (start_next_ret (LazyTemplate_init loader val) st self val
                eq_refl Hl (interpolate_plain_aux st self val None root_obj
                                                  Hro Hval)).
Qed.

Lemma start_next_loaders t st r st' :
  start_next t st = (r, st') -> loaders st' = loaders st.
Proof.
  unfold start_next, new_string. intros H.
  repeat case_match; simplify_eq; reflexivity.
Qed.

Lemma getString_loaders cfg loader val st r st' :
  getString cfg loader val st = (r, st') -> loaders st' = loaders st.
Proof.
  unfold getString. intros H.
  destruct (StringNode_from_yaml cfg loader val); [by simplify_eq|].
  destruct (start_next t st) as [o st1] eqn:Hs.
  apply start_next_loaders in Hs.
  repeat case_match; simplify_eq; done.
Qed.

(** An include directive that is empty or blank has no file name to take:
    [fields[0]] raises [IndexError], with expansion on or off, and no
    lazy string or generator is made. *)
Theorem include_blank (cfg : Config) (loader : nat) (self : Loader)
    (val : string) (st : State) (files : gmap string string)
    (root_obj : option Loader) :
  loaders st !! loader = Some self ->
  root_object st self = Ret root_obj ->
  all_space val = true ->
  exists st',
    include_child cfg loader (ScalarNode val) st files =
      (Raise (IndexError "list index out of range"), st') /\
    loaders st' = loaders st /\ strings st' = strings st.
Proof.
  intros Hl Hro Hval. unfold include_child.
  rewrite (getString_plain cfg loader self val st root_obj Hl Hro
             (all_space_plain val Hval)).
  cbn [raw_content]. rewrite (str_split_blank val Hval).
  eexists. split; [reflexivity|]. by destruct (expand cfg).
Qed.

Lemma include_blank_witness :
  exists st',
    include_child shipped 0 (ScalarNode "  ") Including.st0 Including.files =
      (Raise (IndexError "list index out of range"), st') /\
    loaders st' = loaders Including.st0 /\
    strings st' = strings Including.st0.
Proof.
  apply (include_blank shipped 0 Including.loader "  " Including.st0
           Including.files None); reflexivity.
Defined.

Lemma rstrip_slashes_nonempty s :
  all_slashes s = false -> is_empty (rstrip_slashes s) = false.
Proof.
  induction s as [|c s IH]; [done|]. cbn [all_slashes rstrip_slashes].
  destruct (Ascii.eqb c "/"); cbn [andb].
  - intros H. specialize (IH H).
    by destruct (rstrip_slashes s).
  - intros _. by destruct (is_empty (rstrip_slashes s)).
Qed.

Lemma rstrip_slashes_isabs s :
  isabs s = true -> all_slashes s = false ->
  isabs (rstrip_slashes s) = true.
Proof.
  destruct s as [|c s]; [done|]. cbn [isabs all_slashes rstrip_slashes].
  intros Hc. rewrite Hc. cbn [andb]. intros Hs.
  pose proof (rstrip_slashes_nonempty s Hs) as Hne.
  rewrite Hne. done.
Qed.

Lemma dirname_isabs p : isabs p = true -> isabs (dirname p) = true.
Proof.
  intros Hp. assert (Hh : isabs (dir_head p) = true).
  { destruct p as [|c p]; [done|]. cbn [isabs] in Hp. cbn [dir_head].
    rewrite Hp. by destruct (negb (is_empty (dir_head p))). }
  unfold dirname. destruct (negb (is_empty (dir_head p))); cbn [andb];
    [|done].
  destruct (all_slashes (dir_head p)) eqn:Hs; cbn [negb]; [done|].
  by apply rstrip_slashes_isabs.
Qed.

Lemma append_isabs a b : isabs a = true -> isabs (a +:+ b) = true.
Proof. by destruct a. Qed.

Lemma path_join_isabs a b : isabs a = true -> isabs (path_join a b) = true.
Proof.
  intros Ha. unfold path_join. destruct (isabs b) eqn:Hb; [done|].
  destruct (is_empty a || ends_with_slash a); by apply append_isabs.
Qed.

Lemma dir_head_no_slash base :
  contains "/" base = false -> dir_head base = "".
Proof.
  induction base as [|c base IH]; [done|]. cbn [contains dir_head].
  intros [Hc Hb]%orb_false_iff. by rewrite (IH Hb), Hc.
Qed.

Lemma dir_head_app s1 s2 :
  is_empty (dir_head s2) = false ->
  dir_head (s1 +:+ s2) = s1 +:+ dir_head s2.
Proof.
  intros H. induction s1 as [|c s1 IH]; [done|].
  change (String c s1 +:+ s2) with (String c (s1 +:+ s2)).
  cbn [dir_head]. rewrite IH.
  assert (Hne : is_empty (s1 +:+ dir_head s2) = false).
  { destruct s1; [done|reflexivity]. }
  by rewrite Hne.
Qed.

Lemma all_slashes_app dir x :
  is_empty dir = false -> ends_with_slash dir = false ->
  all_slashes (dir +:+ x) = false.
Proof.
  induction dir as [|c dir IH]; [done|]. intros _ He.
  change (String c dir +:+ x) with (String c (dir +:+ x)).
  cbn [all_slashes]. destruct dir as [|c' dir].
  - cbn [ends_with_slash] in He. by rewrite He.
  - rewrite IH; [apply andb_false_r|done|done].
Qed.

Lemma rstrip_slashes_app dir :
  is_empty dir = false -> ends_with_slash dir = false ->
  rstrip_slashes (dir +:+ "/") = dir.
Proof.
  induction dir as [|c dir IH]; [done|]. intros _ He.
  change (String c dir +:+ "/") with (String c (dir +:+ "/")).
  cbn [rstrip_slashes]. destruct dir as [|c' dir].
  - cbn [ends_with_slash] in He. cbn. by rewrite He.
  - rewrite IH by done. reflexivity.
Qed.

(** The directory of [dir/base]. *)
Lemma dirname_app dir base :
  contains "/" base = false ->
  is_empty dir = false -> ends_with_slash dir = false ->
  dirname (dir +:+ "/" +:+ base) = dir.
Proof.
  intros Hb Hd He. unfold dirname.
  assert (Hh : dir_head (dir +:+ "/" +:+ base) = dir +:+ "/").
  { rewrite dir_head_app.
    - change ("/" +:+ base) with (String "/" base). cbn [dir_head].
      by rewrite (dir_head_no_slash _ Hb).
    - change ("/" +:+ base) with (String "/" base). cbn [dir_head].
      by rewrite (dir_head_no_slash _ Hb). }
  rewrite Hh, (all_slashes_app dir "/" Hd He).
  assert (Hne : is_empty (dir +:+ "/") = false) by (by destruct dir).
  rewrite Hne. cbn [negb andb]. by apply rstrip_slashes_app.
Qed.

(** The file an include directive opens: the first word of the
    directive when that is an absolute path, else that word joined to the
    directory of the including document ([dir/word] when the document is
    [dir/base]); the file exists, the child loader carries its path as
    its name, and the path is absolute whenever the name of the including
    document is. *)
Theorem include_path (cfg : Config) (loader : nat) (self : Loader)
    (val : string) (st st1 st' : State) (files : gmap string string)
    (v : value) (directive fname0 : string) (options : list string)
    (fname content : string) (child : Loader) :
  loaders st !! loader = Some self ->
  getString cfg loader val st = (Ret v, st1) ->
  raw_content (strings st1) v = Ret directive ->
  str_split directive = fname0 :: options ->
  include_child cfg loader (ScalarNode val) st files =
    (Ret (fname, content, child), st') ->
  fname = (if isabs fname0 then fname0
           else path_join (dirname (name self)) fname0) /\
  (forall dir base,
     name self = dir +:+ "/" +:+ base ->
     contains "/" base = false ->
     is_empty dir = false -> ends_with_slash dir = false ->
     isabs fname0 = false ->
     fname = dir +:+ "/" +:+ fname0) /\
  (isabs (name self) = true -> isabs fname = true) /\
  files !! fname = Some content /\
  name child = fname /\ loaders st' = loaders st.
Proof.
  intros Hl Hg Hraw Hsplit. unfold include_child.
  rewrite Hg, Hraw, Hsplit.
  pose proof (getString_loaders _ _ _ _ _ _ Hg) as Hls.
  destruct (include_options ∅ options) as [vars|]; [|done].
  rewrite Hls, Hl.
  destruct (files !! _) as [c|] eqn:Hf; [|done].
  unfold subLoader. destruct (root_object st1 self); [|done].
  intros [= <- <- <- <-]. cbn [Loader_init name].
  split_and!; try done.
  - by destruct (isabs fname0).
  - intros dir base Hname Hb Hd He H0. rewrite H0. cbn [negb].
    rewrite Hname, (dirname_app _ _ Hb Hd He). unfold path_join.
    by rewrite H0, Hd, He.
  - intros Habs. destruct (isabs fname0) eqn:H0; cbn [negb]; [done|].
    by apply path_join_isabs, dirname_isabs.
Qed.

Lemma include_path_witness :
  "/etc/onl/child.yml" =
    (if isabs "child.yml" then "child.yml"
     else path_join (dirname (name Including.loader)) "child.yml") /\
  (forall dir base,
     name Including.loader = dir +:+ "/" +:+ base ->
     contains "/" base = false ->
     is_empty dir = false -> ends_with_slash dir = false ->
     isabs "child.yml" = false ->
     "/etc/onl/child.yml" = dir +:+ "/" +:+ "child.yml") /\
  (isabs (name Including.loader) = true ->
   isabs "/etc/onl/child.yml" = true) /\
  Including.files !! "/etc/onl/child.yml" =
    Some "variables: {key: inner}, a: $key" /\
  name Including.child = "/etc/onl/child.yml" /\
  loaders (record (EvStart (LazyTemplate_init 0 Including.directive) true)
                  Including.st0) = loaders Including.st0.
Proof.
  apply (include_path shipped 0 Including.loader Including.directive
           Including.st0
           (record (EvStart (LazyTemplate_init 0 Including.directive) true)
                   Including.st0)
           _ Including.files (VStr Including.directive) Including.directive
           "child.yml" ["key=value"] "/etc/onl/child.yml"
           "variables: {key: inner}, a: $key" Including.child);
    vm_compute; reflexivity.
Defined.

(** ** The variables of [loadf] *)

(** The scope [loadf] gives the document it loads: in the root loader it
    makes, a name is looked up in the document's own [variables] first
    (once they are taken up), then in the caller's [vard], then [__DIR__]
    is the directory of the file, and the process environment comes
    last. *)
Theorem loadf_scope (abspath : string -> string)
    (environ : gmap string string) (fname : string)
    (vard variables' : gmap string value) (self : Loader) (x : string) :
  loadf_variables abspath environ fname vard = Ret variables' ->
  defaults self = defaults (withVariables variables' None fname) ->
  overrides self = overrides (withVariables variables' None fname) ->
  getContext self None None !! x =
  first_bound
    [variables self; Some vard;
     Some {[ "__DIR__" := VStr (dirname (abspath fname)) ]};
     Some (VStr <$> environ)] x.
Proof.
  unfold loadf_variables. case_match; [|done]. intros [= <-].
  cbn [withVariables Loader_init defaults overrides]. intros Hd Ho.
  unfold getContext. rewrite Hd, Ho.
  rewrite !lookup_update, lookup_empty. cbn.
  destruct (variables self ≫= _) as [v|]; [done|].
  rewrite lookup_union.
  destruct (decide (x = "__DIR__")) as [->|Hne].
  - rewrite lookup_insert_eq, lookup_singleton_eq.
    by destruct (vard !! "__DIR__").
  - rewrite lookup_insert_ne, lookup_singleton_ne by done.
    by destruct (vard !! x), ((VStr <$> environ) !! x).
Qed.

Lemma loadf_scope_witness :
  getContext (withVariables Environment.variables None "root.yml") None None
    !! "__DIR__" = Some (VStr "/etc/onl") /\
  getContext (withVariables Environment.variables None "root.yml") None None
    !! "ARCH" = Some (VStr "arm64") /\
  getContext (withVariables Environment.variables None "root.yml") None None
    !! "HOME" = Some (VStr "/root").
Proof.
  assert (H := fun x =>
    loadf_scope Environment.abspath Environment.environ "root.yml"
      Environment.vard Environment.variables
      (withVariables Environment.variables None "root.yml") x
      eq_refl eq_refl eq_refl).
  split_and!; rewrite H; vm_compute; reflexivity.
Defined.

Section LoadingProperties.

Context {Data : Type}.
Variable abspath : string -> string.
Variable yaml_load :
  string -> string -> Loader -> State -> gmap string string ->
  outcome Data * State * gmap string string.

(** One environment variable whose value has a byte above 127 makes
    [loadf] fail before it opens the file: the error of [encode] is a
    [UnicodeDecodeError], which the handler written for
    [UnicodeEncodeError] lets through. *)
Theorem loadf_environment_not_ascii (environ : gmap string string)
    (fname : string) (vard : gmap string value) (st : State)
    (files : gmap string string) (k v : string) :
  environ !! k = Some v ->
  is_ascii v = false ->
  loadf abspath yaml_load environ fname vard st files =
    (Raise (ValueError "'ascii' codec can't decode byte"), st, files).
Proof.
  intros Hk Hv. unfold loadf, loadf_variables.
  destruct (forallb is_ascii (snd <$> map_to_list environ)) eqn:Hall;
    [|done].
  rewrite forallb_forall in Hall.
  rewrite <- Hv. symmetry in Hv. rewrite Hall in Hv; [done|].
  apply list_elem_of_In.
  apply (list_elem_of_fmap_2' snd _ (k, v)); [|done].
  by apply elem_of_map_to_list.
Qed.

End LoadingProperties.

Lemma loadf_environment_not_ascii_witness :
  loadf Environment.abspath Posix.yaml_load Environment.latin1 "root.yml" ∅
        Single.st0 ∅ =
    (Raise (ValueError "'ascii' codec can't decode byte"), Single.st0, ∅).
Proof.
  apply (loadf_environment_not_ascii Environment.abspath Posix.yaml_load
           Environment.latin1 "root.yml" ∅ Single.st0 ∅
           "LC_NAME" (String (ascii_of_nat 233) "")); vm_compute; reflexivity.
Defined.

(** ** The scope of an included document *)

Lemma include_options_lookup variables options vars :
  include_options variables options = Ret vars ->
  forall k, vars !! k =
            match last_option k options with
            | Some v => Some (VStr v)
            | None => variables !! k
            end.
Proof.
  revert variables. induction options as [|opt rest IH]; intros variables.
  - by intros [= <-].
  - rewrite include_options_step. destruct (contains "=" opt); [|done].
    intros H k. rewrite (IH _ H k). cbn [last_option].
    destruct (last_option k rest); [done|].
    destruct (String.eqb_spec (option_key opt) k) as [->|Hne].
    + by rewrite lookup_insert_eq.
    + by rewrite lookup_insert_ne.
Qed.

(** Where an included document finds a name: in the inline assignments
    of the directive first (the last one for the name), then in what the
    including loader saw when the directive was processed (its
    overrides, its root's variables, its own variables, its defaults, in
    that order), and only then in the variables the root loader has at
    the time of the lookup. *)
Theorem include_scope (cfg : Config) (loader : nat) (self : Loader)
    (val : string) (st st1 st' : State) (files : gmap string string)
    (v : value) (directive fname0 fname content : string)
    (options : list string) (child : Loader) :
  loaders st !! loader = Some self ->
  getString cfg loader val st = (Ret v, st1) ->
  raw_content (strings st1) v = Ret directive ->
  str_split directive = fname0 :: options ->
  include_child cfg loader (ScalarNode val) st files =
    (Ret (fname, content, child), st') ->
  exists root_obj,
    root_object st1 self = Ret root_obj /\
    forall (root_obj' : option Loader) (x : string),
      getContext child root_obj' None !! x =
      match last_option x options with
      | Some s => Some (VStr s)
      | None =>
          first_bound [overrides self; root_obj ≫= variables;
                       variables self; defaults self;
                       root_obj' ≫= variables] x
      end.
Proof.
  intros Hl Hg Hraw Hsplit. unfold include_child.
  rewrite Hg, Hraw, Hsplit.
  destruct (include_options ∅ options) as [vars|] eqn:Hopts; [|done].
  pose proof (include_options_lookup _ _ _ Hopts) as Hvars.
  rewrite (getString_loaders _ _ _ _ _ _ Hg), Hl.
  destruct (files !! _); [|done].
  unfold subLoader. destruct (root_object st1 self) as [ro|]; [|done].
  intros [= <- <- <- <-]. exists ro. split; [done|]. intros ro' x.
  unfold getContext. cbn [Loader_init defaults variables overrides].
  rewrite !lookup_update, lookup_empty. cbn.
  rewrite lookup_union, Hvars, lookup_empty.
  rewrite !lookup_update, lookup_empty.
  unfold union, option_union, union_with, option_union_with.
  destruct (last_option x options); cbn;
    repeat case_match; simplify_eq/=; congruence.
Qed.

Lemma include_scope_witness :
  exists root_obj,
    root_object (record (EvStart (LazyTemplate_init 0 Including.directive)
                                 true) Including.st0)
                Including.loader = Ret root_obj /\
    forall (root_obj' : option Loader) (x : string),
      getContext Including.child root_obj' None !! x =
      match last_option x ["key=value"] with
      | Some s => Some (VStr s)
      | None =>
          first_bound [overrides Including.loader; root_obj ≫= variables;
                       variables Including.loader; defaults Including.loader;
                       root_obj' ≫= variables] x
      end.
Proof.
  eapply (include_scope shipped 0 Including.loader Including.directive
           Including.st0 _ _ Including.files
           (VStr Including.directive) Including.directive "child.yml"
           "/etc/onl/child.yml" "variables: {key: inner}, a: $key"
           ["key=value"] Including.child); vm_compute; reflexivity.
Defined.

(** * The drain loop *)

(** ** Lists of loaders *)

Lemma list_alter_insert_eq {A} (f : A -> A) (l : list A) i x :
  alter f i (<[i:=x]> l) = <[i:=f x]> l.
Proof.
  apply list_eq. intros j. destruct (decide (i = j)) as [<-|Hne].
  - rewrite list_lookup_alter_eq.
    destruct (decide (i < List.length l)%nat) as [Hlt|Hge].
    + by rewrite !list_lookup_insert_eq.
    + rewrite !lookup_ge_None_2; [done| |]; rewrite length_insert; lia.
  - by rewrite list_lookup_alter_ne, !list_lookup_insert_ne.
Qed.

Lemma list_alter_lookup {A} (f : A -> A) (l : list A) i x :
  l !! i = Some x -> alter f i l = <[i:=f x]> l.
Proof.
  intros Hi. rewrite <- (list_insert_id l i x Hi) at 1.
  apply list_alter_insert_eq.
Qed.

Lemma queue_at_eq st ref self :
  loaders st !! ref = Some self -> queue_at st ref = state_generators self.
Proof. intros H. unfold queue_at. by rewrite H. Qed.

Lemma queue_at_loaders st st' ref :
  loaders st' = loaders st -> queue_at st' ref = queue_at st ref.
Proof. unfold queue_at. by intros ->. Qed.

(** ** Measures of a queue *)

Lemma queue_weight_app q1 q2 :
  queue_weight (q1 ++ q2) = (queue_weight q1 + queue_weight q2)%nat.
Proof. unfold queue_weight. by rewrite map_app, list_sum_app. Qed.

Lemma queue_budget_app q1 q2 :
  queue_budget (q1 ++ q2) = (queue_budget q1 + queue_budget q2)%nat.
Proof. unfold queue_budget. by rewrite map_app, list_sum_app. Qed.

Lemma generator_weight_pos g : (1 <= generator_weight g)%nat.
Proof. destruct g; cbn; lia. Qed.

Lemma queue_weight_length q : (List.length q <= queue_weight q)%nat.
Proof.
  induction q as [|g q IH]; [done|].
  change (queue_weight (g :: q))
    with (generator_weight g + queue_weight q)%nat.
  pose proof (generator_weight_pos g). cbn [List.length]. lia.
Qed.

(** ** The frame *)

Ltac frame_split :=
  split; [|split; [|split; [|split; [|split; [|split]]]]].

Lemma drain_frame_refl ref st : drain_frame ref st st.
Proof.
  frame_split.
  - eauto.
  - exists []. by rewrite app_nil_r.
  - done.
  - intros i l Hi. exists l. repeat split; auto.
  - auto.
  - intros d items Hd. exists []. by rewrite app_nil_r.
  - intros l items Hl. exists []. by rewrite app_nil_r.
Qed.

Lemma drain_frame_loader ref st st' i l' :
  drain_frame ref st st' -> loaders st' !! i = Some l' ->
  exists l, loaders st !! i = Some l /\ root l' = root l.
Proof.
  intros (_ & _ & Hlen & Hl & _) Hi.
  pose proof (lookup_lt_Some _ _ _ Hi) as Hlt. rewrite Hlen in Hlt.
  destruct (lookup_lt_is_Some_2 _ _ Hlt) as [l Hl0].
  destruct (Hl i l Hl0) as (l'' & Hl'' & _ & _ & _ & Hr & _).
  exists l. split; [done|]. congruence.
Qed.

Lemma drain_frame_trans ref st1 st2 st3 :
  drain_frame ref st1 st2 -> drain_frame ref st2 st3 ->
  drain_frame ref st1 st3.
Proof.
  intros H12 H23.
  pose proof H12 as (Hs1 & [e1 He1] & Hn1 & Hl1 & Ha1 & Hd1 & Hli1).
  pose proof H23 as (Hs2 & [e2 He2] & Hn2 & Hl2 & Ha2 & Hd2 & Hli2).
  frame_split.
  - intros c ls Hc. destruct (Hs1 c ls Hc) as (ls1 & Hc1 & Hr1).
    destruct (Hs2 c ls1 Hc1) as (ls2 & Hc2 & Hr2).
    exists ls2. split; [done|congruence].
  - exists (e1 ++ e2). by rewrite He2, He1, app_assoc.
  - congruence.
  - intros i l Hi.
    destruct (Hl1 i l Hi) as (l1 & Hi1 & ? & ? & ? & Hr1 & Hv1).
    destruct (Hl2 i l1 Hi1) as (l2 & Hi2 & ? & ? & ? & Hr2 & Hv2).
    exists l2. split; [done|]. repeat split; try congruence.
    destruct Hv2 as [Hv2|[[-> Hv2]|[d Hv2]]].
    + destruct Hv1 as [Hv1|Hv1]; [left; congruence|by right].
    + right. left. split; [done|congruence].
    + destruct (Ha1 i d Hv2) as [Hin|(-> & l0 & Hl0 & Hr0)].
      * right. right. by exists d.
      * right. left. split; [done|]. congruence.
  - intros i d Hin. destruct (Ha2 i d Hin) as [Hin'|(-> & l2 & Hl2' & Hr2)].
    + apply Ha1, Hin'.
    + right. split; [done|].
      destruct (drain_frame_loader ref st1 st2 ref l2 H12 Hl2')
        as (l1 & Hl1' & Hr1).
      exists l1. split; [done|congruence].
  - intros d items Hd. destruct (Hd1 d items Hd) as [m1 Hm1].
    destruct (Hd2 d _ Hm1) as [m2 Hm2]. exists (m1 ++ m2).
    by rewrite Hm2, app_assoc.
  - intros l items Hl. destruct (Hli1 l items Hl) as [m1 Hm1].
    destruct (Hli2 l _ Hm1) as [m2 Hm2]. exists (m1 ++ m2).
    by rewrite Hm2, app_assoc.
Qed.

(** A change of the loaders alone. *)
Lemma drain_frame_loaders ref st st' :
  strings st' = strings st -> attempts st' = attempts st ->
  heap st' = heap st ->
  List.length (loaders st') = List.length (loaders st) ->
  (forall i l,
     loaders st !! i = Some l ->
     exists l',
       loaders st' !! i = Some l' /\
       name l' = name l /\ defaults l' = defaults l /\
       overrides l' = overrides l /\ root l' = root l /\
       (variables l' = variables l \/
        (i = ref /\ root l = None) \/
        exists d, (i, d) ∈ aliases (heap st))) ->
  drain_frame ref st st'.
Proof.
  intros Hs Ha Hh Hn Hl. unfold drain_frame. rewrite Hs, Ha, Hh.
  frame_split.
  - eauto.
  - exists []. by rewrite app_nil_r.
  - done.
  - done.
  - auto.
  - intros d items Hd. exists []. by rewrite app_nil_r.
  - intros l items Hl'. exists []. by rewrite app_nil_r.
Qed.

(** A change that leaves the loaders alone. *)
Lemma drain_frame_store ref st st' :
  loaders st' = loaders st ->
  (forall c ls, strings st !! c = Some ls ->
     exists ls', strings st' !! c = Some ls' /\ ls_raw ls' = ls_raw ls) ->
  (exists evs, attempts st' = attempts st ++ evs) ->
  (forall i d, (i, d) ∈ aliases (heap st') ->
     (i, d) ∈ aliases (heap st) \/
     (i = ref /\ exists l, loaders st !! i = Some l /\ root l = None)) ->
  (forall d items, dicts (heap st) !! d = Some items ->
     exists more, dicts (heap st') !! d = Some (items ++ more)) ->
  (forall l items, lists (heap st) !! l = Some items ->
     exists more, lists (heap st') !! l = Some (items ++ more)) ->
  drain_frame ref st st'.
Proof.
  intros Hl Hs Ha Hal Hd Hli. unfold drain_frame. rewrite Hl.
  frame_split; try done.
  intros i l Hi. exists l. repeat split; auto.
Qed.

(** ** Effects and their composition *)

Lemma effect_refl cfg ref st : effect cfg ref 0 0 st st.
Proof.
  split; [apply drain_frame_refl|]. repeat split; auto; lia.
Qed.

Lemma effect_weaken cfg ref w b w' b' st st' :
  (w <= w')%nat -> (b <= b')%nat ->
  effect cfg ref w b st st' -> effect cfg ref w' b' st st'.
Proof.
  intros Hw Hb (Hf & Ha & Hp & Hwt & Hbt).
  split; [done|]. split; [done|]. split; [done|]. split.
  - intros Hr. specialize (Hwt Hr). lia.
  - lia.
Qed.

Lemma effect_trans cfg ref w1 b1 w2 b2 st1 st2 st3 :
  effect cfg ref w1 b1 st1 st2 -> effect cfg ref w2 b2 st2 st3 ->
  effect cfg ref (w1 + w2) (b1 + b2) st1 st3.
Proof.
  intros (Hf1 & Ha1 & Hp1 & Hw1 & Hb1) (Hf2 & Ha2 & Hp2 & Hw2 & Hb2).
  split; [by apply (drain_frame_trans _ _ st2)|].
  split; [|split; [|split]].
  - intros Hs c ls Hc Hd. apply (Ha2 Hs), Hd. by apply (Ha1 Hs).
  - auto.
  - intros Hr. specialize (Hw1 Hr).
    assert (Hr2 : forall self, loaders st2 !! ref = Some self ->
                               root self <> Some ref).
    { intros self Hs.
      destruct (drain_frame_loader _ _ _ _ _ Hf1 Hs) as (l & Hl & ->).
      by apply Hr. }
    specialize (Hw2 Hr2). lia.
  - lia.
Qed.

(** An operation on the loaders alone, which adds [more] to the queue at
    [ref]. *)
Lemma effect_loaders cfg ref w b st st' more :
  strings st' = strings st -> attempts st' = attempts st ->
  heap st' = heap st ->
  List.length (loaders st') = List.length (loaders st) ->
  (forall i l,
     loaders st !! i = Some l ->
     exists l',
       loaders st' !! i = Some l' /\
       name l' = name l /\ defaults l' = defaults l /\
       overrides l' = overrides l /\ root l' = root l /\
       (variables l' = variables l \/
        (i = ref /\ root l = None) \/
        exists d, (i, d) ∈ aliases (heap st))) ->
  queue_at st' ref = queue_at st ref ++ more ->
  Forall (fun g => plain_generator g = true) more ->
  (queue_weight more <= w)%nat -> (queue_budget more <= b)%nat ->
  effect cfg ref w b st st'.
Proof.
  intros Hs Ha Hh Hn Hl Hq Hp Hw Hb.
  split; [by apply drain_frame_loaders|].
  rewrite Hs, Ha, Hq, queue_weight_app, queue_budget_app.
  split; [auto|]. split; [|split].
  - intros H. apply Forall_app. done.
  - intros _. lia.
  - lia.
Qed.

(** An operation that leaves the loaders alone. *)
Lemma effect_store cfg ref b st st' :
  loaders st' = loaders st ->
  (forall c ls, strings st !! c = Some ls ->
     exists ls', strings st' !! c = Some ls' /\ ls_raw ls' = ls_raw ls) ->
  (strict cfg = true ->
   forall c ls, strings st !! c = Some ls -> ls_data ls <> None ->
                strings st' !! c = Some ls) ->
  (exists evs, attempts st' = attempts st ++ evs /\
               (List.length evs <= b)%nat) ->
  (forall i d, (i, d) ∈ aliases (heap st') ->
     (i, d) ∈ aliases (heap st) \/
     (i = ref /\ exists l, loaders st !! i = Some l /\ root l = None)) ->
  (forall d items, dicts (heap st) !! d = Some items ->
     exists more, dicts (heap st') !! d = Some (items ++ more)) ->
  (forall l items, lists (heap st) !! l = Some items ->
     exists more, lists (heap st') !! l = Some (items ++ more)) ->
  effect cfg ref 0 b st st'.
Proof.
  intros Hl Hs Hw (evs & Ha & Hlen) Hal Hd Hli.
  split; [apply drain_frame_store; eauto|].
  rewrite (queue_at_loaders _ _ _ Hl), Ha, length_app.
  split; [done|]. split; [done|]. split; [intros _|]; lia.
Qed.

Lemma same_heap_dicts (h : Heap) d (items : list (pyval * pyval)) :
  dicts h !! d = Some items -> exists more, dicts h !! d = Some (items ++ more).
Proof. intros H. exists []. by rewrite app_nil_r. Qed.

Lemma same_heap_lists (h : Heap) l (items : list pyval) :
  lists h !! l = Some items -> exists more, lists h !! l = Some (items ++ more).
Proof. intros H. exists []. by rewrite app_nil_r. Qed.

Lemma same_strings_raw (strs : list LazyString) c ls :
  strs !! c = Some ls ->
  exists ls', strs !! c = Some ls' /\ ls_raw ls' = ls_raw ls.
Proof. intros H. by exists ls. Qed.

Lemma same_attempts (atts : list event) b :
  exists evs, atts = atts ++ evs /\ (List.length evs <= b)%nat.
Proof. exists []. rewrite app_nil_r. split; [done|]. cbn. lia. Qed.

Lemma record_effect cfg ref ev st : effect cfg ref 0 1 st (record ev st).
Proof.
  apply effect_store; cbn [record loaders strings attempts heap].
  - done.
  - apply same_strings_raw.
  - auto.
  - by exists [ev].
  - auto.
  - apply same_heap_dicts.
  - apply same_heap_lists.
Qed.

Lemma new_string_effect cfg ref ls st :
  effect cfg ref 0 0 st (snd (new_string ls st)).
Proof.
  apply effect_store; cbn [new_string snd loaders strings attempts heap].
  - done.
  - intros c ls' Hc. exists ls'. split; [|done].
    by apply lookup_app_l_Some.
  - intros _ c ls' Hc _. by apply lookup_app_l_Some.
  - apply same_attempts.
  - auto.
  - apply same_heap_dicts.
  - apply same_heap_lists.
Qed.

Lemma set_data_effect cfg ref c s st r st' :
  set_data c s st = (r, st') ->
  (strict cfg = true ->
   forall ls, strings st !! c = Some ls -> ls_data ls = None) ->
  effect cfg ref 0 0 st st'.
Proof.
  unfold set_data. intros Hrun Hnone.
  destruct (strings st !! c) as [ls|] eqn:Hc.
  2:{ injection Hrun as <- <-. apply effect_refl. }
  injection Hrun as <- <-.
  apply effect_store; cbn [loaders strings attempts heap].
  - done.
  - intros c' ls' Hc'. destruct (decide (c = c')) as [<-|Hne].
    + eexists. rewrite list_lookup_insert_eq by (by eapply lookup_lt_Some).
      split; [done|]. cbn. congruence.
    + exists ls'. by rewrite list_lookup_insert_ne.
  - intros Hs c' ls' Hc' Hd. destruct (decide (c = c')) as [<-|Hne].
    + specialize (Hnone Hs ls eq_refl). congruence.
    + by rewrite list_lookup_insert_ne.
  - apply same_attempts.
  - auto.
  - apply same_heap_dicts.
  - apply same_heap_lists.
Qed.

Lemma append_generator_effect cfg ref tgt g st r st' :
  append_generator tgt g st = (r, st') ->
  plain_generator g = true ->
  effect cfg ref (generator_weight g) (generator_budget g) st st'.
Proof.
  unfold append_generator. intros Hrun Hp.
  destruct (loaders st !! tgt) as [l|] eqn:Hl.
  2:{ injection Hrun as <- <-.
      apply (effect_weaken _ _ 0 0); [lia|lia|apply effect_refl]. }
  injection Hrun as <- <-.
  pose proof (lookup_lt_Some _ _ _ Hl) as Hlt.
  destruct (decide (tgt = ref)) as [->|Hne].
  - apply (effect_loaders _ _ _ _ _ _ [g]);
      cbn [loaders strings attempts heap]; try done.
    + by rewrite length_insert.
    + intros i l0 Hi. destruct (decide (ref = i)) as [<-|Hne].
      * rewrite list_lookup_insert_eq by done. eexists. split; [done|].
        assert (l0 = l) as -> by congruence. cbn. repeat split; auto.
      * rewrite list_lookup_insert_ne by done. exists l0.
        repeat split; auto.
    + unfold queue_at. cbn [loaders].
      by rewrite list_lookup_insert_eq, Hl.
    + by constructor.
    + unfold queue_weight. cbn. lia.
    + unfold queue_budget. cbn. lia.
  - apply (effect_loaders _ _ _ _ _ _ []);
      cbn [loaders strings attempts heap]; try done.
    + by rewrite length_insert.
    + intros i l0 Hi. destruct (decide (tgt = i)) as [<-|Hne'].
      * rewrite list_lookup_insert_eq by done. eexists. split; [done|].
        assert (l0 = l) as -> by congruence. cbn. repeat split; auto.
      * rewrite list_lookup_insert_ne by done. exists l0.
        repeat split; auto.
    + unfold queue_at. cbn [loaders].
      by rewrite list_lookup_insert_ne, app_nil_r.
    + unfold queue_weight. cbn. lia.
    + unfold queue_budget. cbn. lia.
Qed.

Lemma set_variables_effect cfg ref i vars st :
  (forall l, loaders st !! i = Some l ->
     (i = ref /\ root l = None) \/ exists d, (i, d) ∈ aliases (heap st)) ->
  effect cfg ref 0 0 st (set_variables i vars st).
Proof.
  intros Hi.
  apply (effect_loaders _ _ _ _ _ _ []);
    cbn [set_variables loaders strings attempts heap]; try done.
  - by rewrite length_alter.
  - intros j l Hj. destruct (decide (i = j)) as [<-|Hne].
    + rewrite list_lookup_alter_eq, Hj. eexists. split; [done|]. cbn.
      repeat split; auto.
    + rewrite list_lookup_alter_ne by done. exists l. repeat split; auto.
  - unfold queue_at. cbn [set_variables loaders]. rewrite app_nil_r.
    destruct (decide (i = ref)) as [->|Hne].
    + rewrite list_lookup_alter_eq. by destruct (loaders st !! ref).
    + by rewrite list_lookup_alter_ne.
Qed.

(** The queue taken off the loader at [ref]. *)
Lemma set_generators_frame ref gens st :
  drain_frame ref st (set_generators ref gens st).
Proof.
  apply drain_frame_loaders; cbn [set_generators loaders strings attempts heap];
    try done.
  - by rewrite length_alter.
  - intros j l Hj. destruct (decide (ref = j)) as [<-|Hne].
    + rewrite list_lookup_alter_eq, Hj. eexists. split; [done|]. cbn.
      repeat split; auto.
    + rewrite list_lookup_alter_ne by done. exists l. repeat split; auto.
Qed.

Lemma queue_at_set_generators ref gens st self :
  loaders st !! ref = Some self ->
  queue_at (set_generators ref gens st) ref = gens.
Proof.
  intros Hs. unfold queue_at, set_generators. cbn [loaders].
  by rewrite list_lookup_alter_eq, Hs.
Qed.

(** Operations on the heap. *)
Lemma new_dict_effect cfg ref st :
  effect cfg ref 0 0 st (snd (new_dict st)).
Proof.
  apply effect_store;
    cbn [new_dict with_heap snd loaders strings attempts heap dicts lists
         aliases].
  - done.
  - apply same_strings_raw.
  - auto.
  - apply same_attempts.
  - auto.
  - intros d items Hd. exists []. rewrite app_nil_r.
    by apply lookup_app_l_Some.
  - apply same_heap_lists.
Qed.

Lemma new_list_effect cfg ref st :
  effect cfg ref 0 0 st (snd (new_list st)).
Proof.
  apply effect_store;
    cbn [new_list with_heap snd loaders strings attempts heap dicts lists
         aliases].
  - done.
  - apply same_strings_raw.
  - auto.
  - apply same_attempts.
  - auto.
  - apply same_heap_dicts.
  - intros d items Hd. exists []. rewrite app_nil_r.
    by apply lookup_app_l_Some.
Qed.

Lemma list_extend_effect cfg ref l values st r st' :
  list_extend l values st = (r, st') -> effect cfg ref 0 0 st st'.
Proof.
  unfold list_extend. intros Hrun.
  destruct (lists (heap st) !! l) as [items|] eqn:Hl.
  2:{ injection Hrun as <- <-. apply effect_refl. }
  injection Hrun as <- <-.
  apply effect_store;
    cbn [with_heap loaders strings attempts heap dicts lists aliases].
  - done.
  - apply same_strings_raw.
  - auto.
  - apply same_attempts.
  - auto.
  - apply same_heap_dicts.
  - intros l' items' Hl'. destruct (decide (l = l')) as [<-|Hne].
    + exists values.
      rewrite list_lookup_insert_eq by (by eapply lookup_lt_Some).
      congruence.
    + exists []. by rewrite app_nil_r, list_lookup_insert_ne.
Qed.

Lemma sync_effect cfg ref d als :
  forall st r st',
    sync d als st = (r, st') ->
    (forall i d', (i, d') ∈ als -> (i, d') ∈ aliases (heap st)) ->
    effect cfg ref 0 0 st st'.
Proof.
  induction als as [|[lref d'] als IH]; intros st r st'; cbn [sync].
  - intros [= <- <-] _. apply effect_refl.
  - intros Hrun Hin.
    assert (Hin' : forall i d0, (i, d0) ∈ als -> (i, d0) ∈ aliases (heap st)).
    { intros i d0 H. apply Hin. by right. }
    destruct (Nat.eqb d' d); [|by apply (IH _ _ _ Hrun)].
    destruct (dicts (heap st) !! d) as [items|];
      [|injection Hrun as <- <-; apply effect_refl].
    destruct (table_of (strings st) items) as [tbl|];
      [|injection Hrun as <- <-; apply effect_refl].
    apply (effect_trans _ _ 0 0 0 0 _ (set_variables lref tbl st)).
    + apply set_variables_effect. intros l Hl. right. exists d'.
      apply Hin. by left.
    + by apply (IH _ _ _ Hrun).
Qed.

Lemma dict_update_effect cfg ref d value st r st' :
  dict_update d value st = (r, st') -> effect cfg ref 0 0 st st'.
Proof.
  unfold dict_update. intros Hrun.
  destruct (dicts (heap st) !! d) as [items|] eqn:Hd.
  2:{ injection Hrun as <- <-. apply effect_refl. }
  cbn [with_heap heap aliases] in Hrun.
  eapply (effect_trans _ _ 0 0 0 0); [|eapply sync_effect; [exact Hrun|]].
  - apply effect_store;
      cbn [with_heap loaders strings attempts heap dicts lists aliases].
    + done.
    + apply same_strings_raw.
    + auto.
    + apply same_attempts.
    + auto.
    + intros d' items' Hd'. destruct (decide (d = d')) as [<-|Hne].
      * exists value.
        rewrite list_lookup_insert_eq by (by eapply lookup_lt_Some).
        congruence.
      * exists []. by rewrite app_nil_r, list_lookup_insert_ne.
    + apply same_heap_lists.
  - auto.
Qed.

(** ** The effect of the generators *)

Lemma effect_refl' cfg ref w b st : effect cfg ref w b st st.
Proof. apply (effect_weaken _ _ 0 0); [lia|lia|apply effect_refl]. Qed.

Lemma effect_step cfg ref w1 b1 w2 b2 w b st1 st2 st3 :
  effect cfg ref w1 b1 st1 st2 -> effect cfg ref w2 b2 st2 st3 ->
  (w1 + w2 <= w)%nat -> (b1 + b2 <= b)%nat ->
  effect cfg ref w b st1 st3.
Proof.
  intros H1 H2 Hw Hb.
  apply (effect_weaken _ _ (w1 + w2) (b1 + b2)); [done|done|].
  by apply (effect_trans _ _ _ _ _ _ _ st2).
Qed.

(** The weight allowance of an effect can be replaced by one that the
    queue at [ref] is shown to observe. *)
Lemma effect_weight cfg ref w w' b st st' :
  effect cfg ref w b st st' ->
  ((forall self, loaders st !! ref = Some self -> root self <> Some ref) ->
   (queue_weight (queue_at st' ref) <= queue_weight (queue_at st ref) + w')%nat) ->
  effect cfg ref w' b st st'.
Proof.
  intros (Hf & Ha & Hp & _ & Hb) Hw.
  split; [done|]. split; [done|]. split; [done|]. by split.
Qed.

Lemma start_next_effect cfg ref t st r st' :
  start_next t st = (r, st') -> effect cfg ref 0 1 st st'.
Proof.
  unfold start_next. intros Hrun.
  destruct (lt_data t); [injection Hrun as <- <-; apply effect_refl'|].
  destruct (loaders st !! lt_loader t) as [l|];
    [|injection Hrun as <- <-; apply effect_refl'].
  destruct (interpolate st l (lt_val t) None) as [nval|e].
  - injection Hrun as <- <-. apply record_effect.
  - destruct e; try (injection Hrun as <- <-; apply record_effect).
    cbn [new_string] in Hrun. injection Hrun as <- <-.
    eapply effect_step;
      [apply record_effect
      |apply (new_string_effect cfg ref (LazyString_new None)
                (record _ st))
      |lia|lia].
Qed.

Lemma start_next_generator t st v g st' :
  start_next t st = (Ret (v, g), st') ->
  g = GenStartScalar t \/ exists c, g = GenStartLazy (with_data t c).
Proof.
  unfold start_next. intros Hrun.
  destruct (lt_data t); [done|].
  destruct (loaders st !! lt_loader t) as [l|]; [|done].
  destruct (interpolate st l (lt_val t) None) as [nval|e].
  - injection Hrun as <- <- <-. by left.
  - destruct e; try done. cbn [new_string] in Hrun.
    injection Hrun as <- <- <-. right. eauto.
Qed.

Lemma construct_object_effect cfg ref loader val st r st' :
  construct_object cfg loader val st = (r, st') ->
  effect cfg ref 7 6 st st'.
Proof.
  unfold construct_object, StringNode_from_yaml. intros Hrun.
  destruct (expand cfg); [|injection Hrun as <- <-; apply effect_refl'].
  destruct (start_next (LazyTemplate_init loader val) st) as [o st1] eqn:Hs.
  pose proof (start_next_effect cfg ref _ _ _ _ Hs) as H1.
  destruct o as [[v g]|e].
  2:{ injection Hrun as <- <-.
      apply (effect_weaken _ _ 0 1); [lia|lia|done]. }
  destruct (append_generator loader g st1) as [o2 st2] eqn:Ha.
  assert (st' = st2) as -> by (destruct o2; by injection Hrun as <- <-).
  destruct (start_next_generator _ _ _ _ _ Hs) as [->|[c ->]].
  - eapply effect_step;
      [exact H1|exact (append_generator_effect cfg ref _ _ _ _ _ Ha eq_refl)
      |cbn; lia|cbn; lia].
  - eapply effect_step;
      [exact H1|exact (append_generator_effect cfg ref _ _ _ _ _ Ha eq_refl)
      |cbn; lia|cbn; lia].
Qed.

Lemma assign_effect cfg ref t s st r st' :
  assign t s st = (r, st') ->
  (strict cfg = true -> already_substituted t st = Ret false) ->
  effect cfg ref 0 0 st st'.
Proof.
  unfold assign, already_substituted. intros Hrun Hnone.
  destruct (lt_data t) as [c|]; [|injection Hrun as <- <-; apply effect_refl].
  apply (set_data_effect _ _ _ _ _ _ _ Hrun).
  intros Hs ls Hc. specialize (Hnone Hs). rewrite Hc in Hnone.
  injection Hnone as Hnone. apply bool_decide_eq_false in Hnone.
  destruct (ls_data ls); [|done]. by destruct Hnone.
Qed.

Lemma defer_effect cfg ref t st r st' :
  defer cfg t st = (r, st') ->
  effect cfg ref (Z.to_nat (lt_tries t)) (Z.to_nat (lt_tries t)) st st'.
Proof.
  unfold defer. intros Hrun.
  destruct (loaders st !! lt_loader t) as [l|];
    [|injection Hrun as <- <-; apply effect_refl'].
  destruct (lt_tries t <=? 0)%Z eqn:Htries.
  - destruct (strict cfg) eqn:Hstrict;
      [injection Hrun as <- <-; apply effect_refl'|].
    apply (effect_weaken _ _ 0 0); [lia|lia|].
    apply (assign_effect _ _ _ _ _ _ _ Hrun). congruence.
  - apply Z.leb_gt in Htries.
    destruct (already_substituted t st) as [[]|e] eqn:Hsub;
      try (injection Hrun as <- <-; apply effect_refl').
    destruct (interpolate st l (lt_val t) None) as [nval|e].
    + eapply effect_step;
        [apply (record_effect cfg ref)
        |apply (assign_effect _ _ _ _ _ _ _ Hrun); intros _;
         unfold already_substituted in *; by cbn [record strings]
        |lia|lia].
    + destruct e;
        try (injection Hrun as <- <-;
             apply (effect_weaken _ _ 0 1); [lia|lia|apply record_effect]).
      assert (He : exists tgt,
                 append_generator tgt
                   (GenDefer (with_tries t (lt_tries t - 1)))
                   (record (EvDefer t false) st)
                 = (r, st')) by (destruct (root l); eauto).
      destruct He as [tgt He].
      eapply effect_step;
        [apply (record_effect cfg ref)
        |exact (append_generator_effect cfg ref _ _ _ _ _ He eq_refl)
        |cbn; lia|cbn; lia].
Qed.

Lemma list_sum_cons a l : list_sum (a :: l) = (a + list_sum l)%nat.
Proof. done. Qed.

Lemma node_weights_cons n items :
  list_sum (map node_weight (n :: items)) =
    (node_weight n + list_sum (map node_weight items))%nat.
Proof. done. Qed.

Lemma scalars_cons n items :
  list_sum (map scalars (n :: items)) =
    (scalars n + list_sum (map scalars items))%nat.
Proof. done. Qed.

Section Effects.

Variable mktemp : gmap string string -> string.
Variable os_system :
  string -> gmap string string -> Z * gmap string string.
Variable yaml_load :
  string -> string -> Loader -> State -> gmap string string ->
  outcome pyval * State * gmap string string.
Variable cfg : Config.

Lemma construct_node_effect ref loader n st files r st' files' :
  plain n = true ->
  construct_node mktemp os_system yaml_load cfg loader n st files
    = (r, st', files') ->
  effect cfg ref (node_weight n) (node_budget n) st st' /\ files' = files.
Proof.
  intros Hp. destruct n as [val| |ty text|items|entries|val|n']; try done;
    cbn [construct_node].
  - destruct (construct_object cfg loader val st) as [o st1] eqn:Hc.
    intros Hrun.
    assert (st' = st1 /\ files' = files) as [-> ->]
      by (destruct o; by injection Hrun as <- <- <-).
    split; [|done]. apply (construct_object_effect _ _ _ _ _ _ _ Hc).
  - intros [= <- <- <-]. split; [apply effect_refl'|done].
  - intros [= <- <- <-]. split; [apply effect_refl'|done].
  - cbn [new_list].
    match goal with |- context [append_generator ?l ?g ?s] =>
      destruct (append_generator l g s) as [o st1] eqn:Ha end.
    intros Hrun.
    assert (st' = st1 /\ files' = files) as [-> ->]
      by (destruct o; by injection Hrun as <- <- <-).
    split; [|done].
    eapply effect_step;
      [apply (new_list_effect cfg ref st)
      |exact (append_generator_effect cfg ref _ _ _ _ _ Ha Hp)
      |cbn [generator_weight]; lia
      |cbn [generator_budget]; unfold node_budget; lia].
  - cbn [new_dict].
    match goal with |- context [append_generator ?l ?g ?s] =>
      destruct (append_generator l g s) as [o st1] eqn:Ha end.
    intros Hrun.
    assert (st' = st1 /\ files' = files) as [-> ->]
      by (destruct o; by injection Hrun as <- <- <-).
    split; [|done].
    eapply effect_step;
      [apply (new_dict_effect cfg ref st)
      |exact (append_generator_effect cfg ref _ _ _ _ _ Ha Hp)
      |cbn [generator_weight]; lia
      |cbn [generator_budget]; unfold node_budget; lia].
Qed.

Lemma construct_sequence_effect ref loader items :
  forall st files r st' files',
    forallb plain items = true ->
    construct_sequence mktemp os_system yaml_load cfg loader items st files
      = (r, st', files') ->
    effect cfg ref (list_sum (map node_weight items))
           (6 * list_sum (map scalars items)) st st' /\ files' = files.
Proof.
  induction items as [|n items IH]; intros st files r st' files' Hp;
    cbn [construct_sequence].
  - intros [= <- <- <-]. split; [apply effect_refl|done].
  - cbn [forallb] in Hp. apply andb_prop in Hp as [Hn Hp].
    destruct (construct_node mktemp os_system yaml_load cfg loader n st files)
      as [[o st1] files1] eqn:Hc.
    destruct (construct_node_effect ref _ _ _ _ _ _ _ Hn Hc) as [H1 ->].
    rewrite node_weights_cons, scalars_cons. unfold node_budget in H1.
    destruct o as [v|e].
    2:{ intros [= <- <- <-]. split; [|done].
        eapply effect_weaken; [| |exact H1]; lia. }
    destruct (construct_sequence mktemp os_system yaml_load cfg loader items
                st1 files) as [[o2 st2] files2] eqn:Hs.
    destruct (IH _ _ _ _ _ Hp Hs) as [H2 ->].
    intros Hrun.
    assert (st' = st2 /\ files' = files) as [-> ->]
      by (destruct o2; by injection Hrun as <- <- <-).
    split; [|done]. eapply effect_step; [exact H1|exact H2|lia|lia].
Qed.

Lemma construct_mapping_effect ref loader entries :
  forall st files r st' files',
    forallb (fun kv => plain (fst kv) && plain (snd kv)) entries = true ->
    construct_mapping mktemp os_system yaml_load cfg loader entries st files
      = (r, st', files') ->
    effect cfg ref
      (list_sum (map (fun kv => (node_weight (fst kv) + node_weight (snd kv))%nat)
                     entries))
      (6 * list_sum (map (fun kv => (scalars (fst kv) + scalars (snd kv))%nat)
                         entries)) st st' /\ files' = files.
Proof.
  induction entries as [|[k v] entries IH]; intros st files r st' files' Hp;
    cbn [construct_mapping].
  - intros [= <- <- <-]. split; [apply effect_refl|done].
  - cbn [forallb fst snd] in Hp.
    apply andb_prop in Hp as [Hkv Hp]. apply andb_prop in Hkv as [Hk Hv].
    cbn [map fst snd]. rewrite !list_sum_cons.
    destruct (construct_node mktemp os_system yaml_load cfg loader k st files)
      as [[o st1] files1] eqn:Hc.
    destruct (construct_node_effect ref _ _ _ _ _ _ _ Hk Hc) as [H1 ->].
    unfold node_budget in H1.
    destruct o as [key|e].
    2:{ intros [= <- <- <-]. split; [|done].
        eapply effect_weaken; [| |exact H1]; lia. }
    destruct (negb (hashable key)).
    { intros [= <- <- <-]. split; [|done].
      eapply effect_weaken; [| |exact H1]; lia. }
    destruct (construct_node mktemp os_system yaml_load cfg loader v st1 files)
      as [[o2 st2] files2] eqn:Hc2.
    destruct (construct_node_effect ref _ _ _ _ _ _ _ Hv Hc2) as [H2 ->].
    unfold node_budget in H2.
    pose proof (effect_trans _ _ _ _ _ _ _ _ _ H1 H2) as H12.
    destruct o2 as [value|e].
    2:{ intros [= <- <- <-]. split; [|done].
        eapply effect_weaken; [| |exact H12]; lia. }
    destruct (construct_mapping mktemp os_system yaml_load cfg loader entries
                st2 files) as [[o3 st3] files3] eqn:Hs.
    destruct (IH _ _ _ _ _ Hp Hs) as [H3 ->].
    intros Hrun.
    assert (st' = st3 /\ files' = files) as [-> ->]
      by (destruct o3; by injection Hrun as <- <- <-).
    split; [|done]. eapply effect_step; [exact H12|exact H3|lia|lia].
Qed.

Lemma run_generator_effect ref g st files r st' files' :
  plain_generator g = true ->
  run_generator mktemp os_system yaml_load cfg g st files = (r, st', files') ->
  effect cfg ref (generator_weight g - 1) (generator_budget g) st st' /\
  files' = files.
Proof.
  intros Hp. destruct g as [t|t|t| |loader entries d|loader items l];
    cbn [run_generator].
  - intros [= <- <- <-]. split; [apply effect_refl'|done].
  - destruct (append_generator (lt_loader t) (GenDefer t) st) as [o st1] eqn:Ha.
    intros [= <- <- <-]. split; [|done].
    eapply effect_weaken;
      [| |exact (append_generator_effect cfg ref _ _ _ _ _ Ha eq_refl)];
      cbn; lia.
  - destruct (defer cfg t st) as [o st1] eqn:Hd.
    intros [= <- <- <-]. split; [|done].
    eapply effect_weaken; [| |exact (defer_effect cfg ref _ _ _ _ Hd)];
      cbn; lia.
  - intros [= <- <- <-]. split; [apply effect_refl'|done].
  - destruct (construct_mapping mktemp os_system yaml_load cfg loader entries
                st files) as [[o st1] files1] eqn:Hc.
    destruct (construct_mapping_effect ref _ _ _ _ _ _ _ Hp Hc) as [H1 ->].
    destruct o as [value|e].
    2:{ intros [= <- <- <-]. split; [|done].
        eapply effect_weaken; [| |exact H1];
          cbn [generator_weight generator_budget node_weight];
          unfold node_budget; cbn [scalars]; lia. }
    destruct (dict_update d value st1) as [o2 st2] eqn:Hu.
    intros [= <- <- <-]. split; [|done].
    eapply effect_step;
      [exact H1|exact (dict_update_effect cfg ref _ _ _ _ _ Hu)
      |cbn [generator_weight node_weight]; lia
      |cbn [generator_budget]; unfold node_budget; cbn [scalars]; lia].
  - destruct (construct_sequence mktemp os_system yaml_load cfg loader items
                st files) as [[o st1] files1] eqn:Hc.
    destruct (construct_sequence_effect ref _ _ _ _ _ _ _ Hp Hc) as [H1 ->].
    destruct o as [values|e].
    2:{ intros [= <- <- <-]. split; [|done].
        eapply effect_weaken; [| |exact H1];
          cbn [generator_weight generator_budget node_weight];
          unfold node_budget; cbn [scalars]; lia. }
    destruct (list_extend l values st1) as [o2 st2] eqn:Hu.
    intros [= <- <- <-]. split; [|done].
    eapply effect_step;
      [exact H1|exact (list_extend_effect cfg ref _ _ _ _ _ Hu)
      |cbn [generator_weight node_weight]; lia
      |cbn [generator_budget]; unfold node_budget; cbn [scalars]; lia].
Qed.

End Effects.

(** ** The effect of [_scan] and of the loop *)

Lemma harvest_effect cfg ref v st r st' self :
  loaders st !! ref = Some self -> root self = None ->
  harvest ref v st = (r, st') -> effect cfg ref 0 0 st st'.
Proof.
  intros Hs Hr. unfold harvest. intros Hrun.
  destruct v as [s|c| |ty text|d|l];
    try (injection Hrun as <- <-; apply effect_refl).
  destruct (dicts (heap st) !! d) as [items|];
    [|injection Hrun as <- <-; apply effect_refl].
  destruct (table_of (strings st) items) as [tbl|];
    [|injection Hrun as <- <-; apply effect_refl].
  injection Hrun as <- <-.
  apply (effect_trans _ _ 0 0 0 0 _ (set_variables ref tbl st)).
  { apply set_variables_effect. intros l Hl. left. split; [done|congruence]. }
  apply effect_store;
    cbn [with_heap loaders strings attempts heap dicts lists aliases].
  - done.
  - apply same_strings_raw.
  - auto.
  - apply same_attempts.
  - intros i d' [Hin|Hin%list_elem_of_singleton]%elem_of_app; [by left|].
    injection Hin as -> ->. right. split; [done|].
    cbn [set_variables loaders]. rewrite list_lookup_alter_eq, Hs.
    eexists. split; [done|]. done.
  - apply same_heap_dicts.
  - apply same_heap_lists.
Qed.

Lemma scan_effect cfg ref data st r st' :
  scan ref data st = (r, st') -> effect cfg ref 0 0 st st'.
Proof.
  unfold scan. intros Hrun.
  destruct (loaders st !! ref) as [self|] eqn:Hs;
    [|injection Hrun as <- <-; apply effect_refl].
  destruct (root self) as [rt|] eqn:Hr.
  - destruct (contains_variables st data) as [[]|e];
      try (injection Hrun as <- <-; apply effect_refl).
    apply (effect_weight _ _ 1).
    + apply (effect_weaken _ _ (generator_weight GenFn) (generator_budget GenFn));
        [done|done|].
      exact (append_generator_effect cfg ref _ _ _ _ _ Hrun eq_refl).
    + intros Hne. specialize (Hne self Hs).
      assert (rt <> ref) by congruence.
      unfold append_generator in Hrun.
      destruct (loaders st !! rt); injection Hrun as <- <-; [|lia].
      unfold queue_at. cbn [loaders].
      rewrite list_lookup_insert_ne by done. lia.
  - destruct (variables self);
      [injection Hrun as <- <-; apply effect_refl|].
    destruct (contains_variables st data) as [[]|e];
      try (injection Hrun as <- <-; apply effect_refl).
    destruct (getitem_variables st data) as [v|e];
      [|injection Hrun as <- <-; apply effect_refl].
    by apply (harvest_effect _ _ _ _ _ _ self Hs Hr Hrun).
Qed.

Section Loop.

Variable mktemp : gmap string string -> string.
Variable os_system :
  string -> gmap string string -> Z * gmap string string.
Variable yaml_load :
  string -> string -> Loader -> State -> gmap string string ->
  outcome pyval * State * gmap string string.
Variable cfg : Config.

Lemma run_generators_effect ref data gens :
  forall st files r st' files',
    Forall (fun g => plain_generator g = true) gens ->
    run_generators mktemp os_system yaml_load cfg ref data gens st files
      = (r, st', files') ->
    effect cfg ref (queue_weight gens - List.length gens) (queue_budget gens)
           st st' /\ files' = files.
Proof.
  induction gens as [|g gens IH]; intros st files r st' files' Hp;
    cbn [run_generators].
  - intros [= <- <- <-]. split; [apply effect_refl'|done].
  - inversion Hp as [|? ? Hg Hp']; subst.
    pose proof (queue_weight_length gens) as Hlen.
    pose proof (generator_weight_pos g) as Hpos.
    change (queue_weight (g :: gens))
      with (generator_weight g + queue_weight gens)%nat.
    change (queue_budget (g :: gens))
      with (generator_budget g + queue_budget gens)%nat.
    cbn [List.length].
    destruct (run_generator mktemp os_system yaml_load cfg g st files)
      as [[o st1] files1] eqn:Hrun.
    destruct (run_generator_effect _ _ _ _ ref _ _ _ _ _ _ Hg Hrun) as [H1 ->].
    destruct o as [[]|e].
    2:{ intros [= <- <- <-]. split; [|done].
        eapply effect_weaken; [| |exact H1]; lia. }
    destruct (scan ref data st1) as [o2 st2] eqn:Hscan.
    pose proof (effect_trans _ _ _ _ _ _ _ _ _ H1
                  (scan_effect cfg ref _ _ _ _ Hscan)) as H2.
    destruct o2 as [[]|e].
    2:{ intros [= <- <- <-]. split; [|done].
        eapply effect_weaken; [| |exact H2]; lia. }
    intros Hrest. destruct (IH _ _ _ _ _ Hp' Hrest) as [H3 ->].
    split; [|done]. eapply effect_step; [exact H2|exact H3|lia|lia].
Qed.

(** One pass of the loop: the queue is taken, its generators run. *)
Lemma pass_effect ref data st files self r st' files' :
  loaders st !! ref = Some self ->
  Forall (fun g => plain_generator g = true) (state_generators self) ->
  run_generators mktemp os_system yaml_load cfg ref data
    (state_generators self) (set_generators ref [] st) files
    = (r, st', files') ->
  effect cfg ref 0 0 st st' /\ files' = files /\
  ((forall self, loaders st !! ref = Some self -> root self <> Some ref) ->
   (queue_weight (queue_at st' ref) + List.length (state_generators self)
    <= queue_weight (state_generators self))%nat).
Proof.
  intros Hs Hp Hrun.
  destruct (run_generators_effect ref _ _ _ _ _ _ _ Hp Hrun)
    as [(Hf & Ha & Hq & Hw & Hb) ->].
  pose proof (queue_weight_length (state_generators self)) as Hlen.
  rewrite (queue_at_set_generators _ _ _ _ Hs) in Hq, Hw, Hb.
  change (queue_weight []) with 0%nat in Hw.
  change (queue_budget []) with 0%nat in Hb.
  cbn [set_generators attempts strings] in Ha, Hb.
  assert (Hroot : (forall self, loaders st !! ref = Some self ->
                                root self <> Some ref) ->
                  forall self0,
                    loaders (set_generators ref [] st) !! ref = Some self0 ->
                    root self0 <> Some ref).
  { intros H self0 Hs0.
    destruct (drain_frame_loader _ _ _ _ _ (set_generators_frame ref [] st) Hs0)
      as (l & Hl & ->). by apply H. }
  split; [|split; [done|]].
  - split; [exact (drain_frame_trans _ _ _ _
                     (set_generators_frame ref [] st) Hf)|].
    rewrite (queue_at_eq _ _ _ Hs).
    split; [done|]. split; [auto|]. split.
    + intros H. specialize (Hw (Hroot H)). lia.
    + lia.
  - intros H. specialize (Hw (Hroot H)). lia.
Qed.

Lemma drain_effect fuel ref data :
  forall st files r st' files',
    Forall (fun g => plain_generator g = true) (queue_at st ref) ->
    drain mktemp os_system yaml_load cfg fuel ref data st files
      = (r, st', files') ->
    effect cfg ref 0 0 st st' /\ files' = files.
Proof.
  induction fuel as [|fuel IH]; intros st files r st' files' Hp;
    cbn [drain].
  - repeat case_match; intros [= <- <- <-]; (split; [apply effect_refl|done]).
  - destruct (loaders st !! ref) as [self|] eqn:Hs;
      [|intros [= <- <- <-]; (split; [apply effect_refl|done])].
    rewrite (queue_at_eq _ _ _ Hs) in Hp.
    destruct (state_generators self) as [|g gens] eqn:Hq;
      [intros [= <- <- <-]; (split; [apply effect_refl|done])|].
    destruct (run_generators mktemp os_system yaml_load cfg ref data
                (g :: gens) (set_generators ref [] st) files)
      as [[o st1] files1] eqn:Hrun.
    rewrite <- Hq in Hrun, Hp.
    destruct (pass_effect _ _ _ _ _ _ _ _ Hs Hp Hrun) as (H1 & -> & _).
    destruct o as [[]|e]; [|intros [= <- <- <-]; by split].
    intros Hrest.
    assert (Hp1 : Forall (fun g => plain_generator g = true) (queue_at st1 ref)).
    { destruct H1 as (_ & _ & Hq1 & _). apply Hq1.
      by rewrite (queue_at_eq _ _ _ Hs). }
    destruct (IH _ _ _ _ _ Hp1 Hrest) as [H2 ->]. split; [|done].
    apply (effect_trans _ _ 0 0 0 0 _ _ _ H1 H2).
Qed.

Lemma drain_terminates fuel ref data :
  forall st files,
    (forall self, loaders st !! ref = Some self -> root self <> Some ref) ->
    Forall (fun g => plain_generator g = true) (queue_at st ref) ->
    (queue_weight (queue_at st ref) <= fuel)%nat ->
    exists r st',
      drain mktemp os_system yaml_load cfg fuel ref data st files
        = (Some r, st', files).
Proof.
  induction fuel as [|fuel IH]; intros st files Hr Hp Hw; cbn [drain].
  - destruct (loaders st !! ref) as [self|] eqn:Hs; [|eauto].
    rewrite (queue_at_eq _ _ _ Hs) in Hw.
    pose proof (queue_weight_length (state_generators self)) as Hlen.
    destruct (state_generators self); [eauto|]. cbn [List.length] in Hlen. lia.
  - destruct (loaders st !! ref) as [self|] eqn:Hs; [|eauto].
    rewrite (queue_at_eq _ _ _ Hs) in Hp, Hw.
    destruct (state_generators self) as [|g gens] eqn:Hq; [eauto|].
    destruct (run_generators mktemp os_system yaml_load cfg ref data
                (g :: gens) (set_generators ref [] st) files)
      as [[o st1] files1] eqn:Hrun.
    rewrite <- Hq in Hrun, Hp, Hw.
    destruct (pass_effect _ _ _ _ _ _ _ _ Hs Hp Hrun) as (H1 & -> & Hw1).
    assert (Hr0 : forall self0, loaders st !! ref = Some self0 ->
                                root self0 <> Some ref)
      by (intros self0 Hs0; rewrite Hs in Hs0; by apply Hr).
    specialize (Hw1 Hr0). rewrite Hq in Hw1, Hw. cbn [List.length] in Hw1.
    destruct o as [[]|e]; [|eauto].
    apply IH.
    + intros self1 Hs1. destruct H1 as (Hf & _).
      destruct (drain_frame_loader _ _ _ _ _ Hf Hs1) as (l & Hl & ->).
      by apply Hr0.
    + destruct H1 as (_ & _ & Hq1 & _). apply Hq1.
      by rewrite (queue_at_eq _ _ _ Hs).
    + lia.
Qed.

Lemma construct_document_effect fuel ref n st files r st' files' :
  plain n = true ->
  Forall (fun g => plain_generator g = true) (queue_at st ref) ->
  construct_document mktemp os_system yaml_load cfg fuel ref n st files
    = (r, st', files') ->
  effect cfg ref (node_weight n) (node_budget n) st st' /\ files' = files.
Proof.
  intros Hn Hp. unfold construct_document.
  destruct (construct_node mktemp os_system yaml_load cfg ref n st files)
    as [[o st1] files1] eqn:Hc.
  destruct (construct_node_effect _ _ _ _ ref _ _ _ _ _ _ _ Hn Hc) as [H1 ->].
  destruct o as [data|e]; [|intros [= <- <- <-]; by split].
  destruct (drain mktemp os_system yaml_load cfg fuel ref data st1 files)
    as [[o2 st2] files2] eqn:Hd.
  assert (Hp1 : Forall (fun g => plain_generator g = true) (queue_at st1 ref))
    by (destruct H1 as (_ & _ & Hq1 & _); auto).
  destruct (drain_effect _ _ _ _ _ _ _ _ Hp1 Hd) as [H2 ->].
  intros Hrun.
  assert (st' = st2 /\ files' = files) as [-> ->]
    by (destruct o2 as [[[]|]|]; by injection Hrun as <- <- <-).
  split; [|done]. eapply effect_step; [exact H1|exact H2|lia|lia].
Qed.

Lemma construct_document_total fuel ref n st files :
  plain n = true ->
  (forall self, loaders st !! ref = Some self -> root self <> Some ref) ->
  Forall (fun g => plain_generator g = true) (queue_at st ref) ->
  (queue_weight (queue_at st ref) + node_weight n <= fuel)%nat ->
  exists r st',
    construct_document mktemp os_system yaml_load cfg fuel ref n st files
      = (Some r, st', files).
Proof.
  intros Hn Hr Hp Hw. unfold construct_document.
  destruct (construct_node mktemp os_system yaml_load cfg ref n st files)
    as [[o st1] files1] eqn:Hc.
  destruct (construct_node_effect _ _ _ _ ref _ _ _ _ _ _ _ Hn Hc)
    as [(Hf & _ & Hq1 & Hw1 & _) ->].
  destruct o as [data|e]; [|eauto].
  destruct (drain_terminates fuel ref data st1 files) as (r & st2 & ->).
  - intros self1 Hs1.
    destruct (drain_frame_loader _ _ _ _ _ Hf Hs1) as (l & Hl & ->).
    by apply Hr.
  - auto.
  - specialize (Hw1 Hr). lia.
  - destruct r; eauto.
Qed.

End Loop.

(** ** Steps of the drain on a store written out *)

Lemma format_s_app strs more v p :
  format_s strs v = Ret p -> format_s (strs ++ more) v = Ret p.
Proof.
  destruct v as [s|r]; [done|]. cbn [format_s].
  destruct (strs !! r) as [ls|] eqn:Hr; [|done].
  by rewrite (lookup_app_l_Some _ _ _ _ Hr).
Qed.

Lemma substitute_app strs more ctx tpl :
  match substitute strs ctx tpl with
  | Ret s => substitute (strs ++ more) ctx tpl = Ret s
  | Raise (KeyError k) => substitute (strs ++ more) ctx tpl = Raise (KeyError k)
  | Raise _ => True
  end.
Proof.
  induction tpl as [|sg tpl IH]; [done|].
  destruct sg as [c| |x|]; cbn [substitute].
  - destruct (substitute strs ctx tpl) as [s|e].
    + by rewrite IH.
    + destruct e; try done. by rewrite IH.
  - destruct (substitute strs ctx tpl) as [s|e].
    + by rewrite IH.
    + destruct e; try done. by rewrite IH.
  - destruct (ctx !! x) as [v|]; [|done].
    destruct (format_s strs v) as [p|e] eqn:Hv.
    + rewrite (format_s_app _ more _ _ Hv).
      destruct (substitute strs ctx tpl) as [s|e].
      * by rewrite IH.
      * destruct e; try done. by rewrite IH.
    + destruct v as [s|r]; [done|]. cbn [format_s] in Hv.
      destruct (strs !! r) as [ls|]; [|by simplify_eq].
      unfold LazyString_str in Hv.
      destruct (ls_data ls); [case_match|]; by simplify_eq.
  - done.
Qed.

Lemma interpolate_app (st st' : State) (self self' : Loader) val ov :
  (exists more, strings st' = strings st ++ more) ->
  defaults self' = defaults self -> variables self' = variables self ->
  overrides self' = overrides self ->
  (exists ro ro', root_object st self = Ret ro /\
                  root_object st' self' = Ret ro' /\
                  ro' ≫= variables = ro ≫= variables) ->
  match interpolate st self val ov with
  | Ret s => interpolate st' self' val ov = Ret s
  | Raise (OnlTemplateError msg) =>
      interpolate st' self' val ov = Raise (OnlTemplateError msg)
  | Raise _ => True
  end.
Proof.
  intros [more Hs] Hd Hv Ho (ro & ro' & Hro & Hro' & Hvars).
  unfold interpolate, getContext. rewrite Hro, Hro', Hs, Hd, Hv, Ho, Hvars.
  match goal with |- context [substitute (strings st) ?c ?t] =>
    pose proof (substitute_app (strings st) more c t) as H;
    destruct (substitute (strings st) c t) as [s|e] eqn:Hsub end.
  - by rewrite H.
  - pose proof (substitute_outcome (strings st)
                  (update (update (update (update (update ∅ (defaults self))
                     (variables self)) (ro ≫= variables)) (overrides self)) ov)
                  (Template val)) as Hout.
    rewrite Hsub in Hout.
    destruct e; try done. by rewrite H.
Qed.

Lemma unresolved_KeyError ctx tpl :
  unresolved ctx tpl = true ->
  exists k, forall strs, substitute strs ctx tpl = Raise (KeyError k).
Proof.
  induction tpl as [|sg tpl IH]; [done|].
  destruct sg as [c| |x|]; cbn [unresolved substitute]; try done.
  - intros (k & Hk)%IH. exists k. intros strs. by rewrite Hk.
  - intros (k & Hk)%IH. exists k. intros strs. by rewrite Hk.
  - destruct (ctx !! x) as [[s|r]|]; [| done |by eauto].
    intros (k & Hk)%IH. exists k. intros strs. cbn [format_s]. by rewrite Hk.
Qed.

Lemma interpolate_unresolved (self : Loader) (ro : option Loader) val :
  unresolved (getContext self ro None) (Template val) = true ->
  exists k, forall st,
    root_object st self = Ret ro ->
    interpolate st self val None = Raise (OnlTemplateError (error_string k val)).
Proof.
  intros (k & Hk)%unresolved_KeyError. exists k. intros st Hro.
  unfold interpolate. by rewrite Hro, Hk.
Qed.

(** The store operations on a store with the loader at [ref] written
    out. *)
Lemma set_generators_at ref gens L ls strs atts h :
  set_generators ref gens (mkState (<[ref:=L]> ls) strs atts h) =
    mkState (<[ref:=with_generators L gens]> ls) strs atts h.
Proof. unfold set_generators. cbn. by rewrite list_alter_insert_eq. Qed.

Lemma set_variables_at ref vars L ls strs atts h :
  set_variables ref vars (mkState (<[ref:=L]> ls) strs atts h) =
    mkState (<[ref:=harvested vars L]> ls) strs atts h.
Proof. unfold set_variables. cbn. by rewrite list_alter_insert_eq. Qed.

Lemma append_generator_at ref g L ls strs atts h :
  (ref < List.length ls)%nat ->
  append_generator ref g (mkState (<[ref:=L]> ls) strs atts h) =
    (Ret tt,
     mkState (<[ref:=with_generators L (state_generators L ++ [g])]> ls)
             strs atts h).
Proof.
  intros Hlt. unfold append_generator. cbn.
  by rewrite list_lookup_insert_eq, list_insert_insert_eq.
Qed.

Lemma append_generator_eq ref g st l :
  loaders st !! ref = Some l ->
  append_generator ref g st =
    (Ret tt,
     mkState (<[ref:=with_generators l (state_generators l ++ [g])]>
                (loaders st))
             (strings st) (attempts st) (heap st)).
Proof. intros Hl. unfold append_generator. by rewrite Hl. Qed.

Lemma assign_eq t s st c ls :
  lt_data t = Some c ->
  strings st !! c = Some ls ->
  assign t s st =
    (Ret tt,
     mkState (loaders st)
             (<[c:={| ls_raw := ls_raw ls; ls_data := Some s |}]> (strings st))
             (attempts st) (heap st)).
Proof. intros Hd Hc. unfold assign, set_data. by rewrite Hd, Hc. Qed.

(** [defer], case by case. *)
Lemma defer_exhausted cfg t st l :
  loaders st !! lt_loader t = Some l ->
  lt_tries t <= 0 ->
  defer cfg t st =
    if strict cfg
    then (Raise (OnlTemplateError (exhausted_message (lt_val t) (name l))), st)
    else assign t (lt_val t) st.
Proof.
  intros Hl Ht. unfold defer. rewrite Hl.
  by destruct (Z.leb_spec (lt_tries t) 0); [|lia].
Qed.

Lemma defer_retry cfg t st l msg :
  loaders st !! lt_loader t = Some l ->
  0 < lt_tries t ->
  already_substituted t st = Ret false ->
  interpolate st l (lt_val t) None = Raise (OnlTemplateError msg) ->
  defer cfg t st =
    append_generator (default (lt_loader t) (root l))
      (GenDefer (with_tries t (lt_tries t - 1)))
      (record (EvDefer t false) st).
Proof.
  intros Hl Ht Ha Hi. unfold defer. rewrite Hl, Ha, Hi.
  destruct (Z.leb_spec (lt_tries t) 0); [lia|].
  cbn [is_Ret]. by destruct (root l).
Qed.

Lemma defer_success cfg t st l s :
  loaders st !! lt_loader t = Some l ->
  0 < lt_tries t ->
  already_substituted t st = Ret false ->
  interpolate st l (lt_val t) None = Ret s ->
  defer cfg t st = assign t s (record (EvDefer t true) st).
Proof.
  intros Hl Ht Ha Hi. unfold defer. rewrite Hl, Ha, Hi.
  by destruct (Z.leb_spec (lt_tries t) 0); [lia|].
Qed.

(** [_scan] on a document that is a lazy string: its own content is the
    sentinel text, in which [variables] does not occur. *)
Lemma scan_lazy ref c st self ls :
  loaders st !! ref = Some self ->
  strings st !! c = Some ls -> ls_raw ls = UNDEFINED ->
  scan ref (PLazy c) st = (Ret tt, st).
Proof.
  intros Hs Hc Hraw. unfold scan, contains_variables.
  rewrite Hs, Hc, Hraw.
  change (is_substring "variables" UNDEFINED) with false.
  by destruct (root self), (variables self).
Qed.

(** [_scan] on a document that is a string. *)
Lemma scan_str ref s st self :
  loaders st !! ref = Some self -> root self = None ->
  scan ref (PStr s) st =
    (if bool_decide (variables self = None) && is_substring "variables" s
     then Raise (TypeError "string indices must be integers, not str")
     else Ret tt, st).
Proof.
  intros Hs Hr. unfold scan, contains_variables, getitem_variables.
  rewrite Hs, Hr.
  destruct (variables self); [done|]. cbn [bool_decide andb].
  rewrite bool_decide_eq_true_2 by done. cbn [andb].
  by destruct (is_substring "variables" s).
Qed.

Section Steps.

Variable mktemp : gmap string string -> string.
Variable os_system :
  string -> gmap string string -> Z * gmap string string.
Variable yaml_load :
  string -> string -> Loader -> State -> gmap string string ->
  outcome pyval * State * gmap string string.
Variable cfg : Config.

Lemma drain_pass fuel ref data st files self g gens :
  loaders st !! ref = Some self ->
  state_generators self = g :: gens ->
  drain mktemp os_system yaml_load cfg (S fuel) ref data st files =
    match run_generators mktemp os_system yaml_load cfg ref data (g :: gens)
            (set_generators ref [] st) files
    with
    | (Raise e, st, files) => (Some (Raise e), st, files)
    | (Ret _, st, files) =>
        drain mktemp os_system yaml_load cfg fuel ref data st files
    end.
Proof. intros Hl Hg. cbn [drain]. by rewrite Hl, Hg. Qed.

Lemma drain_done fuel ref data st files self :
  loaders st !! ref = Some self ->
  state_generators self = [] ->
  drain mktemp os_system yaml_load cfg fuel ref data st files
    = (Some (Ret tt), st, files).
Proof. intros Hl Hg. destruct fuel; cbn [drain]; by rewrite Hl, Hg. Qed.

Lemma drain_short ref data st files self g gens :
  loaders st !! ref = Some self ->
  state_generators self = g :: gens ->
  drain mktemp os_system yaml_load cfg 0 ref data st files = (None, st, files).
Proof. intros Hl Hg. cbn [drain]. by rewrite Hl, Hg. Qed.

(** The passes of a root loader whose queue holds one template that
    cannot be resolved, the document being the lazy string itself. *)
Lemma drain_failing ref ls strs c h files (n : nat) :
  (ref < List.length ls)%nat ->
  strs !! c = Some (LazyString_new None) ->
  forall L t atts fuel,
    root L = None ->
    lt_loader t = ref -> lt_data t = Some c ->
    lt_tries t = Z.of_nat n ->
    unresolved (getContext L None None) (Template (lt_val t)) = true ->
    (n + 1 <= fuel)%nat ->
    drain mktemp os_system yaml_load cfg fuel ref (PLazy c)
      (mkState (<[ref:=with_generators L [GenDefer t]]> ls) strs atts h) files =
    if strict cfg
    then (Some (Raise (OnlTemplateError
                         (exhausted_message (lt_val t) (name L)))),
          mkState (<[ref:=with_generators L []]> ls) strs
                  (atts ++ failed_retries t n) h, files)
    else (Some (Ret tt),
          mkState (<[ref:=with_generators L []]> ls)
                  (<[c:={| ls_raw := UNDEFINED; ls_data := Some (lt_val t) |}]>
                     strs)
                  (atts ++ failed_retries t n) h, files).
Proof.
  intros Hlt Hc. induction n as [|n IH]; intros L t atts fuel Hr Hld Hd Ht Hu Hf.
  - destruct fuel as [|fuel]; [lia|].
    rewrite (drain_pass _ _ _ _ _
               (with_generators L [GenDefer t]) (GenDefer t) []);
      [|by cbn [loaders]; rewrite list_lookup_insert_eq|done].
    rewrite set_generators_at. cbn [run_generators run_generator].
    rewrite (defer_exhausted cfg t _ (with_generators (with_generators L [GenDefer t]) []));
      [| by cbn [loaders]; rewrite Hld, list_lookup_insert_eq | lia].
    cbn [failed_retries]. rewrite app_nil_r.
    destruct (strict cfg); [done|].
    rewrite (assign_eq t _ _ c (LazyString_new None) Hd) by done.
    cbv beta iota. cbn [loaders strings attempts heap].
    erewrite scan_lazy; cycle 1.
    { cbn [loaders]. by rewrite list_lookup_insert_eq. }
    { cbn [strings]. rewrite list_lookup_insert_eq; [done|].
      by eapply lookup_lt_Some. }
    { done. }
    apply (drain_done _ _ _ _ _
             (with_generators (with_generators L [GenDefer t]) []));
      [|done].
    cbn [loaders]. by rewrite list_lookup_insert_eq.
  - destruct fuel as [|fuel]; [lia|].
    rewrite (drain_pass _ _ _ _ _
               (with_generators L [GenDefer t]) (GenDefer t) []);
      [|by cbn [loaders]; rewrite list_lookup_insert_eq|done].
    rewrite set_generators_at. cbn [run_generators run_generator].
    destruct (interpolate_unresolved
                (with_generators (with_generators L [GenDefer t]) []) None
                (lt_val t) Hu) as [k Hk].
    erewrite (defer_retry cfg t _ _ _); cycle 1.
    { cbn [loaders]. by rewrite Hld, list_lookup_insert_eq. }
    { lia. }
    { unfold already_substituted. rewrite Hd. cbn [strings]. by rewrite Hc. }
    { apply Hk. unfold root_object. cbn [with_generators root]. by rewrite Hr. }
    cbn [with_generators root]. rewrite Hr. cbn [default from_option id].
    unfold record. cbn [loaders strings attempts heap].
    rewrite Hld, append_generator_at by done.
    cbn [with_generators state_generators app].
    erewrite scan_lazy; cycle 1.
    { cbn [loaders]. by rewrite list_lookup_insert_eq. }
    { cbn [strings]. exact Hc. }
    { done. }
    specialize (IH L (with_tries t (lt_tries t - 1))
                  (atts ++ [EvDefer t false]) fuel Hr Hld Hd).
    cbn [with_tries lt_tries lt_val] in IH.
    cbn [failed_retries].
    replace (atts ++ EvDefer t false
                  :: failed_retries (with_tries t (lt_tries t - 1)) n)
      with ((atts ++ [EvDefer t false])
            ++ failed_retries (with_tries t (lt_tries t - 1)) n)
      by (by rewrite <- app_assoc).
    apply IH; [lia|done|lia].
Qed.

End Steps.

(** ** Scalar documents *)

Lemma with_generators_id (l : Loader) :
  with_generators l (state_generators l) = l.
Proof. by destruct l. Qed.

Lemma with_generators_twice (l : Loader) g1 g2 :
  with_generators (with_generators l g1) g2 = with_generators l g2.
Proof. done. Qed.

Section ScalarDocuments.

Variable mktemp : gmap string string -> string.
Variable os_system :
  string -> gmap string string -> Z * gmap string string.
Variable yaml_load :
  string -> string -> Loader -> State -> gmap string string ->
  outcome pyval * State * gmap string string.
Variable cfg : Config.

(** The construction of a string scalar whose template is not resolved. *)
Lemma construct_object_unresolved ref self val st k :
  expand cfg = true ->
  loaders st !! ref = Some self ->
  interpolate st self val None = Raise (OnlTemplateError k) ->
  construct_object cfg ref val st =
    (Ret (VLazy (List.length (strings st))),
     mkState (<[ref:=with_generators self
                       (state_generators self
                        ++ [GenStartLazy
                              (with_data (LazyTemplate_init ref val)
                                         (List.length (strings st)))])]>
                (loaders st))
             (strings st ++ [LazyString_new None])
             (attempts st ++ [EvStart (LazyTemplate_init ref val) false])
             (heap st)).
Proof.
  intros Hx Hl Hk. unfold construct_object, StringNode_from_yaml. rewrite Hx.
  rewrite (start_next_raise (LazyTemplate_init ref val) st self _
             eq_refl Hl Hk).
  cbn [is_OnlTemplateError].
  by rewrite (append_generator_eq _ _ _ self).
Qed.

(** The construction of a string scalar that is interpolated at once. *)
Lemma construct_object_resolved ref self val st s :
  expand cfg = true ->
  loaders st !! ref = Some self ->
  interpolate st self val None = Ret s ->
  construct_object cfg ref val st =
    (Ret (VStr s),
     mkState (<[ref:=with_generators self
                       (state_generators self
                        ++ [GenStartScalar (LazyTemplate_init ref val)])]>
                (loaders st))
             (strings st)
             (attempts st ++ [EvStart (LazyTemplate_init ref val) true])
             (heap st)).
Proof.
  intros Hx Hl Hk. unfold construct_object, StringNode_from_yaml. rewrite Hx.
  rewrite (start_next_ret (LazyTemplate_init ref val) st self s
             eq_refl Hl Hk).
  by rewrite (append_generator_eq _ _ _ self).
Qed.

(** A document that is one string scalar whose template cannot be
    resolved, in a loader without a root: the whole run. *)
Lemma scalar_document_exhausted ref self val st files fuel :
  expand cfg = true ->
  loaders st !! ref = Some self ->
  root self = None -> state_generators self = [] ->
  unresolved (getContext self None None) (Template val) = true ->
  (7 <= fuel)%nat ->
  construct_document mktemp os_system yaml_load cfg fuel ref (DStr val) st files =
    (Some (if strict cfg
           then Raise (OnlTemplateError (exhausted_message val (name self)))
           else Ret (PLazy (List.length (strings st)))),
     mkState (loaders st)
             (strings st
              ++ [{| ls_raw := UNDEFINED;
                     ls_data := if strict cfg then None else Some val |}])
             (attempts st
              ++ EvStart (LazyTemplate_init ref val) false
                 :: failed_retries
                      (with_data (LazyTemplate_init ref val)
                                 (List.length (strings st))) 5)
             (heap st),
     files).
Proof.
  intros Hx Hl Hroot Hgens Hu Hfuel.
  pose proof (lookup_lt_Some _ _ _ Hl) as Hlt.
  destruct (interpolate_unresolved self None val Hu) as [k Hk].
  specialize (Hk st). unfold root_object in Hk. rewrite Hroot in Hk.
  specialize (Hk eq_refl).
  unfold construct_document. cbn [construct_node].
  rewrite (construct_object_unresolved _ _ _ _ _ Hx Hl Hk). rewrite Hgens.
  cbn [pyval_of app].
  destruct fuel as [|fuel]; [lia|].
  set (t1 := with_data (LazyTemplate_init ref val) (List.length (strings st))).
  rewrite (drain_pass _ _ _ _ _ _ _ _ _
             (with_generators self [GenStartLazy t1]) (GenStartLazy t1) []);
    [|by cbn [loaders]; rewrite list_lookup_insert_eq|done].
  rewrite set_generators_at. cbn [run_generators run_generator].
  change (lt_loader t1) with ref.
  rewrite append_generator_at by done.
  erewrite scan_lazy; cycle 1.
  { cbn [loaders]. by rewrite list_lookup_insert_eq. }
  { cbn [strings]. apply lookup_snoc_length. }
  { done. }
  cbn [with_generators state_generators app].
  pose proof (drain_failing mktemp os_system yaml_load cfg ref (loaders st)
                (strings st ++ [LazyString_new None])
                (List.length (strings st)) (heap st) files
                5 Hlt (lookup_snoc_length _ _) self t1
                (attempts st ++ [EvStart (LazyTemplate_init ref val) false])
                fuel Hroot eq_refl eq_refl eq_refl Hu ltac:(lia)) as Hdrain.
  change (with_generators
            (with_generators (with_generators self [GenStartLazy t1]) [])
            [GenDefer t1])
    with (with_generators self [GenDefer t1]).
  rewrite Hdrain. clear Hdrain.
  assert (Hid : <[ref:=with_generators self []]> (loaders st) = loaders st).
  { rewrite <- Hgens, with_generators_id. by apply list_insert_id. }
  rewrite Hid, <- app_assoc. cbn [app].
  destruct (strict cfg).
  - reflexivity.
  - rewrite insert_app_r_alt, Nat.sub_diag by lia. reflexivity.
Qed.

(** A document that is one string scalar that is interpolated at once,
    in a loader without a root. *)
Lemma scalar_document_resolved ref self val s st files fuel :
  expand cfg = true ->
  loaders st !! ref = Some self ->
  root self = None -> state_generators self = [] ->
  interpolate st self val None = Ret s ->
  (1 <= fuel)%nat ->
  construct_document mktemp os_system yaml_load cfg fuel ref (DStr val) st files =
    (Some (if bool_decide (variables self = None)
              && is_substring "variables" s
           then Raise (TypeError "string indices must be integers, not str")
           else Ret (PStr s)),
     mkState (loaders st) (strings st)
             (attempts st ++ [EvStart (LazyTemplate_init ref val) true])
             (heap st),
     files).
Proof.
  intros Hx Hl Hroot Hgens Hok Hfuel.
  pose proof (lookup_lt_Some _ _ _ Hl) as Hlt.
  unfold construct_document. cbn [construct_node].
  rewrite (construct_object_resolved _ _ _ _ _ Hx Hl Hok). rewrite Hgens.
  cbn [pyval_of app].
  destruct fuel as [|fuel]; [lia|].
  set (t0 := LazyTemplate_init ref val).
  rewrite (drain_pass _ _ _ _ _ _ _ _ _
             (with_generators self [GenStartScalar t0]) (GenStartScalar t0) []);
    [|by cbn [loaders]; rewrite list_lookup_insert_eq|done].
  rewrite set_generators_at. cbn [run_generators run_generator].
  erewrite scan_str; cycle 1.
  { cbn [loaders]. by rewrite list_lookup_insert_eq. }
  { done. }
  cbn [with_generators variables].
  assert (Hid : <[ref:=with_generators self []]> (loaders st) = loaders st).
  { rewrite <- Hgens, with_generators_id. by apply list_insert_id. }
  change (with_generators (with_generators self [GenStartScalar t0]) [])
    with (with_generators self []).
  change {| name := name self; defaults := defaults self;
            overrides := overrides self; variables := variables self;
            root := root self; state_generators := [] |}
    with (with_generators self []).
  rewrite Hid.
  destruct (bool_decide (variables self = None) && is_substring "variables" s).
  - reflexivity.
  - erewrite drain_done; [reflexivity|exact Hl|exact Hgens].
Qed.

End ScalarDocuments.

(** ** Scalar documents of a loader with a root *)

Lemma interpolate_unresolved' (self : Loader) (ro : option Loader) val :
  unresolved (getContext self ro None) (Template val) = true ->
  exists k, forall st ro',
    root_object st self = Ret ro' ->
    ro' ≫= variables = ro ≫= variables ->
    interpolate st self val None = Raise (OnlTemplateError (error_string k val)).
Proof.
  intros (k & Hk)%unresolved_KeyError. exists k. intros st ro' Hro Hv.
  unfold interpolate. rewrite Hro. unfold getContext in *. by rewrite Hv, Hk.
Qed.

Lemma append_generator_root cref rref g C R ls strs atts h :
  cref <> rref -> (rref < List.length ls)%nat ->
  append_generator rref g (mkState (<[cref:=C]> (<[rref:=R]> ls)) strs atts h) =
    (Ret tt,
     mkState (<[cref:=C]>
                (<[rref:=with_generators R (state_generators R ++ [g])]> ls))
             strs atts h).
Proof.
  intros Hne Hlt. unfold append_generator. cbn [loaders strings attempts heap].
  rewrite list_lookup_insert_ne, list_lookup_insert_eq by done.
  by rewrite list_insert_insert_ne, list_insert_insert_eq.
Qed.

Section IncludedDocuments.

Variable mktemp : gmap string string -> string.
Variable os_system :
  string -> gmap string string -> Z * gmap string string.
Variable yaml_load :
  string -> string -> Loader -> State -> gmap string string ->
  outcome pyval * State * gmap string string.
Variable cfg : Config.

(** A document that is one string scalar whose template is not resolved,
    in a loader with a root: the whole run. *)
Lemma scalar_document_handed_over cref rref child rl val st files fuel :
  expand cfg = true ->
  loaders st !! cref = Some child ->
  loaders st !! rref = Some rl ->
  root child = Some rref -> cref <> rref ->
  state_generators child = [] ->
  unresolved (getContext child (Some rl) None) (Template val) = true ->
  (2 <= fuel)%nat ->
  construct_document mktemp os_system yaml_load cfg fuel cref (DStr val) st
    files =
    (Some (Ret (PLazy (List.length (strings st)))),
     mkState (<[rref:=with_generators rl
                        (state_generators rl
                         ++ [GenDefer
                               {| lt_loader := cref; lt_val := val;
                                  lt_data := Some (List.length (strings st));
                                  lt_tries := 4 |}])]>
                (loaders st))
             (strings st ++ [LazyString_new None])
             (attempts st
              ++ [EvStart (LazyTemplate_init cref val) false;
                  EvDefer (with_data (LazyTemplate_init cref val)
                                     (List.length (strings st))) false])
             (heap st),
     files).
Proof.
  intros Hx Hc Hr Hroot Hne Hgens Hu Hfuel.
  pose proof (lookup_lt_Some _ _ _ Hc) as Hclt.
  pose proof (lookup_lt_Some _ _ _ Hr) as Hrlt.
  destruct (interpolate_unresolved' child (Some rl) val Hu) as [k Hk].
  assert (Hfail : interpolate st child val None =
                  Raise (OnlTemplateError (error_string k val))).
  { apply (Hk st (Some rl)); [|done]. unfold root_object. by rewrite Hroot, Hr. }
  set (t1 := with_data (LazyTemplate_init cref val) (List.length (strings st))).
  unfold construct_document. cbn [construct_node].
  rewrite (construct_object_unresolved _ _ _ _ _ _ Hx Hc Hfail). rewrite Hgens.
  cbn [pyval_of app]. fold t1.
  rewrite <- (list_insert_id (loaders st) rref rl) at 1 by done.
  destruct fuel as [|[|fuel]]; [lia|lia|].
  rewrite (drain_pass _ _ _ _ _ _ _ _ _
             (with_generators child [GenStartLazy t1]) (GenStartLazy t1) []);
    [|by cbn [loaders]; rewrite list_lookup_insert_eq
         by (by rewrite length_insert)|done].
  rewrite set_generators_at. cbn [run_generators run_generator].
  change (lt_loader t1) with cref.
  rewrite append_generator_at by (by rewrite length_insert).
  erewrite scan_lazy; cycle 1.
  { cbn [loaders].
    by rewrite list_lookup_insert_eq by (by rewrite length_insert). }
  { cbn [strings]. apply lookup_snoc_length. }
  { done. }
  change (with_generators
            (with_generators (with_generators child [GenStartLazy t1]) [])
            (state_generators
               (with_generators (with_generators child [GenStartLazy t1]) [])
             ++ [GenDefer t1]))
    with (with_generators child [GenDefer t1]).
  rewrite (drain_pass _ _ _ _ _ _ _ _ _
             (with_generators child [GenDefer t1]) (GenDefer t1) []);
    [|by cbn [loaders]; rewrite list_lookup_insert_eq
         by (by rewrite length_insert)|done].
  rewrite set_generators_at. cbn [run_generators run_generator].
  erewrite (defer_retry cfg t1 _ _ _); cycle 1.
  { cbn [loaders]. change (lt_loader t1) with cref.
    by rewrite list_lookup_insert_eq by (by rewrite length_insert). }
  { done. }
  { unfold already_substituted, t1, with_data. cbn [lt_data strings].
    by rewrite lookup_snoc_length. }
  { eapply Hk.
    - unfold root_object. cbn [with_generators root loaders]. rewrite Hroot.
      by rewrite list_lookup_insert_ne, list_lookup_insert_eq by done.
    - done. }
  cbn [with_generators root]. rewrite Hroot. cbn [default from_option id].
  unfold record. cbn [loaders strings attempts heap].
  rewrite append_generator_root by done.
  erewrite scan_lazy; cycle 1.
  { cbn [loaders].
    by rewrite list_lookup_insert_eq by (by rewrite length_insert). }
  { cbn [strings]. apply lookup_snoc_length. }
  { done. }
  erewrite drain_done; cycle 1.
  { cbn [loaders].
    by rewrite list_lookup_insert_eq by (by rewrite length_insert). }
  { done. }
  assert (Hid : forall ls : list Loader, ls !! cref = Some child ->
                  <[cref:=with_generators
                            (with_generators child [GenDefer t1]) []]> ls
                  = ls).
  { intros ls Hls. apply list_insert_id. rewrite Hls. f_equal.
    rewrite with_generators_twice, <- Hgens. symmetry. apply with_generators_id. }
  rewrite Hid by (by rewrite list_lookup_insert_ne).
  rewrite <- app_assoc. reflexivity.
Qed.

End IncludedDocuments.

(** ** A mapping document with a forward reference *)

Lemma state_generators_with (l : Loader) gens :
  state_generators (with_generators l gens) = gens.
Proof. done. Qed.

Lemma harvested_with vars (l : Loader) gens :
  harvested vars (with_generators l gens) = with_generators (harvested vars l) gens.
Proof. done. Qed.

Lemma harvested_twice v1 v2 (l : Loader) :
  harvested v2 (harvested v1 l) = harvested v2 l.
Proof. done. Qed.

(** Interpolation depends on the loader's scope and on the lazy strings. *)
Lemma interpolate_scope (st st' : State) (self self' : Loader) val ov :
  root self = None -> root self' = None ->
  defaults self' = defaults self -> variables self' = variables self ->
  overrides self' = overrides self -> strings st' = strings st ->
  interpolate st' self' val ov = interpolate st self val ov.
Proof.
  intros Hr Hr' Hd Hv Ho Hs. unfold interpolate, root_object, getContext.
  by rewrite Hr, Hr', Hd, Hv, Ho, Hs.
Qed.

Lemma sync_fresh d als st :
  (forall i, (i, d) ∉ als) -> sync d als st = (Ret tt, st).
Proof.
  induction als as [|[i d'] als IH]; intros Hfresh; cbn [sync]; [done|].
  destruct (Nat.eqb_spec d' d) as [->|Hne].
  - destruct (Hfresh i). by left.
  - apply IH. intros j Hin. apply (Hfresh j). by right.
Qed.

Lemma sync_snoc d als ref st :
  (forall i, (i, d) ∉ als) ->
  sync d (als ++ [(ref, d)]) st =
    match dicts (heap st) !! d with
    | None => (Raise ModelFault, st)
    | Some items =>
        match table_of (strings st) items with
        | None =>
            (Raise (Unsupported "variables with a value that is a dict or a list"),
             st)
        | Some tbl => (Ret tt, set_variables ref tbl st)
        end
    end.
Proof.
  induction als as [|[i d'] als IH]; intros Hfresh; cbn [sync app].
  - rewrite Nat.eqb_refl. by repeat case_match.
  - destruct (Nat.eqb_spec d' d) as [->|Hne].
    + destruct (Hfresh i). by left.
    + apply IH. intros j Hin. apply (Hfresh j). by right.
Qed.

Lemma scan_idle ref data st self vars :
  loaders st !! ref = Some self -> root self = None ->
  variables self = Some vars ->
  scan ref data st = (Ret tt, st).
Proof. intros Hs Hr Hv. unfold scan. by rewrite Hs, Hr, Hv. Qed.

Section ForwardReference.

Variable mktemp : gmap string string -> string.
Variable os_system :
  string -> gmap string string -> Z * gmap string string.
Variable yaml_load :
  string -> string -> Loader -> State -> gmap string string ->
  outcome pyval * State * gmap string string.
Variable cfg : Config.
Hypothesis expand_on : expand cfg = true.

Lemma construct_node_resolved ref L ls strs atts h val s files :
  (ref < List.length ls)%nat ->
  interpolate (mkState (<[ref:=L]> ls) strs atts h) L val None = Ret s ->
  construct_node mktemp os_system yaml_load cfg ref (DStr val)
    (mkState (<[ref:=L]> ls) strs atts h) files =
    (Ret (PStr s),
     mkState (<[ref:=with_generators L
                       (state_generators L
                        ++ [GenStartScalar (LazyTemplate_init ref val)])]> ls)
             strs (atts ++ [EvStart (LazyTemplate_init ref val) true]) h,
     files).
Proof.
  intros Hlt Hok. cbn [construct_node].
  rewrite (construct_object_resolved cfg ref L val _ s expand_on);
    [|by cbn [loaders]; rewrite list_lookup_insert_eq|done].
  cbn [loaders strings attempts heap pyval_of].
  by rewrite list_insert_insert_eq.
Qed.

Lemma construct_node_unresolved ref L ls strs atts h val k files :
  (ref < List.length ls)%nat ->
  interpolate (mkState (<[ref:=L]> ls) strs atts h) L val None
    = Raise (OnlTemplateError k) ->
  construct_node mktemp os_system yaml_load cfg ref (DStr val)
    (mkState (<[ref:=L]> ls) strs atts h) files =
    (Ret (PLazy (List.length strs)),
     mkState (<[ref:=with_generators L
                       (state_generators L
                        ++ [GenStartLazy
                              (with_data (LazyTemplate_init ref val)
                                         (List.length strs))])]> ls)
             (strs ++ [LazyString_new None])
             (atts ++ [EvStart (LazyTemplate_init ref val) false]) h,
     files).
Proof.
  intros Hlt Hok. cbn [construct_node].
  rewrite (construct_object_unresolved cfg ref L val _ k expand_on);
    [|by cbn [loaders]; rewrite list_lookup_insert_eq|done].
  cbn [loaders strings attempts heap pyval_of].
  by rewrite list_insert_insert_eq.
Qed.

Lemma construct_node_plain ref L ls strs atts h val files :
  (ref < List.length ls)%nat -> root L = None ->
  has_dollar val = false ->
  construct_node mktemp os_system yaml_load cfg ref (DStr val)
    (mkState (<[ref:=L]> ls) strs atts h) files =
    (Ret (PStr val),
     mkState (<[ref:=with_generators L
                       (state_generators L
                        ++ [GenStartScalar (LazyTemplate_init ref val)])]> ls)
             strs (atts ++ [EvStart (LazyTemplate_init ref val) true]) h,
     files).
Proof.
  intros Hlt Hr Hval. apply construct_node_resolved; [done|].
  apply (interpolate_plain_aux _ _ _ _ None); [|done].
  unfold root_object. by rewrite Hr.
Qed.

Lemma construct_node_map ref L ls strs atts D Ls Al entries files :
  (ref < List.length ls)%nat ->
  construct_node mktemp os_system yaml_load cfg ref (DMap entries)
    (mkState (<[ref:=L]> ls) strs atts (mkHeap D Ls Al)) files =
    (Ret (PDict (List.length D)),
     mkState (<[ref:=with_generators L
                       (state_generators L
                        ++ [GenYamlMap ref entries (List.length D)])]> ls)
             strs atts (mkHeap (D ++ [[]]) Ls Al),
     files).
Proof.
  intros Hlt. cbn [construct_node new_dict heap dicts lists aliases].
  unfold with_heap. cbn [loaders strings attempts].
  by rewrite append_generator_at.
Qed.


Lemma dict_update_fresh L strs atts D Ls Al rest value :
  (forall i, (i, List.length D) ∉ Al) ->
  dict_update (List.length D) value
    (mkState L strs atts (mkHeap (D ++ [] :: rest) Ls Al)) =
    (Ret tt, mkState L strs atts (mkHeap (D ++ value :: rest) Ls Al)).
Proof.
  intros Hfresh. unfold dict_update. cbn [heap dicts lists aliases].
  rewrite lookup_app_r, Nat.sub_diag by lia. cbn [lookup list_lookup].
  rewrite sync_fresh by done. unfold with_heap.
  cbn [loaders strings attempts app].
  rewrite insert_app_r_alt, Nat.sub_diag by lia. done.
Qed.

Lemma dict_update_alias ref L ls strs atts D Ls Al items0 value tbl :
  (forall i, (i, S (List.length D)) ∉ Al) ->
  table_of strs value = Some tbl ->
  dict_update (S (List.length D)) value
    (mkState (<[ref:=L]> ls) strs atts
             (mkHeap (D ++ [items0; []]) Ls (Al ++ [(ref, S (List.length D))])))
  = (Ret tt,
     mkState (<[ref:=harvested tbl L]> ls) strs atts
             (mkHeap (D ++ [items0; value]) Ls
                     (Al ++ [(ref, S (List.length D))]))).
Proof.
  intros Hfresh Htbl. unfold dict_update. cbn [heap dicts lists aliases].
  assert (Hlook : forall x : list (pyval * pyval),
            (D ++ [items0; x]) !! S (List.length D) = Some x).
  { intros x. rewrite lookup_app_r by lia.
    by replace (S (List.length D) - List.length D)%nat with 1%nat by lia. }
  rewrite Hlook. unfold with_heap.
  cbn zeta. cbn [loaders strings attempts heap dicts lists aliases].
  assert (Hins : <[S (List.length D):=value]> (D ++ [items0; []]) =
                 D ++ [items0; value]).
  { rewrite insert_app_r_alt by lia.
    by replace (S (List.length D) - List.length D)%nat with 1%nat by lia. }
  rewrite app_nil_l, Hins, sync_snoc by done.
  cbn [heap dicts strings]. rewrite Hlook, Htbl.
  by rewrite set_variables_at.
Qed.

Lemma scan_harvest ref L ls strs atts D Ls Al d items d1 items1 tbl :
  (ref < List.length ls)%nat ->
  root L = None -> variables L = None ->
  D !! d = Some items ->
  dict_get strs items "variables" = Some (PDict d1) ->
  D !! d1 = Some items1 ->
  table_of strs items1 = Some tbl ->
  scan ref (PDict d) (mkState (<[ref:=L]> ls) strs atts (mkHeap D Ls Al)) =
    (Ret tt,
     mkState (<[ref:=harvested tbl L]> ls) strs atts
             (mkHeap D Ls (Al ++ [(ref, d1)]))).
Proof.
  intros Hlt Hr Hv Hd Hget Hd1 Htbl.
  unfold scan, contains_variables, getitem_variables, harvest.
  cbn [loaders strings heap dicts]. rewrite list_lookup_insert_eq by done.
  rewrite Hr, Hv, Hd, Hget. cbn [bool_decide]. rewrite bool_decide_eq_true_2 by done.
  rewrite Hd1, Htbl, set_variables_at. unfold with_heap.
  by cbn [loaders strings attempts heap dicts lists aliases].
Qed.

Lemma scan_idle_at ref data L ls strs atts h vars :
  (ref < List.length ls)%nat ->
  root L = None -> variables L = Some vars ->
  scan ref data (mkState (<[ref:=L]> ls) strs atts h) =
    (Ret tt, mkState (<[ref:=L]> ls) strs atts h).
Proof.
  intros Hlt Hr Hv. apply (scan_idle _ _ _ L vars); [|done|done].
  cbn [loaders]. by rewrite list_lookup_insert_eq.
Qed.

End ForwardReference.

Ltac norm :=
  cbv beta iota zeta;
  cbn [hashable negb state_generators with_generators app];
  rewrite ?harvested_with, ?harvested_twice, ?with_generators_twice,
    <- ?app_assoc, ?length_app;
  cbn [app List.length]; rewrite ?Nat.add_1_r.

Section ForwardDocument.

Variable mktemp : gmap string string -> string.
Variable os_system :
  string -> gmap string string -> Z * gmap string string.
Variable yaml_load :
  string -> string -> Loader -> State -> gmap string string ->
  outcome pyval * State * gmap string string.
Variable cfg : Config.
Hypothesis expand_on : expand cfg = true.

(** The run on a mapping document whose first entry refers to a
    variable that the [variables] entry after it binds. *)
Lemma mapping_document_forward ref self ls strs atts D Ls Al
    key val name text msg s files fuel :
  (ref < List.length ls)%nat ->
  root self = None -> variables self = None -> state_generators self = [] ->
  (forall i d, (i, d) ∈ Al -> (d < List.length D)%nat) ->
  has_dollar key = false -> has_dollar name = false ->
  has_dollar text = false ->
  interpolate (mkState (<[ref:=self]> ls) strs atts (mkHeap D Ls Al))
              self val None = Raise (OnlTemplateError msg) ->
  interpolate (mkState (<[ref:=self]> ls) strs atts (mkHeap D Ls Al))
              (harvested {[ name := VStr text ]} self) val None = Ret s ->
  (3 <= fuel)%nat ->
  construct_document mktemp os_system yaml_load cfg fuel ref
    (DMap [(DStr key, DStr val);
           (DStr "variables", DMap [(DStr name, DStr text)])])
    (mkState (<[ref:=self]> ls) strs atts (mkHeap D Ls Al)) files =
    (Some (Ret (PDict (List.length D))),
     mkState (<[ref:=harvested {[ name := VStr text ]} self]> ls)
             (strs ++ [{| ls_raw := UNDEFINED; ls_data := Some s |}])
             (atts ++
              [EvStart (LazyTemplate_init ref key) true;
               EvStart (LazyTemplate_init ref val) false;
               EvStart (LazyTemplate_init ref "variables") true;
               EvStart (LazyTemplate_init ref name) true;
               EvStart (LazyTemplate_init ref text) true;
               EvDefer (with_data (LazyTemplate_init ref val)
                                  (List.length strs)) true])
             (mkHeap (D ++ [[(PStr key, PLazy (List.length strs));
                             (PStr "variables", PDict (S (List.length D)))];
                            [(PStr name, PStr text)]])
                     Ls (Al ++ [(ref, S (List.length D))])),
     files).
Proof.
  intros Hlt Hroot Hvars Hgens Hal Hkey Hname Htext Hfail Hok Hfuel.
  set (t1 := with_data (LazyTemplate_init ref val) (List.length strs)).
  set (inner := [(DStr name, DStr text)]).
  set (G0 := GenYamlMap ref
               [(DStr key, DStr val); (DStr "variables", DMap inner)]
               (List.length D)).
  assert (Hfresh0 : forall i, (i, List.length D) ∉ Al).
  { intros i Hin. specialize (Hal _ _ Hin). lia. }
  assert (Hfresh1 : forall i, (i, S (List.length D)) ∉ Al).
  { intros i Hin. specialize (Hal _ _ Hin). lia. }
  unfold construct_document.
  rewrite construct_node_map by done. rewrite Hgens. cbn [app]. fold G0.
  destruct fuel as [|[|[|fuel]]]; [lia|lia|lia|].
  (* first pass: the top-level mapping is filled *)
  rewrite (drain_pass _ _ _ _ _ _ _ _ _ (with_generators self [G0]) G0 []);
    [|by cbn [loaders]; rewrite list_lookup_insert_eq|done].
  rewrite set_generators_at, with_generators_twice.
  cbn [run_generators]. unfold G0 at 1. cbn [run_generator construct_mapping].
  rewrite construct_node_plain by done. norm.
  rewrite (construct_node_unresolved _ _ _ _ expand_on _ _ _ _ _ _ _ msg)
    by (done || (rewrite <- Hfail; by apply interpolate_scope)).
  norm. fold t1.
  rewrite construct_node_plain by done. norm.
  rewrite construct_node_map by done. norm.
  rewrite dict_update_fresh by done. norm.
  erewrite (scan_harvest _ _ _ _ _ _ _ _ (List.length D) _ (S (List.length D))
              [] ∅);
    [|done|done|done
     |by rewrite lookup_app_r, Nat.sub_diag by lia
     |reflexivity
     |rewrite lookup_app_r by lia;
      by replace (S (List.length D) - List.length D)%nat with 1%nat by lia
     |done].
  norm.
  norm.
  (* second pass: the mapping of the variables is filled *)
  match goal with |- context [<[ref:=with_generators ?L (?g :: ?gens)]> ls] =>
    rewrite (drain_pass _ _ _ _ _ _ _ _ _ (with_generators L (g :: gens))
               g gens);
      [|by cbn [loaders]; rewrite list_lookup_insert_eq|done] end.
  rewrite set_generators_at. norm.
  cbn [run_generators run_generator].
  rewrite (scan_idle_at _ _ _ _ _ _ _ ∅) by done. norm.
  change (lt_loader t1) with ref.
  rewrite append_generator_at by done. norm.
  rewrite (scan_idle_at _ _ _ _ _ _ _ ∅) by done. norm.
  rewrite (scan_idle_at _ _ _ _ _ _ _ ∅) by done. norm.
  unfold inner. cbn [construct_mapping].
  rewrite construct_node_plain by done. norm.
  rewrite construct_node_plain by done. norm.
  rewrite (dict_update_alias _ _ _ _ _ _ _ _ _ _ {[ name := VStr text ]})
    by done.
  norm.
  rewrite (scan_idle_at _ _ _ _ _ _ _ {[ name := VStr text ]}) by done. norm.
  (* third pass: the retry succeeds *)
  match goal with |- context [<[ref:=with_generators ?L (?g :: ?gens)]> ls] =>
    rewrite (drain_pass _ _ _ _ _ _ _ _ _ (with_generators L (g :: gens))
               g gens);
      [|by cbn [loaders]; rewrite list_lookup_insert_eq|done] end.
  rewrite set_generators_at. norm.
  cbn [run_generators run_generator].
  erewrite (defer_success cfg t1 _ _ s); cycle 1.
  { cbn [loaders]. change (lt_loader t1) with ref.
    by rewrite list_lookup_insert_eq. }
  { done. }
  { unfold already_substituted, t1, with_data. cbn [lt_data strings].
    by rewrite lookup_snoc_length. }
  { match goal with |- interpolate ?st' ?self' _ _ = _ =>
      pose proof (interpolate_app
                    (mkState (<[ref:=self]> ls) strs atts (mkHeap D Ls Al)) st'
                    (harvested {[ name := VStr text ]} self) self' val None)
        as H end.
    rewrite Hok in H. apply H; try done.
    - by eexists.
    - exists None, None. unfold root_object. cbn. by rewrite Hroot. }
  unfold record. cbn [loaders strings attempts heap].
  rewrite (assign_eq t1 s _ (List.length strs) (LazyString_new None) eq_refl)
    by apply lookup_snoc_length.
  norm. cbn [loaders strings attempts heap].
  rewrite (scan_idle_at _ _ _ _ _ _ _ {[ name := VStr text ]}) by done. norm.
  rewrite (scan_idle_at _ _ _ _ _ _ _ {[ name := VStr text ]}) by done. norm.
  rewrite (scan_idle_at _ _ _ _ _ _ _ {[ name := VStr text ]}) by done. norm.
  erewrite drain_done; cycle 1.
  { cbn [loaders]. by rewrite list_lookup_insert_eq. }
  { done. }
  rewrite insert_app_r_alt, Nat.sub_diag by lia.
  replace (with_generators (harvested {[ name := VStr text ]} self) [])
    with (harvested {[ name := VStr text ]} self); [reflexivity|].
  unfold with_generators, harvested. cbn. by rewrite Hgens.
Qed.

End ForwardDocument.

